(** * palworld-namegen: the weighted tiered name generator of [app.py]

    A shallow embedding of the generation logic of [app.py]
    ([normalize_words], [apply_case], [join_name], [pick_word_from_tiers],
    [generate_one_name], [split_for_display]) together with the properties
    of the specification that concern them.

    Modelling conventions.
    - A Python [str] is a list of Unicode code points ([pystr]).
    - [Dict[str, List[str]]] arguments that are only looked up are [gmap]s;
      [tier_weights], which the code iterates with [.items()], is an
      insertion-ordered association list whose keys are pairwise distinct
      ([dict_wf]).
    - A Python [set] is a [gset].
    - The objects passed by reference to [generate_one_name] live in a
      [Heap]; the code runs in a state-and-exception monad over it.
    - [random.Random] is a tape of raw draws read through a cursor; the
      floats of [rng.choices] are kept by their exact values, rounded as
      float arithmetic rounds, and an [int] no float holds raises
      [OverflowError].
    - A run of the Streamlit script is a function of the session and of
      what the user did with the widgets; an exception ends the run. *)

From Stdlib Require Import NArith ZArith Ascii String.
From stdpp Require Import gmap strings list fin_maps.

Open Scope N_scope.

(** ** Python strings *)

Definition codepoint := N.
Definition pystr := list codepoint.

(** String literals of the source, written as Rocq strings. *)
Definition py (s : string) : pystr := N_of_ascii <$> list_ascii_of_string s.

Definition in_range (lo hi c : codepoint) : bool := (lo <=? c) && (c <=? hi).

Definition is_ascii (c : codepoint) : bool := c <? 128.
Definition is_ascii_upper (c : codepoint) : bool := in_range 65 90 c.
Definition is_ascii_lower (c : codepoint) : bool := in_range 97 122 c.
Definition is_ascii_letter (c : codepoint) : bool :=
  is_ascii_upper c || is_ascii_lower c.

(** [str.isspace] for one code point, the set [str.strip()] removes. *)
Definition py_isspace (c : codepoint) : bool :=
  in_range 9 13 c || in_range 28 32 c || (c =? 133) || (c =? 160)
  || (c =? 5760) || in_range 8192 8202 c || (c =? 8232) || (c =? 8233)
  || (c =? 8239) || (c =? 8287) || (c =? 12288).

Fixpoint lstrip (s : pystr) : pystr :=
  match s with
  | [] => []
  | c :: s' => if py_isspace c then lstrip s' else s
  end.

Definition rstrip (s : pystr) : pystr := rev (lstrip (rev s)).

(** [s.strip()] *)
Definition strip (s : pystr) : pystr := rstrip (lstrip s).

(** [sep.join(parts)] *)
Fixpoint str_join (sep : pystr) (parts : list pystr) : pystr :=
  match parts with
  | [] => []
  | [p] => p
  | p :: ps => p ++ sep ++ str_join sep ps
  end.

(** *** Case mapping

    On ASCII text the three case methods of [str] are the functions below.
    Outside ASCII they follow the Unicode tables of the interpreter, which
    are not part of the repository: they are an interface the development
    is parametric in, with the ASCII behaviour as its laws. *)

Definition ascii_lower_cp (c : codepoint) : codepoint :=
  if is_ascii_upper c then c + 32 else c.
Definition ascii_upper_cp (c : codepoint) : codepoint :=
  if is_ascii_lower c then c - 32 else c.

Definition ascii_lower (s : pystr) : pystr := ascii_lower_cp <$> s.
Definition ascii_upper (s : pystr) : pystr := ascii_upper_cp <$> s.

(** [str.title]: a letter is upper-cased unless the previous character is
    cased, in which case it is lower-cased. *)
Fixpoint ascii_title_from (previous_is_cased : bool) (s : pystr) : pystr :=
  match s with
  | [] => []
  | c :: s' =>
      (if previous_is_cased then ascii_lower_cp c else ascii_upper_cp c)
        :: ascii_title_from (is_ascii_letter c) s'
  end.
Definition ascii_title (s : pystr) : pystr := ascii_title_from false s.

Definition all_ascii (s : pystr) : Prop := Forall (λ c, is_ascii c = true) s.

Class PyCase := {
  str_lower : pystr → pystr;
  str_upper : pystr → pystr;
  str_title : pystr → pystr;
  str_lower_ascii : ∀ s, all_ascii s → str_lower s = ascii_lower s;
  str_upper_ascii : ∀ s, all_ascii s → str_upper s = ascii_upper s;
  str_title_ascii : ∀ s, all_ascii s → str_title s = ascii_title s;
}.

(** The instance used to run the code on ASCII word lists. *)
#[refine] Instance ascii_case : PyCase := {|
  str_lower := ascii_lower;
  str_upper := ascii_upper;
  str_title := ascii_title;
|}.
Proof. all: reflexivity. Defined.

(** ** TextNormalizer *)

(** The delimiter class [[\n,]] of [re.split]. *)
Definition is_delim (c : codepoint) : bool := (c =? 10) || (c =? 44).

(** [re.split(r"[\n,]+", text)]: the pieces between maximal runs of
    delimiters; a run at either end of the text leaves an empty piece there.
    [in_run] tells that the previous character was a delimiter. *)
Fixpoint re_split_from (in_run : bool) (text : pystr) : list pystr :=
  match text with
  | [] => [[]]
  | c :: text' =>
      if is_delim c then
        if in_run then re_split_from true text'
        else [] :: re_split_from true text'
      else
        match re_split_from false text' with
        | piece :: pieces => (c :: piece) :: pieces
        | [] => [[c]]
        end
  end.
Definition re_split (text : pystr) : list pystr := re_split_from false text.

(** The class [[A-Za-z \-']] whose complement [re.sub] deletes. *)
Definition is_word_char (c : codepoint) : bool :=
  is_ascii_letter c || (c =? 32) || (c =? 45) || (c =? 39).

(** [re.sub(r"[^A-Za-z \-']", "", w)] *)
Definition re_sub_nonword (w : pystr) : pystr := List.filter is_word_char w.

Definition nonempty (s : pystr) : bool :=
  match s with [] => false | _ => true end.

(** One iteration of the first loop of [normalize_words]. *)
Definition collect_step (words : list pystr) (w : pystr) : list pystr :=
  let w := strip w in
  if negb (nonempty w) then words
  else
    let w := strip (re_sub_nonword w) in
    if nonempty w then words ++ [w] else words.

Section Normalizer.
Context `{PyCase}.

(** One iteration of the second loop: [seen] and [out]. *)
Definition dedupe_step (st : gset pystr * list pystr) (w : pystr)
  : gset pystr * list pystr :=
  let '(seen, out) := st in
  let key := str_lower w in
  if decide (key ∈ seen) then (seen, out)
  else ({[key]} ∪ seen, out ++ [w]).

Definition dedupe_from (seen : gset pystr) (out words : list pystr)
  : list pystr :=
  (foldl dedupe_step (seen, out) words).2.

Definition normalize_words (text : pystr) : list pystr :=
  let raw := re_split text in
  let words := foldl collect_step [] raw in
  dedupe_from ∅ [] words.
End Normalizer.

(** ** Exceptions and results of a call *)

(** The exceptions of Python the code can raise, and the one Streamlit
    raises when a page holds the same element twice. *)
Inductive exn :=
  | KeyError
  | IndexError
  | ValueError
  | OverflowError
  | StreamlitDuplicateElementId.

(** How a call ends: it returns a value, raises, or (for a loop run with a
    bound on its iterations) exhausts the bound. *)
Inductive outcome (A : Type) :=
  | Returns (a : A)
  | Raises (e : exn)
  | OutOfFuel.
Arguments Returns {A} a.
Arguments Raises {A} e.
Arguments OutOfFuel {A}.

Instance outcome_ret : MRet outcome := λ A a, Returns a.
Instance outcome_bind : MBind outcome := λ A B f o,
  match o with
  | Returns a => f a
  | Raises e => Raises e
  | OutOfFuel => OutOfFuel
  end.

(** [seq[i]] for a non-negative index. *)
Definition getitem {A} (seq : list A) (i : nat) : outcome A :=
  match seq !! i with
  | Some x => Returns x
  | None => Raises IndexError
  end.

(** ** Formatter *)

Section Formatter.
Context `{PyCase}.

Definition apply_case (s mode : pystr) : pystr :=
  if bool_decide (mode = py "Title Case") then str_title s
  else if bool_decide (mode = py "UPPER") then str_upper s
  else if bool_decide (mode = py "lower") then str_lower s
  else s.

End Formatter.

Definition join_name (adj noun separator : pystr) : pystr :=
  if bool_decide (separator = py "Space") then adj ++ py " " ++ noun
  else if bool_decide (separator = py "Hyphen") then adj ++ py "-" ++ noun
  else if bool_decide (separator = py "Underscore") then adj ++ py "_" ++ noun
  else if bool_decide (separator = py "of") then adj ++ py " of " ++ noun
  else adj ++ py " " ++ noun.

(** [s.startswith(p)], giving the rest of [s]. *)
Fixpoint strip_prefix (p s : pystr) : option pystr :=
  match p, s with
  | [], _ => Some s
  | a :: p', b :: s' => if a =? b then strip_prefix p' s' else None
  | _ :: _, [] => None
  end.

(** The text before and after the leftmost occurrence of [sep] in [s]. *)
Fixpoint str_partition (sep s : pystr) : option (pystr * pystr) :=
  match strip_prefix sep s with
  | Some rest => Some ([], rest)
  | None =>
      match s with
      | [] => None
      | c :: s' => prod_map (cons c) id <$> str_partition sep s'
      end
  end.

(** [sep in s] *)
Definition str_contains (sep s : pystr) : bool :=
  bool_decide (is_Some (str_partition sep s)).

(** [s.split(sep, 1)] *)
Definition str_split1 (sep s : pystr) : list pystr :=
  match str_partition sep s with
  | Some (a, b) => [a; b]
  | None => [s]
  end.

(** [a, b = parts] *)
Definition unpack2 (parts : list pystr) : outcome (pystr * pystr) :=
  match parts with
  | [a; b] => Returns (a, b)
  | _ => Raises ValueError
  end.

Definition split_for_display (final_name : pystr) : outcome (pystr * pystr) :=
  if str_contains (py " of ") final_name then
    unpack2 (str_split1 (py " of ") final_name)
  else if str_contains (py "-") final_name then
    unpack2 (str_split1 (py "-") final_name)
  else if str_contains (py "_") final_name then
    unpack2 (str_split1 (py "_") final_name)
  else
    let parts := str_split1 (py " ") final_name in
    left ← getitem parts 0;
    right ← (if bool_decide (1 < length parts)%nat then getitem parts 1
             else Returns []);
    Returns (left, right).

(** ** The random source

    A [random.Random] is a tape of raw draws and a cursor; every call of
    [_randbelow] or [random] consumes one draw.  Quantifying over the tape
    quantifies over every sequence of random draws. *)

Record Rng := { tape : nat → N; cursor : nat }.

Definition rng_next (g : Rng) : N * Rng :=
  (tape g (cursor g), {| tape := tape g; cursor := S (cursor g) |}).

(** [rng._randbelow(n)] for [n > 0] *)
Definition randbelow (n : nat) (g : Rng) : nat * Rng :=
  let '(r, g') := rng_next g in (N.to_nat (r mod N.of_nat n), g').

(** [rng.choice(seq)] *)
Definition rng_choice {A} (seq : list A) (g : Rng) : outcome A * Rng :=
  match seq with
  | [] => (Raises IndexError, g)
  | _ => let '(i, g') := randbelow (length seq) g in (getitem seq i, g')
  end.

(** [itertools.accumulate(weights)] *)
Fixpoint accumulate_from (acc : Z) (weights : list Z) : list Z :=
  match weights with
  | [] => []
  | w :: ws => (acc + w)%Z :: accumulate_from (acc + w)%Z ws
  end.
Definition accumulate (weights : list Z) : list Z := accumulate_from 0 weights.

(** [rng.random()] is the float [k / 2^53] for a 53-bit [k]. *)
Definition random_bits : N := 2 ^ 53.

(** Converting an [int] to a float rounds it to the nearest float, and
    raises [OverflowError] when that is [2^1024] or more: from
    [2^1024 - 2^970] on. *)
Definition float_overflow : Z := 2 ^ 1024 - 2 ^ 970.

(** A non-negative integer rounded to 53 significant bits, a tie going to
    the even neighbour: the rounding of a float operation whose exact
    result is a multiple of the unit the integer counts. *)
Definition round53 (n : Z) : Z :=
  let dropped := (Z.log2 n + 1 - 53)%Z in
  if (dropped <=? 0)%Z then n
  else
    let q := Z.shiftr n dropped in
    let r := Z.land n (Z.ones dropped) in
    let half := Z.shiftl 1 (dropped - 1) in
    let q := if (half <? r)%Z || ((r =? half)%Z && Z.odd q)
             then (q + 1)%Z else q in
    Z.shiftl q dropped.

(** [bisect(a, x, 0, hi)] for the float [x = num / 2^53] and nondecreasing
    [a] (the cumulative weights of positive weights): the number of entries
    among [a[0:hi]] that are [<= x]; an [int] and a float are compared by
    their exact values. *)
Definition bisect (a : list Z) (num : Z) (hi : nat) : nat :=
  length (List.filter (λ c, (c * Z.of_N random_bits <=? num)%Z) (take hi a)).

(** [rng.choices(population, weights=weights, k=1)] for [int] weights.
    [total] becomes a float ([cum_weights[-1] + 0.0]), which raises
    [OverflowError] beyond the range of a float; [random() * total] is the
    float product, in units of [2^-53]. *)
Definition rng_choices {A} (population : list A) (weights : list Z) (g : Rng)
  : outcome (list A) * Rng :=
  let n := length population in
  let cum_weights := accumulate weights in
  if negb (length cum_weights =? n)%nat then (Raises ValueError, g)
  else
    match last cum_weights with
    | None => (Raises IndexError, g)
    | Some total =>
        if (float_overflow <=? Z.abs total)%Z then (Raises OverflowError, g)
        else if (total <=? 0)%Z then (Raises ValueError, g)
        else
          let total := round53 total in
          let '(r, g') := rng_next g in
          let x := round53 (Z.of_N (r mod random_bits) * total)%Z in
          let hi := (n - 1)%nat in
          (x ← getitem population (bisect cum_weights x hi); Returns [x], g')
    end.

(** ** The objects a generation request refers to *)

Definition weights_dict := list (pystr * Z).

Record Heap := {
  adjectives : gmap pystr (list pystr);
  nouns : gmap pystr (list pystr);
  tier_weights : list (pystr * Z);
  used_names : gset pystr;
  rng : Rng;
}.

(** A Python dict has one entry per key. *)
Definition dict_wf (d : weights_dict) : Prop := NoDup d.*1.

(** [d[k]] on the association list of a dict *)
Fixpoint dict_getitem (d : weights_dict) (k : pystr) : outcome Z :=
  match d with
  | [] => Raises KeyError
  | (k', v) :: d' => if bool_decide (k' = k) then Returns v else dict_getitem d' k
  end.

(** [lists.get(t, [])] *)
Definition get_or_empty (lists : gmap pystr (list pystr)) (t : pystr)
  : list pystr :=
  default [] (lists !! t).

(** [lists[t]] *)
Definition lists_getitem (lists : gmap pystr (list pystr)) (t : pystr)
  : outcome (list pystr) :=
  match lists !! t with
  | Some ws => Returns ws
  | None => Raises KeyError
  end.

(** *** The monad of code running over the heap *)

Definition M (A : Type) : Type := Heap → outcome A * Heap.

Instance M_ret : MRet M := λ A a h, (Returns a, h).
Instance M_bind : MBind M := λ A B f m h,
  match m h with
  | (Returns a, h') => f a h'
  | (Raises e, h') => (Raises e, h')
  | (OutOfFuel, h') => (OutOfFuel, h')
  end.

(** Reading an object. *)
Definition load {A} (field : Heap → A) : M A := λ h, (Returns (field h), h).

(** A pure computation that may raise. *)
Definition lift {A} (o : outcome A) : M A := λ h, (o, h).

(** The heap with the random source advanced to [g]. *)
Definition set_rng (g : Rng) (h : Heap) : Heap :=
  {| adjectives := adjectives h; nouns := nouns h;
     tier_weights := tier_weights h; used_names := used_names h;
     rng := g |}.

(** A method of the random source. *)
Definition with_rng {A} (f : Rng → outcome A * Rng) : M A := λ h,
  let '(o, g') := f (rng h) in (o, set_rng g' h).

(** [used_names.add(x)] *)
Definition used_names_add (x : pystr) : M unit := λ h,
  (Returns (),
   {| adjectives := adjectives h; nouns := nouns h;
      tier_weights := tier_weights h; used_names := {[x]} ∪ used_names h;
      rng := rng h |}).

(** ** WeightedPicker *)

Definition is_available (lists : gmap pystr (list pystr)) (tw : pystr * Z)
  : bool :=
  (0 <? tw.2)%Z && (0 <? length (get_or_empty lists tw.1))%nat.

(** [lists] is the dict the caller passes: [adjectives] or [nouns]. *)
Definition pick_word_from_tiers (lists : Heap → gmap pystr (list pystr))
  : M (option (pystr * pystr)) :=
  tier_weights ← load tier_weights;
  lists ← load lists;
  let available_tiers := (List.filter (is_available lists) tier_weights).*1 in
  match available_tiers with
  | [] => mret None
  | _ =>
      weights ← lift (mapM (dict_getitem tier_weights) available_tiers);
      chosen ← with_rng (rng_choices available_tiers weights);
      tier ← lift (getitem chosen 0);
      words ← lift (lists_getitem lists tier);
      word ← with_rng (rng_choice words);
      mret (Some (tier, word))
  end.

(** ** NameGenerator *)

(** The first precomputation loop: [(tier, noun)] for every noun of a tier
    of positive weight. *)
Definition enabled_nouns_of (tier_weights : weights_dict)
    (nouns : gmap pystr (list pystr)) : list (pystr * pystr) :=
  foldl (λ enabled_nouns '(t, w),
           if (0 <? w)%Z
           then foldl (λ enabled_nouns n, enabled_nouns ++ [(t, n)])
                      enabled_nouns (get_or_empty nouns t)
           else enabled_nouns)
        [] tier_weights.

(** What one pass through the body of the retry loop does next. *)
Inductive flow (A : Type) :=
  | Return (a : A)
  | Continue.
Arguments Return {A} a.
Arguments Continue {A}.

Definition name_result : Type := pystr * pystr * pystr.

Section Generator.
Context `{PyCase}.

(** [nouns_by_letter.setdefault(n[0].lower(), []).append((t, n))] *)
Definition index_noun (nouns_by_letter : gmap pystr (list (pystr * pystr)))
    (tn : pystr * pystr) : gmap pystr (list (pystr * pystr)) :=
  match tn.2 with
  | [] => nouns_by_letter
  | c :: _ =>
      let letter := str_lower [c] in
      <[letter := default [] (nouns_by_letter !! letter) ++ [tn]]>
        nouns_by_letter
  end.

Definition nouns_by_letter_of (enabled_nouns : list (pystr * pystr))
  : gmap pystr (list (pystr * pystr)) :=
  foldl index_noun ∅ enabled_nouns.

(** Lines 150-157: format the pair and test it against [used_names]. *)
Definition finish_attempt (separator case_mode : pystr)
    (avoid_duplicates : bool) (adj_tier adj_raw noun_tier noun_raw : pystr)
  : M (flow (option name_result)) :=
  let adj := apply_case adj_raw case_mode in
  let noun := apply_case noun_raw case_mode in
  let final_name := join_name adj noun separator in
  used_names ← load used_names;
  if avoid_duplicates && bool_decide (str_lower final_name ∈ used_names)
  then mret Continue
  else mret (Return (Some (final_name, adj_tier, noun_tier))).

(** Lines 133-157: one pass through the body of the loop. *)
Definition attempt (nouns_by_letter : gmap pystr (list (pystr * pystr)))
    (separator case_mode : pystr) (alliteration avoid_duplicates : bool)
  : M (flow (option name_result)) :=
  picked_adj ← pick_word_from_tiers adjectives;
  match picked_adj with
  | None => mret (Return None)
  | Some (adj_tier, adj_raw) =>
      if alliteration then
        c ← lift (getitem adj_raw 0);
        let letter := str_lower [c] in
        let candidates := default [] (nouns_by_letter !! letter) in
        match candidates with
        | [] => mret Continue
        | _ =>
            '(noun_tier, noun_raw) ← with_rng (rng_choice candidates);
            finish_attempt separator case_mode avoid_duplicates
                           adj_tier adj_raw noun_tier noun_raw
        end
      else
        picked_noun ← pick_word_from_tiers nouns;
        match picked_noun with
        | None => mret (Return None)
        | Some (noun_tier, noun_raw) =>
            finish_attempt separator case_mode avoid_duplicates
                           adj_tier adj_raw noun_tier noun_raw
        end
  end.

Definition max_tries : nat := 250.

(** [while tries < 250: tries += 1; ...], run for at most [fuel] passes;
    the value returned comes with the final value of [tries]. *)
Fixpoint retry_loop (fuel : nat)
    (nouns_by_letter : gmap pystr (list (pystr * pystr)))
    (separator case_mode : pystr) (alliteration avoid_duplicates : bool)
    (tries : nat) : M (option name_result * nat) :=
  if bool_decide (tries < max_tries)%nat then
    match fuel with
    | O => lift OutOfFuel
    | S fuel' =>
        let tries := S tries in
        next ← attempt nouns_by_letter separator case_mode
                       alliteration avoid_duplicates;
        match next with
        | Return result => mret (result, tries)
        | Continue =>
            retry_loop fuel' nouns_by_letter separator case_mode
                       alliteration avoid_duplicates tries
        end
    end
  else mret (None, tries).

(** The body of [generate_one_name], keeping the number of passes made. *)
Definition generate_counting (fuel : nat) (separator case_mode : pystr)
    (alliteration avoid_duplicates : bool) : M (option name_result * nat) :=
  tier_weights ← load tier_weights;
  nouns ← load nouns;
  let enabled_nouns := enabled_nouns_of tier_weights nouns in
  let nouns_by_letter := nouns_by_letter_of enabled_nouns in
  retry_loop fuel nouns_by_letter separator case_mode
             alliteration avoid_duplicates 0.

Definition generate_one_name (separator case_mode : pystr)
    (alliteration avoid_duplicates : bool) : M (option name_result) :=
  r ← generate_counting max_tries separator case_mode
                         alliteration avoid_duplicates;
  mret r.1.

(** The caller, lines 535-549 without the animation: a produced name is
    recorded in [used_names] by the caller, after the call. *)
Definition pull (separator case_mode : pystr)
    (alliteration avoid_duplicates : bool) : M (option name_result) :=
  picked ← generate_one_name separator case_mode alliteration avoid_duplicates;
  match picked with
  | None => mret None
  | Some (final, adj_tier, noun_tier) =>
      _ ← (if avoid_duplicates then used_names_add (str_lower final)
           else mret ());
      mret (Some (final, adj_tier, noun_tier))
  end.

End Generator.

(** ** Specification-level definitions *)

(** What the first loop of [normalize_words] keeps of one piece. *)
Definition clean_piece (w : pystr) : option pystr :=
  let w := strip w in
  if nonempty w then
    let w := strip (re_sub_nonword w) in
    if nonempty w then Some w else None
  else None.

(** The separator of ["\n".join(words)]. *)
Definition newline : pystr := [10].

(** Splitting at every single newline or comma. *)
Fixpoint split_each (text : pystr) : list pystr :=
  match text with
  | [] => [[]]
  | c :: text' =>
      if is_delim c then [] :: split_each text'
      else
        match split_each text' with
        | piece :: pieces => (c :: piece) :: pieces
        | [] => [[c]]
        end
  end.

Definition is_nonempty (s : pystr) : Prop := s ≠ [].

(** A cleaned word: not empty, made of letters, spaces, hyphens and
    apostrophes, with no white space at either end. *)
Definition word_chars (w : pystr) : Prop :=
  Forall (λ c, is_word_char c = true) w.
Definition trimmed (w : pystr) : Prop :=
  lstrip w = w ∧ lstrip (rev w) = rev w.
Definition clean_word (w : pystr) : Prop :=
  w ≠ [] ∧ word_chars w ∧ trimmed w.

Section NormalizerSpec.
Context `{PyCase}.

(** Two words are the same up to case. *)
Definition same_word (v w : pystr) : Prop := str_lower v = str_lower w.

#[global] Instance same_word_dec (v w : pystr) : Decision (same_word v w).
Proof. unfold same_word. apply _. Defined.

(** Keep a word when no earlier word is the same up to case. *)
Fixpoint keep_first_after (earlier words : list pystr) : list pystr :=
  match words with
  | [] => []
  | w :: ws =>
      if decide (Exists (λ v, same_word v w) earlier)
      then keep_first_after (earlier ++ [w]) ws
      else w :: keep_first_after (earlier ++ [w]) ws
  end.

(** Steps 1-3 of the specification of [normalize]. *)
Definition cleaned_pieces (text : pystr) : list pystr :=
  let pieces := split_each text in
  let trimmed := filter is_nonempty (strip <$> pieces) in
  filter is_nonempty ((λ w, strip (re_sub_nonword w)) <$> trimmed).

(** Steps 1-4. *)
Definition spec_normalize (text : pystr) : list pystr :=
  keep_first_after [] (cleaned_pieces text).

(** The second loop of [normalize_words] as a recursive function. *)
Fixpoint dedupe_list (seen : gset pystr) (words : list pystr) : list pystr :=
  match words with
  | [] => []
  | w :: ws =>
      if decide (str_lower w ∈ seen) then dedupe_list seen ws
      else w :: dedupe_list ({[str_lower w]} ∪ seen) ws
  end.

End NormalizerSpec.

(** [m] leaves every object but the random source as it found it. *)
Definition rng_only {A} (m : M A) : Prop :=
  ∀ h, ∃ g', (m h).2 = set_rng g' h.

(** The tiers [pick_word_from_tiers] may draw from. *)
Definition eligible (lists : gmap pystr (list pystr)) (d : weights_dict)
    (t : pystr) : Prop :=
  ∃ w, (t, w) ∈ d ∧ (0 < w)%Z ∧ get_or_empty lists t ≠ [].

(** The total [rng.choices] makes of the weights of those tiers. *)
Definition available_total (lists : gmap pystr (list pystr))
    (d : weights_dict) : Z :=
  foldr Z.add 0%Z (List.filter (is_available lists) d).*2.

(** That total is within the range of a float. *)
Definition within_float_range (lists : gmap pystr (list pystr))
    (d : weights_dict) : Prop :=
  (available_total lists d < float_overflow)%Z.

(** A word of [lists] in a tier of positive weight. *)
Definition enabled_word (lists : gmap pystr (list pystr)) (d : weights_dict)
    (t w : pystr) : Prop :=
  ∃ wt, (t, wt) ∈ d ∧ (0 < wt)%Z ∧ w ∈ get_or_empty lists t.

Section GeneratorSpec.
Context `{PyCase}.

(** [w[0].lower()], when [w] has a first character. *)
Definition first_letter (w : pystr) : option pystr :=
  match w with
  | [] => None
  | c :: _ => Some (str_lower [c])
  end.

(** The name made of a pair of words. *)
Definition formatted (separator case_mode adj_raw noun_raw : pystr) : pystr :=
  join_name (apply_case adj_raw case_mode) (apply_case noun_raw case_mode)
            separator.

(** A pair an attempt may choose: an adjective and a noun of enabled tiers,
    with the same first letter when alliteration is asked for. *)
Definition chosen_pair (h : Heap) (alliteration : bool)
    (adj_tier adj_raw noun_tier noun_raw : pystr) : Prop :=
  enabled_word (adjectives h) (tier_weights h) adj_tier adj_raw
  ∧ enabled_word (nouns h) (tier_weights h) noun_tier noun_raw
  ∧ (alliteration = true →
     ∃ letter, first_letter adj_raw = Some letter
               ∧ first_letter noun_raw = Some letter).

Definition is_duplicate (h : Heap) (avoid_duplicates : bool) (name : pystr)
  : Prop :=
  avoid_duplicates = true ∧ str_lower name ∈ used_names h.

(** No attempt can pick both words: there is no eligible adjective, or
    nouns are picked by weight and there is no eligible noun. *)
Definition no_eligible_pair (h : Heap) (alliteration : bool) : Prop :=
  (¬ ∃ t, eligible (adjectives h) (tier_weights h) t)
  ∨ (alliteration = false ∧ ¬ ∃ t, eligible (nouns h) (tier_weights h) t).

(** The weights of the tiers a pass draws from are beyond the range of a
    float: those of the adjective tiers, or those of the noun tiers when
    nouns are picked by weight. *)
Definition weights_overflow (h : Heap) (alliteration : bool) : Prop :=
  ¬ within_float_range (adjectives h) (tier_weights h)
  ∨ (alliteration = false
     ∧ ¬ within_float_range (nouns h) (tier_weights h)).

(** The ways one pass through the loop body can end. *)
Inductive attempt_post (separator case_mode : pystr)
    (alliteration avoid_duplicates : bool) (h : Heap)
  : outcome (flow (option name_result)) → Prop :=
  | post_no_pair :
      no_eligible_pair h alliteration →
      attempt_post separator case_mode alliteration avoid_duplicates h
                   (Returns (Return None))
  | post_empty_adjective adj_tier :
      alliteration = true →
      enabled_word (adjectives h) (tier_weights h) adj_tier [] →
      attempt_post separator case_mode alliteration avoid_duplicates h
                   (Raises IndexError)
  | post_no_candidate adj_tier adj_raw letter :
      alliteration = true →
      enabled_word (adjectives h) (tier_weights h) adj_tier adj_raw →
      first_letter adj_raw = Some letter →
      (∀ noun_tier noun_raw,
         enabled_word (nouns h) (tier_weights h) noun_tier noun_raw →
         first_letter noun_raw ≠ Some letter) →
      attempt_post separator case_mode alliteration avoid_duplicates h
                   (Returns Continue)
  | post_duplicate adj_tier adj_raw noun_tier noun_raw :
      chosen_pair h alliteration adj_tier adj_raw noun_tier noun_raw →
      is_duplicate h avoid_duplicates
                   (formatted separator case_mode adj_raw noun_raw) →
      attempt_post separator case_mode alliteration avoid_duplicates h
                   (Returns Continue)
  | post_name adj_tier adj_raw noun_tier noun_raw :
      chosen_pair h alliteration adj_tier adj_raw noun_tier noun_raw →
      ¬ is_duplicate h avoid_duplicates
                     (formatted separator case_mode adj_raw noun_raw) →
      attempt_post separator case_mode alliteration avoid_duplicates h
        (Returns (Return (Some (formatted separator case_mode adj_raw noun_raw,
                                adj_tier, noun_tier))))
  | post_overflow :
      weights_overflow h alliteration →
      attempt_post separator case_mode alliteration avoid_duplicates h
                   (Raises OverflowError).

(** The ways the retry loop, entered with [tries] passes made, can end. *)
Inductive loop_post (separator case_mode : pystr)
    (alliteration avoid_duplicates : bool) (h : Heap) (tries : nat)
  : outcome (option name_result * nat) → Prop :=
  | loop_failed :
      (tries < max_tries)%nat →
      no_eligible_pair h alliteration →
      loop_post separator case_mode alliteration avoid_duplicates h tries
                (Returns (None, S tries))
  | loop_exhausted :
      ((tries < max_tries)%nat → ¬ no_eligible_pair h alliteration) →
      loop_post separator case_mode alliteration avoid_duplicates h tries
                (Returns (None, max_tries))
  | loop_raised adj_tier :
      alliteration = true →
      enabled_word (adjectives h) (tier_weights h) adj_tier [] →
      loop_post separator case_mode alliteration avoid_duplicates h tries
                (Raises IndexError)
  | loop_name k adj_tier adj_raw noun_tier noun_raw :
      (tries < k ≤ max_tries)%nat →
      chosen_pair h alliteration adj_tier adj_raw noun_tier noun_raw →
      ¬ is_duplicate h avoid_duplicates
                     (formatted separator case_mode adj_raw noun_raw) →
      loop_post separator case_mode alliteration avoid_duplicates h tries
        (Returns (Some (formatted separator case_mode adj_raw noun_raw,
                        adj_tier, noun_tier), k))
  | loop_overflow :
      weights_overflow h alliteration →
      loop_post separator case_mode alliteration avoid_duplicates h tries
                (Raises OverflowError).

(** The first [n] passes from [h] are all discarded ([continue]). *)
Fixpoint all_discarded (n : nat)
    (nouns_by_letter : gmap pystr (list (pystr * pystr)))
    (separator case_mode : pystr) (alliteration avoid_duplicates : bool)
    (h : Heap) : bool :=
  match n with
  | O => true
  | S n' =>
      match attempt nouns_by_letter separator case_mode
                    alliteration avoid_duplicates h with
      | (Returns Continue, h') =>
          all_discarded n' nouns_by_letter separator case_mode
                        alliteration avoid_duplicates h'
      | _ => false
      end
  end.

End GeneratorSpec.

(** [m] never exhausts a bound on iterations. *)
Definition terminating {A} (m : M A) : Prop :=
  ∀ h, (m h).1 ≠ OutOfFuel.

(** [sep] occurs in [s]. *)
Definition occurs (sep s : pystr) : Prop := ∃ a b, s = a ++ sep ++ b.

(** [a] and [b] are the text before and after the leftmost occurrence of
    [sep] in [s]. *)
Definition first_split (sep s a b : pystr) : Prop :=
  s = a ++ sep ++ b
  ∧ ∀ a' b', s = a' ++ sep ++ b' → (length a ≤ length a')%nat.

(** ** Sample data *)

Definition sample_text : pystr :=
  py " Foo!, foo" ++ newline ++ py ",,bar , O'Neil-x  ,9,FOO" ++ newline.

Definition counting_tape : Rng := {| tape := N.of_nat; cursor := 0 |}.

Definition sample_heap : Heap := {|
  adjectives := {[ py "Common" := [py "Swift"; py "brave"];
                   py "Rare" := [py "Silent"] ]};
  nouns := {[ py "Common" := [py "Fang"; py "bear"; py ""; py "Salmon"];
              py "Rare" := [py "Storm"] ]};
  tier_weights := [(py "Common", 5%Z); (py "Rare", 0%Z)];
  used_names := ∅;
  rng := counting_tape;
|}.

(** An adjective list holding the empty string, as an imported file may. *)
Definition blank_adjective_heap : Heap := {|
  adjectives := {[ py "Common" := [py ""] ]};
  nouns := {[ py "Common" := [py "Fang"] ]};
  tier_weights := [(py "Common", 5%Z)];
  used_names := {[ py " fang" ]};
  rng := counting_tape;
|}.

(** No noun starts with the letter of the only adjective. *)
Definition mismatch_heap : Heap := {|
  adjectives := {[ py "Common" := [py "Swift"] ]};
  nouns := {[ py "Common" := [py "Fang"] ]};
  tier_weights := [(py "Common", 5%Z)];
  used_names := ∅;
  rng := counting_tape;
|}.

(** The only name there is has been produced before. *)
Definition used_up_heap : Heap := {|
  adjectives := {[ py "Common" := [py "Swift"] ]};
  nouns := {[ py "Common" := [py "Fang"] ]};
  tier_weights := [(py "Common", 5%Z)];
  used_names := {[ py "swift fang" ]};
  rng := counting_tape;
|}.

(** The enabled tier has no adjectives. *)
Definition no_adjective_heap : Heap := {|
  adjectives := {[ py "Common" := []; py "Rare" := [py "Silent"] ]};
  nouns := {[ py "Common" := [py "Fang"] ]};
  tier_weights := [(py "Common", 5%Z); (py "Rare", 0%Z)];
  used_names := ∅;
  rng := counting_tape;
|}.

(** The enabled tier has no nouns. *)
Definition no_noun_heap : Heap := {|
  adjectives := {[ py "Common" := [py "Swift"] ]};
  nouns := {[ py "Common" := []; py "Rare" := [py "Storm"] ]};
  tier_weights := [(py "Common", 5%Z); (py "Rare", 0%Z)];
  used_names := ∅;
  rng := counting_tape;
|}.

(** A weight no float holds, with words to pick from. *)
Definition huge_weight_heap : Heap := {|
  adjectives := {[ py "Common" := [py "Swift"] ]};
  nouns := {[ py "Common" := [py "Storm"] ]};
  tier_weights := [(py "Common", 10 ^ 400)%Z];
  used_names := ∅;
  rng := counting_tape;
|}.

(** The same weight, and no noun in the enabled tier. *)
Definition huge_weight_no_noun_heap : Heap := {|
  adjectives := {[ py "Common" := [py "Swift"] ]};
  nouns := {[ py "Common" := [] ]};
  tier_weights := [(py "Common", 10 ^ 400)%Z];
  used_names := ∅;
  rng := counting_tape;
|}.

(** ** Further definitions: the callers and the editor *)

#[global] Instance clean_word_dec (w : pystr) : Decision (clean_word w).
Proof. unfold clean_word, word_chars, trimmed. apply _. Defined.

Definition sample_words : list pystr := [py "Swift"; py "O'Neil"; py "sea-born"].

(** A word without the characters [split_for_display] splits at: space,
    hyphen and underscore. *)
Definition delimiter_free (w : pystr) : Prop :=
  (32 ∉ w) ∧ (45 ∉ w) ∧ (95 ∉ w).

(** A letter, a hyphen or an apostrophe: the characters a word of the
    normalizer is kept for. *)
Definition is_mark (c : codepoint) : bool :=
  is_ascii_letter c || (c =? 45) || (c =? 39).

(** *** The sidebar (lines 506-509) *)

(** [d[k] = v]: the entry of [k] is replaced where it stands, a new key
    goes last. *)
Fixpoint dict_setitem (d : weights_dict) (k : pystr) (v : Z) : weights_dict :=
  match d with
  | [] => [(k, v)]
  | (k', v') :: d' =>
      if bool_decide (k' = k) then (k, v) :: d'
      else (k', v') :: dict_setitem d' k v
  end.

(** [d.get(k, default)] *)
Fixpoint dict_get (d : weights_dict) (k : pystr) (default : Z) : Z :=
  match d with
  | [] => default
  | (k', v) :: d' => if bool_decide (k' = k) then v else dict_get d' k default
  end.

Definition default_weight (t : pystr) : Z :=
  if bool_decide (t = py "Common") then 5
  else if bool_decide (t = py "Rare") then 3 else 1.

(** [st.slider(label, min_value, max_value, value)] returns the position
    of the handle, which the widget keeps between its bounds; [position]
    tells where the user left the handle, given the position [value] it
    has on a first run. *)
Definition st_slider (position : Z → Z) (min_value max_value value : Z) : Z :=
  Z.max min_value (Z.min max_value (position value)).

(** [f"{t} weight"] *)
Definition slider_label (t : pystr) : pystr := t ++ py " weight".

(** The loop of lines 507-509.  [slider t] is the handle of the slider of
    tier [t].  The sliders have no [key] and are told apart by their label:
    creating one with the label of an earlier slider of the run raises
    [StreamlitDuplicateElementId].  [labels] are the labels of the sliders
    created so far. *)
Fixpoint sidebar_sliders (slider : pystr → Z → Z) (labels : list pystr)
    (tier_weights : weights_dict) (tiers : list pystr)
  : outcome weights_dict :=
  match tiers with
  | [] => Returns tier_weights
  | t :: tiers' =>
      let default := default_weight t in
      if bool_decide (slider_label t ∈ labels)
      then Raises StreamlitDuplicateElementId
      else sidebar_sliders slider (slider_label t :: labels)
             (dict_setitem tier_weights t (st_slider (slider t) 0 10 default))
             tiers'
  end.

Definition sidebar_weights (slider : pystr → Z → Z) (tiers : list pystr)
  : outcome weights_dict :=
  sidebar_sliders slider [] [] tiers.

(** The entries of the sidebar's dict for tiers listed once each. *)
Definition slider_weights (slider : pystr → Z → Z) (tiers : list pystr)
  : weights_dict :=
  (λ t, (t, st_slider (slider t) 0 10 (default_weight t))) <$> tiers.

(** A Python list holds at most [sys.maxsize] items, [2^63 - 1] on a
    64-bit machine. *)
Definition list_wf {A} (l : list A) : Prop :=
  (Z.of_nat (length l) ≤ 2 ^ 63 - 1)%Z.

(** *** [do_slot_animation] and the pull button (lines 393-468, 530-552)

    What is drawn on the page and the pauses between frames are left out;
    the draws the animation makes from the random source are kept. *)

Definition ellipsis : pystr := [8230].

Definition spin_messages : list pystr :=
  [ py "Calibrating vibes" ++ ellipsis;
    py "Consulting the Pal Council" ++ ellipsis;
    py "Charging the naming crystals" ++ ellipsis;
    py "Rolling destiny" ++ ellipsis ].

(** The number of frames: [[0.03] * 18 + [0.05] * 14 + [0.08] * 10 +
    [0.12] * 6]. *)
Definition schedule_length : nat := 18 + 14 + 10 + 6.

(** [for x in l: body(x)] *)
Fixpoint for_each {A} (l : list A) (body : A → M unit) : M unit :=
  match l with
  | [] => mret ()
  | x :: l' => _ ← body x; for_each l' body
  end.

(** The loop of lines 408-411: the words of the tiers of [tiers] whose
    weight is positive. *)
Definition enabled_pools (tiers : list pystr) (tier_weights : weights_dict)
    (adjectives nouns : gmap pystr (list pystr)) : list pystr * list pystr :=
  foldl (λ '(enabled_adjs, enabled_nouns) t,
           if (0 <? dict_get tier_weights t 0)%Z
           then (enabled_adjs ++ get_or_empty adjectives t,
                 enabled_nouns ++ get_or_empty nouns t)
           else (enabled_adjs, enabled_nouns))
        ([], []) tiers.

Definition is_empty_list {A} (l : list A) : bool :=
  match l with [] => true | _ => false end.

Section Caller.
Context `{PyCase}.

(** One frame of the animation. *)
Definition spin_frame (enabled_adjs enabled_nouns : list pystr)
    (case_mode : pystr) (i : nat) : M unit :=
  adj_raw ← with_rng (rng_choice enabled_adjs);
  noun_raw ← with_rng (rng_choice enabled_nouns);
  let adj := apply_case adj_raw case_mode in
  let noun := apply_case noun_raw case_mode in
  if bool_decide (i ∈ [8; 22; 34]%nat)
  then _ ← with_rng (rng_choice spin_messages); mret ()
  else mret ().

(** Lines 452-468: what is done with the result of [generate_one_name]. *)
Definition reveal (picked : option name_result) : M (option (pystr * pystr)) :=
  match picked with
  | None => mret None
  | Some (final_name, adj_tier, noun_tier) =>
      '(a, b) ← lift (split_for_display final_name);
      let final_tier := if nonempty adj_tier then adj_tier else noun_tier in
      mret (Some (final_name, final_tier))
  end.

(** [fresh] is the generator [random.Random()] creates. *)
Definition do_slot_animation (fresh : Rng) (tiers : list pystr)
    (separator case_mode : pystr) (alliteration avoid_duplicates : bool)
  : M (option (pystr * pystr)) :=
  _ ← with_rng (λ _, (Returns (), fresh));
  adjectives ← load adjectives;
  nouns ← load nouns;
  tier_weights ← load tier_weights;
  let '(enabled_adjs, enabled_nouns) :=
    enabled_pools tiers tier_weights adjectives nouns in
  if is_empty_list enabled_adjs || is_empty_list enabled_nouns then mret None
  else
    _ ← for_each (seq 0 schedule_length)
                 (spin_frame enabled_adjs enabled_nouns case_mode);
    picked ← generate_one_name separator case_mode
                               alliteration avoid_duplicates;
    reveal picked.

(** What a session keeps between runs of the script. *)
Record Session := {
  last_name : option pystr;
  session_used_names : gset pystr;
  history : list (pystr * pystr * pystr);
}.

Definition history_size : nat := 12.

(** The branch [if pull:] of the script; [now] is the time shown in the
    history.  The result comes with the new value of [last_name] and of the
    history. *)
Definition on_pull (fresh : Rng) (now : pystr) (tiers : list pystr)
    (separator case_mode : pystr) (alliteration avoid_duplicates : bool)
    (last : option pystr) (hist : list (pystr * pystr * pystr))
  : M (option pystr * option pystr * list (pystr * pystr * pystr)) :=
  result ← do_slot_animation fresh tiers separator case_mode
                             alliteration avoid_duplicates;
  match result with
  | None => mret (None, last, hist)
  | Some (final, tier) =>
      _ ← (if avoid_duplicates then used_names_add (str_lower final)
           else mret ());
      let hist := (now, final, tier) :: hist in
      mret (Some final, Some final, take history_size hist)
  end.

(** One run of the script with the button pressed: the word lists as
    loaded, the weights as the sidebar builds them, the settings chosen. *)
Record Request := {
  req_adjectives : gmap pystr (list pystr);
  req_nouns : gmap pystr (list pystr);
  req_tiers : list pystr;
  req_slider : pystr → Z → Z;
  req_separator : pystr;
  req_case_mode : pystr;
  req_alliteration : bool;
  req_avoid_duplicates : bool;
  req_fresh : Rng;
  req_now : pystr;
}.

Definition request_heap (r : Request) (tier_weights : weights_dict)
    (s : Session) : Heap :=
  {| adjectives := req_adjectives r; nouns := req_nouns r;
     tier_weights := tier_weights;
     used_names := session_used_names s; rng := req_fresh r |}.

(** The session after the run, with the name shown if there is one. *)
Definition script_pull (r : Request) (s : Session)
  : outcome (Session * option pystr) :=
  tier_weights ← sidebar_weights (req_slider r) (req_tiers r);
  match on_pull (req_fresh r) (req_now r) (req_tiers r) (req_separator r)
                (req_case_mode r) (req_alliteration r)
                (req_avoid_duplicates r) (last_name s) (history s)
                (request_heap r tier_weights s) with
  | (Returns (shown, last, hist), h') =>
      Returns ({| last_name := last; session_used_names := used_names h';
                  history := hist |}, shown)
  | (Raises e, _) => Raises e
  | (OutOfFuel, _) => OutOfFuel
  end.

(** A sequence of runs with the button pressed; the names shown, oldest
    first.  An exception ends the run it is raised in and no more: the
    session stays, as that run found it (the script writes to the session
    only after [do_slot_animation] has returned), and the next press
    starts a new run. *)
Fixpoint run_session (requests : list Request) (s : Session)
  : outcome (Session * list pystr) :=
  match requests with
  | [] => Returns (s, [])
  | r :: requests' =>
      match script_pull r s with
      | Returns (s', shown) =>
          '(s'', names) ← run_session requests' s';
          Returns (s'', option_list shown ++ names)
      | Raises _ => run_session requests' s
      | OutOfFuel => OutOfFuel
      end
  end.

End Caller.

(** *** Sample requests *)

Definition sample_slider (t : pystr) (default : Z) : Z :=
  if bool_decide (t = py "Epic") then 0%Z else default.

Definition sample_request (seed : nat) (now : string) : Request := {|
  req_adjectives := {[ py "Common" := [py "Swift"; py "brave"];
                       py "Rare" := [py "Silent"] ]};
  req_nouns := {[ py "Common" := [py "Fang"; py "bear"];
                  py "Rare" := [py "Storm"] ]};
  req_tiers := [py "Common"; py "Rare"; py "Epic"];
  req_slider := sample_slider;
  req_separator := py "Space";
  req_case_mode := py "Title Case";
  req_alliteration := false;
  req_avoid_duplicates := true;
  req_fresh := {| tape := λ i, N.of_nat (seed + 3 * i); cursor := 0 |};
  req_now := py now;
|}.

Definition new_session : Session :=
  {| last_name := None; session_used_names := ∅; history := [] |}.

(** A tier list with a repeat, as an imported file may hold. *)
Definition repeated_tier_request (seed : nat) (now : string) : Request :=
  let r := sample_request seed now in
  {| req_adjectives := req_adjectives r; req_nouns := req_nouns r;
     req_tiers := [py "Common"; py "Rare"; py "Common"];
     req_slider := req_slider r;
     req_separator := req_separator r; req_case_mode := req_case_mode r;
     req_alliteration := req_alliteration r;
     req_avoid_duplicates := req_avoid_duplicates r;
     req_fresh := req_fresh r; req_now := req_now r |}.

(** Three presses of the button on good data, and one on a tier list with
    a repeat in between. *)
Definition sample_requests : list Request :=
  [sample_request 1 "10:00:01"; repeated_tier_request 4 "10:00:03";
   sample_request 2 "10:00:05"; sample_request 3 "10:00:09"].

Definition flagged_request (alliteration avoid_duplicates : bool) : Request :=
  let r := sample_request 1 "10:00:01" in
  {| req_adjectives := req_adjectives r; req_nouns := req_nouns r;
     req_tiers := req_tiers r; req_slider := req_slider r;
     req_separator := req_separator r; req_case_mode := req_case_mode r;
     req_alliteration := alliteration;
     req_avoid_duplicates := avoid_duplicates;
     req_fresh := req_fresh r; req_now := req_now r |}.

(** *** The word-list editor (lines 18-26, 573-599, 630-660)

    [data] is the object loaded from the word-list file, with its three
    keys; writing it back to the file ([save_wordlists]) is left out. *)

Record WordData := {
  data_tiers : list pystr;
  data_adjectives : gmap pystr (list pystr);
  data_nouns : gmap pystr (list pystr);
}.

(** The file [ensure_data_file] writes when there is none. *)
Definition default_data : WordData := {|
  data_tiers := [py "Common"; py "Rare"; py "Epic"];
  data_adjectives :=
    {[ py "Common" := []; py "Rare" := []; py "Epic" := [] ]};
  data_nouns := {[ py "Common" := []; py "Rare" := []; py "Epic" := [] ]};
|}.

(** [d.setdefault(k, [])], for its effect on [d] *)
Definition setdefault_empty (d : gmap pystr (list pystr)) (k : pystr)
  : gmap pystr (list pystr) :=
  match d !! k with
  | Some _ => d
  | None => <[k := []]> d
  end.

(** [l.remove(x)]: the first [x] goes; [ValueError] when there is none. *)
Fixpoint list_remove (x : pystr) (l : list pystr) : outcome (list pystr) :=
  match l with
  | [] => Raises ValueError
  | y :: l' =>
      if bool_decide (y = x) then Returns l'
      else l'' ← list_remove x l'; Returns (y :: l'')
  end.

(** The button "Add tier" (lines 634-646). *)
Definition add_tier (new_tier : pystr) (data : WordData) : WordData :=
  let t := strip new_tier in
  if nonempty t && negb (bool_decide (t ∈ data_tiers data)) then
    {| data_tiers := data_tiers data ++ [t];
       data_adjectives := setdefault_empty (data_adjectives data) t;
       data_nouns := setdefault_empty (data_nouns data) t |}
  else data.

(** The button "Remove selected tier" (lines 648-660). *)
Definition remove_tier (remove_tier : pystr) (data : WordData)
  : outcome WordData :=
  if negb (bool_decide (remove_tier = py "(select)")) then
    if bool_decide (remove_tier ∈ data_tiers data) then
      tiers ← list_remove remove_tier (data_tiers data);
      Returns {| data_tiers := tiers;
                 data_adjectives := delete remove_tier (data_adjectives data);
                 data_nouns := delete remove_tier (data_nouns data) |}
    else Returns data
  else Returns data.

(** The text a tier's list is shown as in the editor (lines 578, 586). *)
Definition editor_text (lists : gmap pystr (list pystr)) (edit_tier : pystr)
  : pystr :=
  str_join newline (get_or_empty lists edit_tier).

Section Editor.
Context `{PyCase}.

(** The button "Save tier lists" (lines 593-599). *)
Definition save_tier_lists (edit_tier adj_text noun_text : pystr)
    (data : WordData) : WordData :=
  {| data_tiers := data_tiers data;
     data_adjectives :=
       <[edit_tier := normalize_words adj_text]> (data_adjectives data);
     data_nouns :=
       <[edit_tier := normalize_words noun_text]> (data_nouns data) |}.

(** A list as the normalizer leaves it. *)
Definition clean_list (l : list pystr) : Prop :=
  Forall clean_word l ∧ NoDup (str_lower <$> l).

(** What the editor keeps true of the data. *)
Record data_ok (d : WordData) : Prop := {
  ok_tiers_nodup : NoDup (data_tiers d);
  ok_tier_names : Forall (λ t, t ≠ [] ∧ trimmed t) (data_tiers d);
  ok_adjectives : ∀ t, t ∈ data_tiers d → is_Some (data_adjectives d !! t);
  ok_nouns : ∀ t, t ∈ data_tiers d → is_Some (data_nouns d !! t);
  ok_clean_adjectives : map_Forall (λ _ l, clean_list l) (data_adjectives d);
  ok_clean_nouns : map_Forall (λ _ l, clean_list l) (data_nouns d);
}.

(** The data the three buttons of the editor can lead to, starting from
    the default file. *)
Inductive editor_reachable : WordData → Prop :=
  | reach_default : editor_reachable default_data
  | reach_add new_tier d :
      editor_reachable d → editor_reachable (add_tier new_tier d)
  | reach_remove t d d' :
      editor_reachable d → remove_tier t d = Returns d' → editor_reachable d'
  | reach_save edit_tier adj_text noun_text d :
      editor_reachable d → edit_tier ∈ data_tiers d →
      editor_reachable (save_tier_lists edit_tier adj_text noun_text d).

(** A run of the script on the data as loaded. *)
Definition request_of (d : WordData) (slider : pystr → Z → Z)
    (separator case_mode : pystr) (alliteration avoid_duplicates : bool)
    (fresh : Rng) (now : pystr) : Request :=
  {| req_adjectives := data_adjectives d; req_nouns := data_nouns d;
     req_tiers := data_tiers d; req_slider := slider;
     req_separator := separator; req_case_mode := case_mode;
     req_alliteration := alliteration;
     req_avoid_duplicates := avoid_duplicates;
     req_fresh := fresh; req_now := now |}.

End Editor.

Definition edited_data : WordData :=
  save_tier_lists (py "Mythic") (py "Silent, grim") (py "Storm")
    (add_tier (py "  Mythic ")
       (save_tier_lists (py "Common") (py "Swift, brave,swift") (py "Fang, bear")
          default_data)).
(** ** Properties of the string operations *)

Lemma nonempty_true (s : pystr) : nonempty s = true ↔ s ≠ [].
Proof. destruct s; simpl; split; congruence. Qed.

Lemma nonempty_false (s : pystr) : nonempty s = false ↔ s = [].
Proof. destruct s; simpl; split; congruence. Qed.

Lemma lstrip_idemp (s : pystr) : lstrip (lstrip s) = lstrip s.
Proof.
  induction s as [|c s IH]; simpl; [done|].
  destruct (py_isspace c) eqn:E; [done|]. simpl. by rewrite E.
Qed.

Lemma lstrip_length (s : pystr) : (length (lstrip s) ≤ length s)%nat.
Proof.
  induction s as [|c s IH]; simpl; [lia|].
  destruct (py_isspace c); simpl; lia.
Qed.

Lemma lstrip_suffix (s : pystr) : ∃ sp, s = sp ++ lstrip s.
Proof.
  induction s as [|c s [sp IH]]; simpl; [by exists []|].
  destruct (py_isspace c).
  - exists (c :: sp). simpl. by rewrite <- IH.
  - by exists [].
Qed.

Lemma lstrip_fixed (s : pystr) :
  lstrip s = s ↔ match s with [] => True | c :: _ => py_isspace c = false end.
Proof.
  destruct s as [|c s]; simpl; [done|].
  destruct (py_isspace c) eqn:E; [|done].
  split; [|done]. intros Heq.
  pose proof (lstrip_length s) as Hlen. rewrite Heq in Hlen. simpl in Hlen. lia.
Qed.

Lemma strip_trimmed (s : pystr) : trimmed (strip s).
Proof.
  unfold trimmed, strip, rstrip. split.
  - set (z := lstrip s).
    assert (Hz : lstrip z = z) by apply lstrip_idemp.
    destruct (lstrip_suffix (rev z)) as [sp Hsp].
    assert (Hdec : z = rev (lstrip (rev z)) ++ rev sp).
    { rewrite <- rev_app_distr, <- Hsp. by rewrite rev_involutive. }
    destruct (rev (lstrip (rev z))) as [|c r] eqn:Er; [done|].
    apply lstrip_fixed. rewrite Hdec in Hz.
    by apply (lstrip_fixed ((c :: r) ++ rev sp)) in Hz.
  - by rewrite rev_involutive, lstrip_idemp.
Qed.

Lemma strip_fixed (s : pystr) : trimmed s → strip s = s.
Proof.
  intros [H1 H2]. unfold strip, rstrip. by rewrite H1, H2, rev_involutive.
Qed.

Lemma lstrip_word_chars (s : pystr) : word_chars s → word_chars (lstrip s).
Proof.
  unfold word_chars. induction 1 as [|c s Hc Hs IH]; simpl; [done|].
  destruct (py_isspace c); [done|]. by constructor.
Qed.

Lemma strip_word_chars (s : pystr) : word_chars s → word_chars (strip s).
Proof.
  intros Hs. unfold strip, rstrip.
  apply Forall_rev, lstrip_word_chars, Forall_rev. by apply lstrip_word_chars.
Qed.

Lemma re_sub_word_chars (s : pystr) : word_chars (re_sub_nonword s).
Proof.
  unfold word_chars, re_sub_nonword. apply Forall_forall. intros c Hc.
  apply list_elem_of_In, filter_In in Hc. tauto.
Qed.

Lemma re_sub_fixed (s : pystr) : word_chars s → re_sub_nonword s = s.
Proof.
  unfold word_chars, re_sub_nonword. induction 1 as [|c s Hc Hs IH]; simpl; [done|].
  by rewrite Hc, IH.
Qed.

Lemma clean_piece_clean (p w : pystr) : clean_piece p = Some w → clean_word w.
Proof.
  unfold clean_piece. destruct (nonempty (strip p)); [|done].
  destruct (nonempty _) eqn:E; [|done]. intros [= <-].
  split; [by apply nonempty_true|]. split.
  - apply strip_word_chars, re_sub_word_chars.
  - apply strip_trimmed.
Qed.

Lemma clean_piece_fixed (w : pystr) : clean_word w → clean_piece w = Some w.
Proof.
  intros (Hne & Hch & Htr). unfold clean_piece.
  rewrite (strip_fixed w Htr), (re_sub_fixed w Hch), (strip_fixed w Htr).
  apply nonempty_true in Hne. by rewrite Hne.
Qed.

Lemma collect_step_clean (words : list pystr) (w : pystr) :
  collect_step words w = words ++ option_list (clean_piece w).
Proof.
  unfold collect_step, clean_piece. destruct (nonempty (strip w)); simpl.
  - destruct (nonempty _); simpl; [done|]. by rewrite app_nil_r.
  - by rewrite app_nil_r.
Qed.

Lemma collect_foldl (acc raw : list pystr) :
  foldl collect_step acc raw = acc ++ omap clean_piece raw.
Proof.
  revert acc. induction raw as [|w raw IH]; intros acc; simpl.
  - by rewrite app_nil_r.
  - rewrite IH, collect_step_clean. destruct (clean_piece w); simpl.
    + by rewrite <- app_assoc.
    + by rewrite app_nil_r.
Qed.

(** ** TextNormalizer: the two loops *)

Lemma re_split_each (text : pystr) :
  (∃ p ps ps', re_split_from false text = p :: ps
               ∧ split_each text = p :: ps'
               ∧ filter is_nonempty ps = filter is_nonempty ps')
  ∧ filter is_nonempty (re_split_from true text)
    = filter is_nonempty (split_each text).
Proof.
  induction text as [|c t [(p & ps & ps' & E1 & E2 & E3) IH2]]; simpl.
  - split; [by exists [], [], []|done].
  - destruct (is_delim c).
    + split.
      * by exists [], (re_split_from true t), (split_each t).
      * rewrite IH2. by rewrite (filter_cons_False is_nonempty []) by (by intros ?).
    + rewrite E1, E2. split.
      * by exists (c :: p), ps, ps'.
      * rewrite !(filter_cons_True is_nonempty (c :: p)) by done. by rewrite E3.
Qed.

Lemma clean_piece_empty : clean_piece [] = None.
Proof. reflexivity. Qed.

Lemma omap_clean_nonempty (l : list pystr) :
  omap clean_piece (filter is_nonempty l) = omap clean_piece l.
Proof.
  induction l as [|w l IH]; [done|].
  destruct w as [|c w].
  - rewrite filter_cons_False by (by intros ?). by rewrite IH.
  - rewrite filter_cons_True by done. cbn [omap list_omap]. by rewrite IH.
Qed.

Lemma omap_clean_steps (l : list pystr) :
  omap clean_piece l
  = filter is_nonempty ((λ w, strip (re_sub_nonword w))
                          <$> filter is_nonempty (strip <$> l)).
Proof.
  induction l as [|w l IH]; [done|].
  change (omap clean_piece (w :: l))
    with (match clean_piece w with
          | Some y => y :: omap clean_piece l
          | None => omap clean_piece l
          end).
  rewrite IH, fmap_cons. unfold clean_piece.
  destruct (nonempty (strip w)) eqn:E1.
  - apply nonempty_true in E1. rewrite (filter_cons_True is_nonempty) by done.
    rewrite fmap_cons.
    destruct (nonempty (strip (re_sub_nonword (strip w)))) eqn:E2.
    + apply nonempty_true in E2. by rewrite (filter_cons_True is_nonempty) by done.
    + apply nonempty_false in E2.
      rewrite (filter_cons_False is_nonempty); [done|]. by intros ?.
  - apply nonempty_false in E1.
    rewrite (filter_cons_False is_nonempty); [done|]. by intros ?.
Qed.

Lemma collected_cleaned (text : pystr) :
  foldl collect_step [] (re_split text) = cleaned_pieces text.
Proof.
  rewrite collect_foldl. simpl. unfold cleaned_pieces.
  rewrite <- omap_clean_steps, <- omap_clean_nonempty.
  rewrite <- (omap_clean_nonempty (split_each text)). f_equal.
  destruct (re_split_each text) as [(p & ps & ps' & E1 & E2 & E3) _].
  unfold re_split. rewrite E1, E2.
  destruct p; [rewrite !(filter_cons_False is_nonempty []) by (by intros ?)
              |rewrite !filter_cons_True by done]; by rewrite E3.
Qed.

Lemma cleaned_pieces_clean (text : pystr) :
  Forall clean_word (cleaned_pieces text).
Proof.
  rewrite <- collected_cleaned, collect_foldl. simpl.
  apply Forall_forall. intros w Hw.
  apply list_elem_of_omap in Hw as (p & _ & Hp). by eapply clean_piece_clean.
Qed.

Section NormalizerProofs.
Context `{PyCase}.

Lemma dedupe_foldl (seen : gset pystr) (out words : list pystr) :
  dedupe_from seen out words = out ++ dedupe_list seen words.
Proof.
  unfold dedupe_from. revert seen out.
  induction words as [|w ws IH]; intros seen out; simpl.
  - by rewrite app_nil_r.
  - destruct (decide (str_lower w ∈ seen)); rewrite IH; [done|].
    by rewrite <- app_assoc.
Qed.

Lemma normalize_words_unfold (text : pystr) :
  normalize_words text = dedupe_list ∅ (cleaned_pieces text).
Proof.
  unfold normalize_words. by rewrite dedupe_foldl, collected_cleaned.
Qed.

Lemma dedupe_keep_first (earlier words : list pystr) :
  dedupe_list (list_to_set (str_lower <$> earlier)) words
  = keep_first_after earlier words.
Proof.
  revert earlier. induction words as [|w ws IH]; intros earlier; simpl; [done|].
  assert (Hseen : str_lower w ∈ (list_to_set (str_lower <$> earlier) : gset pystr)
                  ↔ Exists (λ v, same_word v w) earlier).
  { rewrite elem_of_list_to_set, list_elem_of_fmap, Exists_exists.
    unfold same_word. naive_solver. }
  assert (Hnext : ({[str_lower w]} ∪ list_to_set (str_lower <$> earlier) : gset pystr)
                  = list_to_set (str_lower <$> (earlier ++ [w]))).
  { rewrite fmap_app, list_to_set_app_L. simpl. set_solver. }
  destruct (decide (str_lower w ∈ _)) as [Hin|Hin];
    destruct (decide (Exists _ earlier)) as [Hex|Hex]; try tauto.
  - rewrite <- IH. f_equal. rewrite <- Hnext. set_solver.
  - by rewrite <- IH, Hnext.
Qed.

Lemma dedupe_list_elem (seen : gset pystr) (words : list pystr) (w : pystr) :
  w ∈ dedupe_list seen words → w ∈ words ∧ str_lower w ∉ seen.
Proof.
  revert seen. induction words as [|v vs IH]; intros seen; simpl.
  - by intros ?%elem_of_nil.
  - destruct (decide (str_lower v ∈ seen)) as [Hin|Hin].
    + intros [? ?]%IH. split; [by right|done].
    + intros [->|[? ?]%IH]%elem_of_cons; [split; [by left|done]|].
      split; [by right|set_solver].
Qed.

Lemma dedupe_list_NoDup (seen : gset pystr) (words : list pystr) :
  NoDup (str_lower <$> dedupe_list seen words).
Proof.
  revert seen. induction words as [|v vs IH]; intros seen; simpl; [constructor|].
  destruct (decide (str_lower v ∈ seen)); [apply IH|].
  simpl. constructor; [|apply IH].
  intros (u & Hu & Hin)%list_elem_of_fmap.
  apply dedupe_list_elem in Hin as [_ Hnot]. set_solver.
Qed.

Lemma dedupe_list_filter (seen : gset pystr) (words : list pystr) (w : pystr) :
  filter (λ u, same_word u w) (dedupe_list seen words)
  = if decide (str_lower w ∈ seen) then []
    else option_list (head (filter (λ u, same_word u w) words)).
Proof.
  revert seen. induction words as [|v vs IH]; intros seen; simpl.
  - by destruct (decide _).
  - destruct (decide (str_lower v ∈ seen)) as [Hv|Hv].
    + rewrite IH. destruct (decide (str_lower w ∈ seen)) as [Hw|Hw]; [done|].
      rewrite filter_cons_False; [done|].
      unfold same_word. intros Heq. by rewrite Heq in Hv.
    + destruct (decide (same_word v w)) as [Hvw|Hvw].
      * rewrite !filter_cons_True by done. rewrite IH.
        unfold same_word in Hvw.
        rewrite decide_True by set_solver.
        rewrite decide_False by (by rewrite <- Hvw). done.
      * rewrite !filter_cons_False by done. rewrite IH.
        unfold same_word in Hvw.
        destruct (decide (str_lower w ∈ seen)) as [Hw|Hw].
        -- rewrite decide_True by set_solver. done.
        -- rewrite decide_False by set_solver. done.
Qed.

Lemma dedupe_list_fixed (seen : gset pystr) (words : list pystr) :
  NoDup (str_lower <$> words) →
  (∀ w, w ∈ words → str_lower w ∉ seen) →
  dedupe_list seen words = words.
Proof.
  revert seen. induction words as [|v vs IH]; intros seen Hnd Hseen; simpl; [done|].
  rewrite fmap_cons in Hnd. apply NoDup_cons in Hnd as [Hv Hnd].
  rewrite decide_False by (apply Hseen; by left).
  f_equal. apply IH; [done|].
  intros w Hw. specialize (Hseen w (list_elem_of_further _ _ _ Hw)).
  assert (str_lower w ≠ str_lower v).
  { intros Heq. apply Hv. rewrite <- Heq. by apply list_elem_of_fmap_2. }
  set_solver.
Qed.

End NormalizerProofs.

(** *** Splitting the newline-join of cleaned words *)

Lemma word_char_not_delim (c : codepoint) :
  is_word_char c = true → is_delim c = false.
Proof.
  unfold is_delim. intros Hc.
  destruct (c =? 10) eqn:E1; [apply N.eqb_eq in E1; by subst|].
  destruct (c =? 44) eqn:E2; [apply N.eqb_eq in E2; by subst|]. done.
Qed.

Lemma re_split_word (w : pystr) :
  word_chars w → re_split_from false w = [w].
Proof.
  induction 1 as [|c w Hc Hw IH]; simpl; [done|].
  by rewrite (word_char_not_delim c Hc), IH.
Qed.

Lemma re_split_word_newline (w rest : pystr) :
  word_chars w →
  re_split_from false (w ++ newline ++ rest) = w :: re_split_from true rest.
Proof.
  induction 1 as [|c w Hc Hw IH]; [done|].
  rewrite <- app_comm_cons. cbn [re_split_from].
  by rewrite (word_char_not_delim c Hc), IH.
Qed.

Lemma re_split_from_word (b : bool) (c : codepoint) (rest : pystr) :
  is_word_char c = true →
  re_split_from b (c :: rest) = re_split_from false (c :: rest).
Proof. intros Hc. simpl. by rewrite (word_char_not_delim c Hc). Qed.

Lemma str_join_head (w : pystr) (ws : list pystr) :
  clean_word w → ∃ c rest, is_word_char c = true
                           ∧ str_join newline (w :: ws) = c :: rest.
Proof.
  intros (Hne & Hch & _). destruct w as [|c w]; [done|].
  apply Forall_cons in Hch as [Hc _]. destruct ws; simpl; eauto.
Qed.

Lemma re_split_join (ws : list pystr) :
  Forall clean_word ws → ws ≠ [] → re_split (str_join newline ws) = ws.
Proof.
  unfold re_split. induction 1 as [|w ws Hw Hws IH]; [done|]. intros _.
  destruct ws as [|w2 ws].
  - simpl. apply re_split_word, Hw.
  - change (str_join newline (w :: w2 :: ws))
      with (w ++ newline ++ str_join newline (w2 :: ws)).
    rewrite re_split_word_newline by apply Hw. f_equal.
    apply Forall_cons in Hws as [Hw2 Hws].
    destruct (str_join_head w2 ws Hw2) as (c & rest & Hc & Heq).
    rewrite Heq, re_split_from_word by done. rewrite <- Heq. by apply IH.
Qed.

Lemma omap_clean_fixed (ws : list pystr) :
  Forall clean_word ws → omap clean_piece ws = ws.
Proof.
  induction 1 as [|w ws Hw Hws IH]; [done|]. cbn [omap list_omap].
  by rewrite (clean_piece_fixed w Hw), IH.
Qed.

Lemma cleaned_pieces_join (ws : list pystr) :
  Forall clean_word ws → cleaned_pieces (str_join newline ws) = ws.
Proof.
  intros Hws. rewrite <- collected_cleaned, collect_foldl. simpl.
  destruct ws as [|w ws]; [done|].
  rewrite re_split_join by done. by apply omap_clean_fixed.
Qed.

(** ** The random source *)

Lemma rng_choice_elem {A} (seq : list A) (g : Rng) :
  seq ≠ [] →
  ∃ x g', rng_choice seq g = (Returns x, g') ∧ x ∈ seq.
Proof.
  intros Hne. unfold rng_choice, randbelow, rng_next.
  destruct seq as [|a seq]; [done|].
  set (n := length (a :: seq)).
  set (i := N.to_nat (tape g (cursor g) mod N.of_nat n)).
  assert (Hi : (i < n)%nat).
  { unfold i. pose proof (N.mod_upper_bound (tape g (cursor g)) (N.of_nat n)).
    unfold n in *. simpl in *. lia. }
  destruct (lookup_lt_is_Some_2 (a :: seq) i Hi) as [x Hx].
  exists x, {| tape := tape g; cursor := S (cursor g) |}.
  unfold getitem. rewrite Hx. split; [done|]. by eapply list_elem_of_lookup_2.
Qed.

(** Rounding to the nearest float, a tie going to the even neighbour. *)
Example round53_ties :
  round53 (2 ^ 53 + 1) = (2 ^ 53)%Z
  ∧ round53 (2 ^ 53 + 3) = (2 ^ 53 + 4)%Z
  ∧ round53 (float_overflow - 1) = (2 ^ 1024 - 2 ^ 971)%Z
  ∧ round53 12345 = 12345%Z.
Proof. vm_compute. repeat split. Qed.

Lemma accumulate_from_length (acc : Z) (ws : list Z) :
  length (accumulate_from acc ws) = length ws.
Proof. revert acc. induction ws as [|w ws IH]; intros acc; simpl; [done|]. by rewrite IH. Qed.

Lemma accumulate_from_last (acc : Z) (ws : list Z) :
  ws ≠ [] →
  last (accumulate_from acc ws) = Some (acc + foldr Z.add 0 ws)%Z.
Proof.
  revert acc. induction ws as [|w ws IH]; intros acc Hne; [done|].
  destruct ws as [|w' ws].
  - simpl. f_equal. lia.
  - cbn [accumulate_from foldr] in *. rewrite last_cons.
    rewrite (IH (acc + w)%Z) by done. cbn [foldr]. f_equal. lia.
Qed.

Lemma sum_positive (ws : list Z) :
  ws ≠ [] → Forall (λ w, 0 < w)%Z ws → (0 < foldr Z.add 0 ws)%Z.
Proof.
  intros Hne Hpos. induction Hpos as [|w ws Hw Hpos IH]; [done|].
  cbn [foldr]. destruct ws as [|w' ws]; [simpl; lia|].
  specialize (IH ltac:(done)). lia.
Qed.

Lemma bisect_le (a : list Z) (num : Z) (hi : nat) : (bisect a num hi ≤ hi)%nat.
Proof.
  unfold bisect.
  etransitivity; [apply List.filter_length_le|]. rewrite length_take. lia.
Qed.

Lemma rng_choices_elem {A} (population : list A) (weights : list Z) (g : Rng) :
  population ≠ [] → length weights = length population →
  Forall (λ w, 0 < w)%Z weights →
  (foldr Z.add 0 weights < float_overflow)%Z →
  ∃ x g', rng_choices population weights g = (Returns [x], g') ∧ x ∈ population.
Proof.
  intros Hne Hlen Hpos Hrange. unfold rng_choices, accumulate.
  assert (Hws : weights ≠ []) by by destruct weights, population.
  pose proof (sum_positive weights Hws Hpos) as Htotal.
  rewrite accumulate_from_length, Hlen, Nat.eqb_refl. cbn [negb].
  rewrite (accumulate_from_last 0 weights Hws), Z.add_0_l.
  rewrite (proj2 (Z.leb_gt float_overflow _)) by lia.
  rewrite (proj2 (Z.leb_gt _ 0)) by done.
  unfold rng_next. cbv zeta.
  set (i := bisect _ _ _).
  assert (Hi : (i < length population)%nat).
  { pose proof (bisect_le (accumulate_from 0 weights)
      (round53 (Z.of_N (tape g (cursor g) mod random_bits)
                * round53 (foldr Z.add 0%Z weights)))
      (length population - 1)) as Hb.
    fold i in Hb. destruct population; [done|]. simpl in *. lia. }
  destruct (lookup_lt_is_Some_2 population i Hi) as [x Hx].
  exists x, {| tape := tape g; cursor := S (cursor g) |}.
  unfold getitem. rewrite Hx. split; [done|]. by eapply list_elem_of_lookup_2.
Qed.

Lemma rng_choices_overflow {A} (population : list A) (weights : list Z)
    (g : Rng) :
  population ≠ [] → length weights = length population →
  Forall (λ w, 0 < w)%Z weights →
  (float_overflow ≤ foldr Z.add 0 weights)%Z →
  rng_choices population weights g = (Raises OverflowError, g).
Proof.
  intros Hne Hlen Hpos Hrange. unfold rng_choices, accumulate.
  assert (Hws : weights ≠ []) by by destruct weights, population.
  rewrite accumulate_from_length, Hlen, Nat.eqb_refl. cbn [negb].
  rewrite (accumulate_from_last 0 weights Hws), Z.add_0_l.
  by rewrite (proj2 (Z.leb_le float_overflow _)) by lia.
Qed.

(** ** Dictionaries *)

Lemma dict_getitem_elem (d : weights_dict) (k : pystr) (v : Z) :
  dict_wf d → (k, v) ∈ d → dict_getitem d k = Returns v.
Proof.
  unfold dict_wf. induction d as [|[k' v'] d IH]; intros Hwf Hin.
  - by apply elem_of_nil in Hin.
  - rewrite fmap_cons in Hwf. apply NoDup_cons in Hwf as [Hk Hwf]. simpl in *.
    apply elem_of_cons in Hin as [[= -> ->]|Hin].
    + by rewrite bool_decide_eq_true_2.
    + rewrite bool_decide_eq_false_2; [by apply IH|].
      intros ->. apply Hk. by apply (list_elem_of_fmap_2 fst) in Hin.
Qed.

Lemma mapM_dict_getitem (d l : weights_dict) :
  dict_wf d → l ⊆ d → mapM (dict_getitem d) l.*1 = Returns l.*2.
Proof.
  intros Hwf. induction l as [|[k v] l IH]; intros Hsub; [done|].
  cbn [fmap list_fmap mapM fst snd].
  rewrite (dict_getitem_elem d k v) by set_solver.
  cbn [mbind outcome_bind]. rewrite IH by set_solver. done.
Qed.

Lemma is_available_spec (lists : gmap pystr (list pystr)) (t : pystr) (w : Z) :
  is_available lists (t, w) = true ↔ (0 < w)%Z ∧ get_or_empty lists t ≠ [].
Proof.
  unfold is_available. simpl. rewrite andb_true_iff, Z.ltb_lt, Nat.ltb_lt.
  destruct (get_or_empty lists t); simpl; split; intros [? ?]; split; try done; lia.
Qed.

Lemma available_elem (lists : gmap pystr (list pystr)) (d : weights_dict)
    (t : pystr) (w : Z) :
  (t, w) ∈ List.filter (is_available lists) d
  ↔ (t, w) ∈ d ∧ (0 < w)%Z ∧ get_or_empty lists t ≠ [].
Proof.
  rewrite list_elem_of_In, filter_In, <- list_elem_of_In, is_available_spec. tauto.
Qed.

(** ** Code that only advances the random source *)

Lemma set_rng_self (h : Heap) : h = set_rng (rng h) h.
Proof. by destruct h. Qed.

Lemma set_rng_set_rng (g g' : Rng) (h : Heap) :
  set_rng g' (set_rng g h) = set_rng g' h.
Proof. done. Qed.

Lemma rng_only_ret {A} (a : A) : rng_only (mret a).
Proof. intros h. exists (rng h). apply set_rng_self. Qed.

Lemma rng_only_load {A} (field : Heap → A) : rng_only (load field).
Proof. intros h. exists (rng h). apply set_rng_self. Qed.

Lemma rng_only_lift {A} (o : outcome A) : rng_only (lift o).
Proof. intros h. exists (rng h). apply set_rng_self. Qed.

Lemma rng_only_with_rng {A} (f : Rng → outcome A * Rng) : rng_only (with_rng f).
Proof. intros h. unfold with_rng. destruct (f (rng h)) as [o g']. by exists g'. Qed.

Lemma rng_only_bind {A B} (m : M A) (f : A → M B) :
  rng_only m → (∀ a, rng_only (f a)) → rng_only (m ≫= f).
Proof.
  intros Hm Hf h. unfold mbind, M_bind.
  destruct (Hm h) as [g Hg]. destruct (m h) as [[a|e|] h1]; simpl in Hg; subst h1.
  - destruct (Hf a (set_rng g h)) as [g' Hg']. exists g'. by rewrite Hg'.
  - by exists g.
  - by exists g.
Qed.

Ltac frame_step :=
  first [ apply rng_only_bind; [|intros ?]
        | apply rng_only_ret | apply rng_only_load | apply rng_only_lift
        | apply rng_only_with_rng ].

Lemma rng_only_pick (lists : Heap → gmap pystr (list pystr)) :
  rng_only (pick_word_from_tiers lists).
Proof.
  unfold pick_word_from_tiers. repeat frame_step.
  match goal with |- context [match ?l with _ => _ end] => destruct l end;
    repeat frame_step.
Qed.

(** ** WeightedPicker *)

Lemma available_nil (lists : gmap pystr (list pystr)) (d : weights_dict) :
  (List.filter (is_available lists) d).*1 = [] ↔ ¬ ∃ t, eligible lists d t.
Proof.
  split.
  - intros Hnil (t & w & Hin). apply available_elem in Hin.
    apply fmap_nil_inv in Hnil. rewrite Hnil in Hin. by apply elem_of_nil in Hin.
  - intros Hno. destruct (List.filter _ _) as [|[t w] l] eqn:E; [done|].
    exfalso. apply Hno. exists t, w. apply available_elem. rewrite E. by left.
Qed.

Lemma pick_none (lists : Heap → gmap pystr (list pystr)) (h : Heap) :
  (¬ ∃ t, eligible (lists h) (tier_weights h) t) →
  pick_word_from_tiers lists h = (Returns None, h).
Proof.
  intros Hno%available_nil. unfold pick_word_from_tiers, mbind, M_bind, load.
  by rewrite Hno.
Qed.

Lemma within_no_eligible (lists : gmap pystr (list pystr)) (d : weights_dict) :
  (¬ ∃ t, eligible lists d t) → within_float_range lists d.
Proof.
  intros Hno%available_nil%fmap_nil_inv.
  unfold within_float_range, available_total. by rewrite Hno.
Qed.

Lemma within_cases (lists : gmap pystr (list pystr)) (d : weights_dict) :
  within_float_range lists d ∨ ¬ within_float_range lists d.
Proof. unfold within_float_range. lia. Qed.

Lemma pick_overflow (lists : Heap → gmap pystr (list pystr)) (h : Heap) :
  dict_wf (tier_weights h) →
  ¬ within_float_range (lists h) (tier_weights h) →
  pick_word_from_tiers lists h = (Raises OverflowError, h).
Proof.
  intros Hwf Hout.
  unfold within_float_range, available_total in Hout.
  unfold pick_word_from_tiers, mbind, M_bind, load, lift.
  set (avail := List.filter (is_available (lists h)) (tier_weights h)) in *.
  destruct (avail.*1) as [|t0 rest] eqn:Eav.
  { apply fmap_nil_inv in Eav. rewrite Eav in Hout. by destruct Hout. }
  rewrite <- Eav.
  rewrite (mapM_dict_getitem (tier_weights h) avail Hwf).
  2:{ intros [t w] Hin. by apply available_elem in Hin as [? _]. }
  unfold with_rng at 1.
  rewrite (rng_choices_overflow avail.*1 avail.*2 (rng h)).
  - f_equal. symmetry. apply set_rng_self.
  - by rewrite Eav.
  - by rewrite !length_fmap.
  - apply Forall_forall. intros w (tw & -> & Hin)%list_elem_of_fmap.
    destruct tw as [t w]. by apply available_elem in Hin as (_ & ? & _).
  - lia.
Qed.

Lemma pick_some (lists : Heap → gmap pystr (list pystr)) (h : Heap) :
  dict_wf (tier_weights h) →
  within_float_range (lists h) (tier_weights h) →
  (∃ t, eligible (lists h) (tier_weights h) t) →
  ∃ t word g',
    pick_word_from_tiers lists h = (Returns (Some (t, word)), set_rng g' h)
    ∧ eligible (lists h) (tier_weights h) t
    ∧ word ∈ get_or_empty (lists h) t.
Proof.
  intros Hwf Hrange Hex.
  unfold within_float_range, available_total in Hrange.
  unfold pick_word_from_tiers, mbind, M_bind, load, lift.
  set (avail := List.filter (is_available (lists h)) (tier_weights h)) in *.
  assert (Hne : avail.*1 ≠ []).
  { intros Hnil. by apply available_nil in Hnil. }
  destruct (avail.*1) as [|t0 rest] eqn:Eav; [done|]. rewrite <- Eav.
  rewrite (mapM_dict_getitem (tier_weights h) avail Hwf).
  2:{ intros [t w] Hin. by apply available_elem in Hin as [? _]. }
  destruct (rng_choices_elem avail.*1 avail.*2 (rng h)) as (t & g1 & Hch & Ht).
  { by rewrite Eav. }
  { by rewrite !length_fmap. }
  { apply Forall_forall. intros w (tw & -> & Hin)%list_elem_of_fmap.
    destruct tw as [t w]. by apply available_elem in Hin as (_ & ? & _). }
  { done. }
  unfold with_rng at 1. rewrite Hch. cbn [getitem lookup list_lookup].
  apply list_elem_of_fmap in Ht as ([t' w] & -> & Hin). simpl.
  apply available_elem in Hin as (Hin & Hw & Hwords).
  unfold lists_getitem. unfold get_or_empty in Hwords |- *.
  destruct (lists h !! t') as [words|] eqn:El; [|done]. simpl in Hwords.
  destruct (rng_choice_elem words g1 Hwords) as (word & g2 & Hc & Hword).
  unfold with_rng. simpl. rewrite Hc.
  exists t', word, g2. split; [done|]. split; [|by rewrite El].
  exists w. unfold get_or_empty. by rewrite El.
Qed.

(** ** NameGenerator: the precomputed noun index *)

Lemma enabled_nouns_inner (t : pystr) (acc : list (pystr * pystr))
    (l : list pystr) :
  foldl (λ enabled_nouns n, enabled_nouns ++ [(t, n)]) acc l
  = acc ++ (pair t <$> l).
Proof.
  revert acc. induction l as [|n l IH]; intros acc; simpl.
  - by rewrite app_nil_r.
  - by rewrite IH, <- app_assoc.
Qed.

Lemma enabled_nouns_elem (d : weights_dict) (ns : gmap pystr (list pystr))
    (t n : pystr) :
  (t, n) ∈ enabled_nouns_of d ns ↔ enabled_word ns d t n.
Proof.
  unfold enabled_nouns_of, enabled_word.
  assert (Hgen : ∀ acc,
    (t, n) ∈ foldl (λ enabled_nouns '(t, w),
                      if (0 <? w)%Z
                      then foldl (λ enabled_nouns n, enabled_nouns ++ [(t, n)])
                                 enabled_nouns (get_or_empty ns t)
                      else enabled_nouns) acc d
    ↔ (t, n) ∈ acc ∨ ∃ wt, (t, wt) ∈ d ∧ (0 < wt)%Z ∧ n ∈ get_or_empty ns t).
  { induction d as [|[t' w'] d IH]; intros acc; simpl.
    - split; [by left|]. intros [?|(wt & Hin & _)]; [done|].
      by apply elem_of_nil in Hin.
    - rewrite IH. destruct (0 <? w')%Z eqn:Ew.
      + apply Z.ltb_lt in Ew. rewrite enabled_nouns_inner, elem_of_app.
        rewrite list_elem_of_fmap. split.
        * intros [[?|(n' & [= -> ->] & Hn)]|(wt & Hin & Hwt & Hn)].
          -- by left.
          -- right. exists w'. split; [by left|done].
          -- right. exists wt. split; [by right|done].
        * intros [?|(wt & [[= -> ->]|Hin]%elem_of_cons & Hwt & Hn)].
          -- by left; left.
          -- left; right. by exists n.
          -- right. by exists wt.
      + apply Z.ltb_ge in Ew. split.
        * intros [?|(wt & Hin & Hwt & Hn)]; [by left|].
          right. exists wt. split; [by right|done].
        * intros [?|(wt & [[= -> ->]|Hin]%elem_of_cons & Hwt & Hn)].
          -- by left.
          -- lia.
          -- right. by exists wt. }
  rewrite Hgen. split; [|by right]. intros [Hin|?]; [|done].
  by apply elem_of_nil in Hin.
Qed.

Section GeneratorProofs.
Context `{PyCase}.

Lemma index_noun_lookup (d : gmap pystr (list (pystr * pystr)))
    (tn tn' : pystr * pystr) (k : pystr) :
  tn ∈ default [] (index_noun d tn' !! k)
  ↔ tn ∈ default [] (d !! k) ∨ (tn = tn' ∧ first_letter tn.2 = Some k).
Proof.
  unfold index_noun, first_letter. destruct tn' as [t' n']. simpl.
  destruct n' as [|c rest].
  - split; [by left|]. intros [?|[-> ?]]; done.
  - destruct (decide (str_lower [c] = k)) as [<-|Hne].
    + rewrite lookup_insert_eq. simpl. rewrite elem_of_app, list_elem_of_singleton.
      split; intros [?|?]; try (by left).
      * right. by subst.
      * right. tauto.
    + rewrite lookup_insert_ne by done. split; [by left|].
      intros [?|[-> ?]]; [done|]. simpl in *. congruence.
Qed.

Lemma nouns_by_letter_elem (enabled : list (pystr * pystr))
    (tn : pystr * pystr) (k : pystr) :
  tn ∈ default [] (nouns_by_letter_of enabled !! k)
  ↔ tn ∈ enabled ∧ first_letter tn.2 = Some k.
Proof.
  unfold nouns_by_letter_of.
  assert (Hgen : ∀ d,
    tn ∈ default [] (foldl index_noun d enabled !! k)
    ↔ tn ∈ default [] (d !! k) ∨ (tn ∈ enabled ∧ first_letter tn.2 = Some k)).
  { induction enabled as [|tn' enabled IH]; intros d; simpl.
    - split; [by left|]. intros [?|[Hin _]]; [done|]. by apply elem_of_nil in Hin.
    - rewrite IH, index_noun_lookup, elem_of_cons. naive_solver. }
  rewrite Hgen, lookup_empty. simpl. split; [|by right].
  intros [Hin|?]; [|done]. by apply elem_of_nil in Hin.
Qed.

Lemma candidates_elem (h : Heap) (noun_tier noun_raw letter : pystr) :
  (noun_tier, noun_raw)
    ∈ default [] (nouns_by_letter_of
                    (enabled_nouns_of (tier_weights h) (nouns h)) !! letter)
  ↔ enabled_word (nouns h) (tier_weights h) noun_tier noun_raw
    ∧ first_letter noun_raw = Some letter.
Proof. by rewrite nouns_by_letter_elem, enabled_nouns_elem. Qed.

(** ** NameGenerator: one pass through the loop body *)

Lemma eligible_cases (lists : gmap pystr (list pystr)) (d : weights_dict) :
  (∃ t, eligible lists d t) ∨ ¬ (∃ t, eligible lists d t).
Proof.
  destruct (List.filter (is_available lists) d).*1 as [|t l] eqn:E.
  - right. by apply available_nil.
  - left. destruct (List.filter (is_available lists) d) as [|[t' w] l'] eqn:E';
      [done|]. exists t', w. apply available_elem. rewrite E'. by left.
Qed.

Lemma eligible_enabled (lists : gmap pystr (list pystr)) (d : weights_dict)
    (t w : pystr) :
  eligible lists d t → w ∈ get_or_empty lists t → enabled_word lists d t w.
Proof. intros (wt & ? & ? & _) ?. by exists wt. Qed.

Lemma enabled_eligible (lists : gmap pystr (list pystr)) (d : weights_dict)
    (t w : pystr) :
  enabled_word lists d t w → eligible lists d t.
Proof.
  intros (wt & ? & ? & Hin). exists wt. split; [done|]. split; [done|].
  intros Hnil. rewrite Hnil in Hin. by apply elem_of_nil in Hin.
Qed.

Lemma attempt_post_set_rng (separator case_mode : pystr)
    (alliteration avoid_duplicates : bool) (h : Heap) (g : Rng)
    (o : outcome (flow (option name_result))) :
  attempt_post separator case_mode alliteration avoid_duplicates (set_rng g h) o
  → attempt_post separator case_mode alliteration avoid_duplicates h o.
Proof.
  destruct 1.
  - by apply post_no_pair.
  - by eapply post_empty_adjective.
  - by eapply post_no_candidate.
  - by eapply post_duplicate.
  - by eapply post_name.
  - by apply post_overflow.
Qed.

Lemma finish_attempt_spec (separator case_mode : pystr)
    (alliteration avoid_duplicates : bool) (h : Heap)
    (adj_tier adj_raw noun_tier noun_raw : pystr) :
  chosen_pair h alliteration adj_tier adj_raw noun_tier noun_raw →
  ∃ o, finish_attempt separator case_mode avoid_duplicates
                      adj_tier adj_raw noun_tier noun_raw h = (o, h)
       ∧ attempt_post separator case_mode alliteration avoid_duplicates h o.
Proof.
  intros Hpair. unfold finish_attempt, mbind, M_bind, load.
  fold (formatted separator case_mode adj_raw noun_raw).
  destruct avoid_duplicates; simpl.
  - destruct (bool_decide _) eqn:E.
    + apply bool_decide_eq_true in E. eexists. split; [done|].
      by eapply post_duplicate.
    + apply bool_decide_eq_false in E. eexists. split; [done|].
      eapply post_name; [done|]. by intros [_ ?].
  - eexists. split; [done|]. eapply post_name; [done|]. by intros [? _].
Qed.

Lemma attempt_spec (separator case_mode : pystr)
    (alliteration avoid_duplicates : bool) (h : Heap) :
  dict_wf (tier_weights h) →
  ∃ o g',
    attempt (nouns_by_letter_of (enabled_nouns_of (tier_weights h) (nouns h)))
            separator case_mode alliteration avoid_duplicates h
    = (o, set_rng g' h)
    ∧ attempt_post separator case_mode alliteration avoid_duplicates h o.
Proof.
  intros Hwf. unfold attempt. unfold mbind at 1, M_bind at 1.
  destruct (eligible_cases (adjectives h) (tier_weights h)) as [Hadj|Hadj].
  2:{ rewrite (pick_none adjectives h Hadj).
      exists (Returns (Return None)), (rng h). split.
      - unfold mret, M_ret. f_equal. apply set_rng_self.
      - apply post_no_pair. by left. }
  destruct (within_cases (adjectives h) (tier_weights h)) as [Hra|Hra].
  2:{ rewrite (pick_overflow adjectives h Hwf Hra).
      exists (Raises OverflowError), (rng h). split.
      - f_equal. apply set_rng_self.
      - apply post_overflow. by left. }
  destruct (pick_some adjectives h Hwf Hra Hadj)
    as (adj_tier & adj_raw & g1 & -> & Hel & Hword).
  pose proof (eligible_enabled _ _ _ _ Hel Hword) as Hen.
  destruct alliteration.
  - unfold mbind at 1, M_bind at 1, lift, getitem.
    destruct adj_raw as [|c rest]; simpl.
    { exists (Raises IndexError), g1. split; [done|].
      by eapply post_empty_adjective. }
    destruct (default [] _) as [|cand cands] eqn:Ec.
    { exists (Returns Continue), g1. split; [done|].
      eapply post_no_candidate; [done|done|done|].
      intros noun_tier noun_raw Hn Hl.
      assert (Hin : (noun_tier, noun_raw) ∈ default [] (nouns_by_letter_of
                (enabled_nouns_of (tier_weights h) (nouns h)) !! str_lower [c]))
        by by apply candidates_elem.
      rewrite Ec in Hin. by apply elem_of_nil in Hin. }
    destruct (rng_choice_elem (cand :: cands) g1)
      as ([noun_tier noun_raw] & g2 & Hch & Hin); [done|].
    unfold mbind, M_bind, with_rng. cbn [rng set_rng]. rewrite Hch.
    cbv beta iota zeta. rewrite <- Ec in Hin.
    apply candidates_elem in Hin as [Hn Hl].
    destruct (finish_attempt_spec separator case_mode true avoid_duplicates
                (set_rng g2 h) adj_tier (c :: rest) noun_tier noun_raw)
      as (o & Ho & Hpost).
    { split; [done|]. split; [done|]. intros _. by exists (str_lower [c]). }
    exists o, g2. split; [exact Ho|]. by eapply attempt_post_set_rng.
  - unfold mbind at 1, M_bind at 1.
    destruct (eligible_cases (nouns h) (tier_weights h)) as [Hnoun|Hnoun].
    2:{ rewrite (pick_none nouns (set_rng g1 h) Hnoun).
        exists (Returns (Return None)), g1. split; [done|].
        apply post_no_pair. by right. }
    destruct (within_cases (nouns h) (tier_weights h)) as [Hrn|Hrn].
    2:{ rewrite (pick_overflow nouns (set_rng g1 h) Hwf Hrn).
        exists (Raises OverflowError), g1. split; [done|].
        apply post_overflow. by right. }
    destruct (pick_some nouns (set_rng g1 h) Hwf Hrn Hnoun)
      as (noun_tier & noun_raw & g2 & -> & Hel' & Hword').
    pose proof (eligible_enabled _ _ _ _ Hel' Hword') as Hen'.
    destruct (finish_attempt_spec separator case_mode false avoid_duplicates
                (set_rng g2 h) adj_tier adj_raw noun_tier noun_raw)
      as (o & Ho & Hpost).
    { split; [done|]. split; [done|]. by intros ?. }
    exists o, g2. split; [exact Ho|]. by eapply attempt_post_set_rng.
Qed.

(** ** NameGenerator: the retry loop *)

Lemma continue_has_pair (separator case_mode : pystr)
    (alliteration avoid_duplicates : bool) (h : Heap) :
  attempt_post separator case_mode alliteration avoid_duplicates h
               (Returns Continue) →
  ¬ no_eligible_pair h alliteration.
Proof.
  inversion 1 as [| |adj_tier adj_raw letter Hal Hen _ _
                  |adj_tier adj_raw noun_tier noun_raw (Hen & Hen' & _) _| |];
    subst; intros [Hno|[Hal' Hno]].
  - apply Hno. eexists. by eapply enabled_eligible.
  - congruence.
  - apply Hno. eexists. by eapply enabled_eligible.
  - apply Hno. eexists. by eapply enabled_eligible.
Qed.

Lemma loop_post_step (separator case_mode : pystr)
    (alliteration avoid_duplicates : bool) (h : Heap) (g : Rng) (tries : nat)
    (o : outcome (option name_result * nat)) :
  ¬ no_eligible_pair h alliteration →
  loop_post separator case_mode alliteration avoid_duplicates
            (set_rng g h) (S tries) o →
  loop_post separator case_mode alliteration avoid_duplicates h tries o.
Proof.
  intros Hpair. destruct 1 as [? Hno| | |k ? ? ? ? Hk|].
  - done.
  - by apply loop_exhausted.
  - by eapply loop_raised.
  - eapply loop_name; [lia|done|done].
  - by apply loop_overflow.
Qed.

Lemma retry_loop_spec (separator case_mode : pystr)
    (alliteration avoid_duplicates : bool) (fuel tries : nat) (h : Heap) :
  dict_wf (tier_weights h) →
  (tries ≤ max_tries)%nat → (max_tries ≤ tries + fuel)%nat →
  ∃ o g',
    retry_loop fuel
      (nouns_by_letter_of (enabled_nouns_of (tier_weights h) (nouns h)))
      separator case_mode alliteration avoid_duplicates tries h
    = (o, set_rng g' h)
    ∧ loop_post separator case_mode alliteration avoid_duplicates h tries o.
Proof.
  intros Hwf. revert tries h Hwf.
  induction fuel as [|fuel IH]; intros tries h Hwf Hle Hfuel.
  - assert (tries = max_tries) as -> by lia.
    exists (Returns (None, max_tries)), (rng h). split.
    + cbn. f_equal. apply set_rng_self.
    + apply loop_exhausted. lia.
  - cbn [retry_loop]. destruct (bool_decide (tries < max_tries)%nat) eqn:Elt.
    2:{ apply bool_decide_eq_false in Elt.
        assert (tries = max_tries) as -> by lia.
        exists (Returns (None, max_tries)), (rng h). split.
        - cbn. f_equal. apply set_rng_self.
        - apply loop_exhausted. lia. }
    apply bool_decide_eq_true in Elt.
    destruct (attempt_spec separator case_mode alliteration avoid_duplicates
                h Hwf) as (o & g1 & Heq & Hpost).
    unfold mbind, M_bind. rewrite Heq.
    pose proof (continue_has_pair separator case_mode alliteration
                  avoid_duplicates h) as Hcont.
    destruct Hpost.
    + exists (Returns (None, S tries)), g1. split; [done|]. by apply loop_failed.
    + exists (Raises IndexError), g1. split; [done|]. by eapply loop_raised.
    + destruct (IH (S tries) (set_rng g1 h)) as (o' & g2 & Heq' & Hpost');
        [done|lia|lia|].
      exists o', g2. split; [exact Heq'|].
      eapply loop_post_step; [|done]. apply Hcont. by eapply post_no_candidate.
    + destruct (IH (S tries) (set_rng g1 h)) as (o' & g2 & Heq' & Hpost');
        [done|lia|lia|].
      exists o', g2. split; [exact Heq'|].
      eapply loop_post_step; [|done]. apply Hcont. by eapply post_duplicate.
    + eexists _, g1. split; [done|]. eapply loop_name; [lia|done|done].
    + exists (Raises OverflowError), g1. split; [done|]. by apply loop_overflow.
Qed.

Lemma generate_counting_spec (separator case_mode : pystr)
    (alliteration avoid_duplicates : bool) (h : Heap) :
  dict_wf (tier_weights h) →
  ∃ o g',
    generate_counting max_tries separator case_mode
                      alliteration avoid_duplicates h
    = (o, set_rng g' h)
    ∧ loop_post separator case_mode alliteration avoid_duplicates h 0 o.
Proof.
  intros Hwf. unfold generate_counting, mbind, M_bind, load.
  apply retry_loop_spec; [done|lia|unfold max_tries; lia].
Qed.

Lemma generate_one_name_counting (separator case_mode : pystr)
    (alliteration avoid_duplicates : bool) (h : Heap) :
  generate_one_name separator case_mode alliteration avoid_duplicates h
  = match generate_counting max_tries separator case_mode
                            alliteration avoid_duplicates h with
    | (Returns r, h') => (Returns r.1, h')
    | (Raises e, h') => (Raises e, h')
    | (OutOfFuel, h') => (OutOfFuel, h')
    end.
Proof. reflexivity. Qed.

End GeneratorProofs.

(** ** What [generate_one_name] leaves unchanged, and that it ends *)

Lemma terminating_ret {A} (a : A) : terminating (mret a).
Proof. by intros h. Qed.

Lemma terminating_load {A} (field : Heap → A) : terminating (load field).
Proof. by intros h. Qed.

Lemma terminating_lift {A} (o : outcome A) :
  o ≠ OutOfFuel → terminating (lift o).
Proof. by intros Ho h. Qed.

Lemma terminating_with_rng {A} (f : Rng → outcome A * Rng) :
  (∀ g, (f g).1 ≠ OutOfFuel) → terminating (with_rng f).
Proof.
  intros Hf h. unfold with_rng. specialize (Hf (rng h)).
  by destruct (f (rng h)).
Qed.

Lemma terminating_bind {A B} (m : M A) (f : A → M B) :
  terminating m → (∀ a, terminating (f a)) → terminating (m ≫= f).
Proof.
  intros Hm Hf h. unfold mbind, M_bind. specialize (Hm h).
  destruct (m h) as [[a|e|] h1]; simpl in *; [apply Hf|done|done].
Qed.

Lemma getitem_ends {A} (seq : list A) (i : nat) : getitem seq i ≠ OutOfFuel.
Proof. unfold getitem. by destruct (seq !! i). Qed.

Lemma lists_getitem_ends (lists : gmap pystr (list pystr)) (t : pystr) :
  lists_getitem lists t ≠ OutOfFuel.
Proof. unfold lists_getitem. by destruct (lists !! t). Qed.

Lemma dict_getitem_ends (d : weights_dict) (k : pystr) :
  dict_getitem d k ≠ OutOfFuel.
Proof.
  induction d as [|[k' v] d IH]; simpl; [done|]. by destruct (bool_decide _).
Qed.

Lemma mapM_dict_getitem_ends (d : weights_dict) (l : list pystr) :
  mapM (dict_getitem d) l ≠ OutOfFuel.
Proof.
  induction l as [|k l IH]; [done|]. cbn [mapM].
  pose proof (dict_getitem_ends d k).
  destruct (dict_getitem d k); [|done|done]. cbn [mbind outcome_bind].
  by destruct (mapM (dict_getitem d) l).
Qed.

Lemma rng_choice_ends {A} (seq : list A) (g : Rng) :
  (rng_choice seq g).1 ≠ OutOfFuel.
Proof. unfold rng_choice. destruct seq; [done|]. apply getitem_ends. Qed.

Lemma rng_choices_ends {A} (population : list A) (weights : list Z) (g : Rng) :
  (rng_choices population weights g).1 ≠ OutOfFuel.
Proof.
  unfold rng_choices. destruct (negb _); [done|].
  destruct (last _); [|done]. destruct (_ <=? _)%Z; [done|].
  destruct (_ <=? _)%Z; [done|]. simpl.
  pose proof (getitem_ends population
    (bisect (accumulate weights)
       (round53 (Z.of_N (tape g (cursor g) `mod` random_bits) * round53 z))
       (length population - 1))) as Hg.
  by destruct (getitem population _).
Qed.

Ltac ends_step :=
  first [ apply terminating_bind; [|intros ?]
        | apply terminating_ret | apply terminating_load
        | apply terminating_lift;
            first [ apply getitem_ends | apply lists_getitem_ends
                  | apply mapM_dict_getitem_ends ]
        | apply terminating_with_rng; intros ?;
            first [ apply rng_choice_ends | apply rng_choices_ends ] ].

Lemma terminating_pick (lists : Heap → gmap pystr (list pystr)) :
  terminating (pick_word_from_tiers lists).
Proof.
  unfold pick_word_from_tiers. repeat ends_step.
  match goal with |- context [match ?l with _ => _ end] => destruct l end;
    repeat ends_step.
Qed.

Section FrameProofs.
Context `{PyCase}.

Lemma rng_only_finish (separator case_mode : pystr) (avoid_duplicates : bool)
    (adj_tier adj_raw noun_tier noun_raw : pystr) :
  rng_only (finish_attempt separator case_mode avoid_duplicates
                           adj_tier adj_raw noun_tier noun_raw).
Proof. unfold finish_attempt. repeat frame_step. destruct (_ && _); frame_step. Qed.

Lemma terminating_finish (separator case_mode : pystr)
    (avoid_duplicates : bool) (adj_tier adj_raw noun_tier noun_raw : pystr) :
  terminating (finish_attempt separator case_mode avoid_duplicates
                              adj_tier adj_raw noun_tier noun_raw).
Proof. unfold finish_attempt. repeat ends_step. destruct (_ && _); ends_step. Qed.

Lemma rng_only_attempt (nouns_by_letter : gmap pystr (list (pystr * pystr)))
    (separator case_mode : pystr) (alliteration avoid_duplicates : bool) :
  rng_only (attempt nouns_by_letter separator case_mode
                    alliteration avoid_duplicates).
Proof.
  unfold attempt. apply rng_only_bind; [apply rng_only_pick|].
  intros [[adj_tier adj_raw]|]; [|frame_step].
  destruct alliteration.
  - apply rng_only_bind; [frame_step|]. intros c. cbv zeta.
    destruct (default [] _); [frame_step|].
    apply rng_only_bind; [frame_step|]. intros [noun_tier noun_raw].
    apply rng_only_finish.
  - apply rng_only_bind; [apply rng_only_pick|].
    intros [[noun_tier noun_raw]|]; [apply rng_only_finish|frame_step].
Qed.

Lemma terminating_attempt (nouns_by_letter : gmap pystr (list (pystr * pystr)))
    (separator case_mode : pystr) (alliteration avoid_duplicates : bool) :
  terminating (attempt nouns_by_letter separator case_mode
                       alliteration avoid_duplicates).
Proof.
  unfold attempt. apply terminating_bind; [apply terminating_pick|].
  intros [[adj_tier adj_raw]|]; [|ends_step].
  destruct alliteration.
  - apply terminating_bind; [ends_step|]. intros c. cbv zeta.
    destruct (default [] _); [ends_step|].
    apply terminating_bind; [ends_step|]. intros [noun_tier noun_raw].
    apply terminating_finish.
  - apply terminating_bind; [apply terminating_pick|].
    intros [[noun_tier noun_raw]|]; [apply terminating_finish|ends_step].
Qed.

Lemma rng_only_retry_loop (fuel : nat)
    (nouns_by_letter : gmap pystr (list (pystr * pystr)))
    (separator case_mode : pystr) (alliteration avoid_duplicates : bool)
    (tries : nat) :
  rng_only (retry_loop fuel nouns_by_letter separator case_mode
                       alliteration avoid_duplicates tries).
Proof.
  revert tries. induction fuel as [|fuel IH]; intros tries; cbn [retry_loop];
    destruct (bool_decide _); try frame_step.
  - apply rng_only_attempt.
  - destruct a; [frame_step|apply IH].
Qed.

Lemma rng_only_generate_counting (fuel : nat) (separator case_mode : pystr)
    (alliteration avoid_duplicates : bool) :
  rng_only (generate_counting fuel separator case_mode
                              alliteration avoid_duplicates).
Proof.
  unfold generate_counting. repeat frame_step. apply rng_only_retry_loop.
Qed.

Lemma rng_only_generate (separator case_mode : pystr)
    (alliteration avoid_duplicates : bool) :
  rng_only (generate_one_name separator case_mode
                              alliteration avoid_duplicates).
Proof.
  unfold generate_one_name. frame_step; [apply rng_only_generate_counting|].
  frame_step.
Qed.

(** With enough fuel for the passes that remain, the loop ends, and the
    count of passes it returns stays within the bound. *)
Lemma retry_loop_bound (fuel : nat)
    (nouns_by_letter : gmap pystr (list (pystr * pystr)))
    (separator case_mode : pystr) (alliteration avoid_duplicates : bool)
    (tries : nat) (h : Heap) :
  (tries ≤ max_tries)%nat → (max_tries ≤ tries + fuel)%nat →
  match (retry_loop fuel nouns_by_letter separator case_mode
                    alliteration avoid_duplicates tries h).1 with
  | Returns (_, k) => (tries ≤ k ≤ max_tries)%nat
  | Raises _ => True
  | OutOfFuel => False
  end.
Proof.
  revert tries h. induction fuel as [|fuel IH]; intros tries h Hle Hfuel;
    cbn [retry_loop]; destruct (bool_decide (tries < max_tries)%nat) eqn:Elt;
    try (apply bool_decide_eq_false in Elt; simpl; lia).
  - apply bool_decide_eq_true in Elt. lia.
  - apply bool_decide_eq_true in Elt. unfold mbind, M_bind.
    pose proof (terminating_attempt nouns_by_letter separator case_mode
                  alliteration avoid_duplicates h) as Hend.
    destruct (attempt _ _ _ _ _ h) as [[[r|]|e|] h1]; simpl in Hend |- *;
      [lia| |done|done].
    specialize (IH (S tries) h1 ltac:(lia) ltac:(lia)).
    destruct (retry_loop _ _ _ _ _ _ _ h1) as [[[r k]|e|] h2]; simpl in *;
      [lia|done|done].
Qed.

End FrameProofs.

(** * The claims *)

(** ** TextNormalizer *)

Section NormalizerClaims.
Context `{PyCase}.

Lemma word_chars_ascii (w : pystr) : word_chars w → all_ascii w.
Proof.
  unfold word_chars, all_ascii. intros Hw.
  eapply Forall_impl; [exact Hw|]. simpl. intros c Hc.
  unfold is_word_char, is_ascii_letter, is_ascii_upper, is_ascii_lower,
    in_range, is_ascii in *.
  repeat match goal with
         | H : (_ || _) = true |- _ => apply orb_true_iff in H as [H|H]
         | H : (_ && _) = true |- _ => apply andb_true_iff in H as [? ?]
         end;
    rewrite ?N.leb_le, ?N.eqb_eq in *; apply N.ltb_lt; lia.
Qed.

(** On cleaned words "the same up to case" is equality of the ASCII
    lower-casings. *)
Lemma same_word_ascii (v w : pystr) :
  clean_word v → clean_word w →
  same_word v w ↔ ascii_lower v = ascii_lower w.
Proof.
  intros (_ & Hv & _) (_ & Hw & _). unfold same_word.
  by rewrite !str_lower_ascii by by apply word_chars_ascii.
Qed.

Lemma normalize_words_clean (text : pystr) :
  Forall clean_word (normalize_words text).
Proof.
  rewrite normalize_words_unfold. apply Forall_forall. intros w Hw.
  apply dedupe_list_elem in Hw as [Hw _].
  pose proof (cleaned_pieces_clean text) as Hall.
  by eapply Forall_forall in Hall.
Qed.

(** C5. [normalize_words] does what the specification of [normalize] says:
    it is the split at newlines and commas, trimmed, stripped of every
    character outside letters, space, hyphen and apostrophe, trimmed again,
    without the pieces left empty, keeping of the words that are the same up
    to case the first one.  Every word of the result is non-empty and made of
    allowed characters only, no two are the same up to case, and every
    cleaned word of the input is represented by exactly one word of the
    result, namely its first occurrence with its casing. *)
Theorem normalize_words_spec (text : pystr) :
  normalize_words text = spec_normalize text
  ∧ Forall clean_word (normalize_words text)
  ∧ NoDup (ascii_lower <$> normalize_words text)
  ∧ ∀ w, w ∈ cleaned_pieces text →
      ∃ v, filter (λ u, same_word u w) (normalize_words text) = [v]
           ∧ head (filter (λ u, same_word u w) (cleaned_pieces text)) = Some v.
Proof.
  split; [|split; [|split]].
  - rewrite normalize_words_unfold. unfold spec_normalize.
    by rewrite <- dedupe_keep_first.
  - apply normalize_words_clean.
  - assert (Heq : ascii_lower <$> normalize_words text
                  = str_lower <$> normalize_words text).
    { apply list_fmap_ext. intros i w Hw. symmetry. apply str_lower_ascii.
      pose proof (normalize_words_clean text) as Hall.
      eapply Forall_forall in Hall; [|by eapply list_elem_of_lookup_2].
      apply word_chars_ascii, Hall. }
    rewrite Heq, normalize_words_unfold. apply dedupe_list_NoDup.
  - intros w Hw. rewrite normalize_words_unfold, dedupe_list_filter.
    rewrite decide_False by set_solver.
    destruct (filter (λ u, same_word u w) (cleaned_pieces text)) as [|v l] eqn:E.
    + exfalso. eapply (filter_nil_not_elem_of _ _ w E); done.
    + by exists v.
Qed.

(** C6. Normalising the newline-join of a normalised list gives the list
    back: [normalize_words] is idempotent. *)
Theorem normalize_words_idempotent (text : pystr) :
  normalize_words (str_join newline (normalize_words text))
  = normalize_words text.
Proof.
  pose proof (normalize_words_clean text) as Hclean.
  rewrite (normalize_words_unfold (str_join _ _)).
  rewrite cleaned_pieces_join by done.
  apply dedupe_list_fixed; [|set_solver].
  rewrite normalize_words_unfold. apply dedupe_list_NoDup.
Qed.

End NormalizerClaims.

Lemma normalize_words_spec_witness :
  py "FOO" ∈ cleaned_pieces sample_text
  ∧ ∃ v, filter (λ u, same_word u (py "FOO")) (normalize_words sample_text) = [v]
         ∧ head (filter (λ u, same_word u (py "FOO"))
                        (cleaned_pieces sample_text)) = Some v.
Proof.
  assert (Hin : py "FOO" ∈ cleaned_pieces sample_text).
  { apply list_elem_of_In. vm_compute. tauto. }
  split; [exact Hin|].
  exact (proj2 (proj2 (proj2 (normalize_words_spec sample_text))) _ Hin).
Defined.

Example normalize_words_sample :
  normalize_words sample_text = [py "Foo"; py "bar"; py "O'Neil-x"].
Proof. vm_compute. reflexivity. Qed.

(** ** Formatter *)

(** C7. [apply_case] applies the transform of the three known modes and
    leaves the word as it is for any other mode; [join_name] puts a space, a
    hyphen, an underscore or [" of "] between the words for the four known
    separators and a space for any other.  Both are functions of their
    arguments alone. *)
Theorem formatter_spec `{PyCase} (s mode adj noun separator : pystr) :
  apply_case s (py "Title Case") = str_title s
  ∧ apply_case s (py "UPPER") = str_upper s
  ∧ apply_case s (py "lower") = str_lower s
  ∧ (mode ∉ [py "Title Case"; py "UPPER"; py "lower"] → apply_case s mode = s)
  ∧ join_name adj noun (py "Space") = adj ++ py " " ++ noun
  ∧ join_name adj noun (py "Hyphen") = adj ++ py "-" ++ noun
  ∧ join_name adj noun (py "Underscore") = adj ++ py "_" ++ noun
  ∧ join_name adj noun (py "of") = adj ++ py " of " ++ noun
  ∧ (separator ∉ [py "Space"; py "Hyphen"; py "Underscore"; py "of"] →
     join_name adj noun separator = adj ++ py " " ++ noun).
Proof.
  repeat split; try reflexivity.
  - intros Hmode. unfold apply_case.
    rewrite !bool_decide_eq_false_2; [done|set_solver..].
  - intros Hsep. unfold join_name.
    rewrite !bool_decide_eq_false_2; [done|set_solver..].
Qed.

Lemma formatter_spec_witness :
  (py "Sentence" ∉ [py "Title Case"; py "UPPER"; py "lower"])
  ∧ (py "Slash" ∉ [py "Space"; py "Hyphen"; py "Underscore"; py "of"])
  ∧ apply_case (py "fire panther") (py "Sentence") = py "fire panther"
  ∧ join_name (py "Shadow") (py "Fang") (py "Slash") = py "Shadow Fang".
Proof.
  assert (Hmode : py "Sentence" ∉ [py "Title Case"; py "UPPER"; py "lower"]).
  { rewrite !not_elem_of_cons. repeat split; try (by vm_compute).
    apply not_elem_of_nil. }
  assert (Hsep : py "Slash" ∉ [py "Space"; py "Hyphen"; py "Underscore"; py "of"]).
  { rewrite !not_elem_of_cons. repeat split; try (by vm_compute).
    apply not_elem_of_nil. }
  pose proof (formatter_spec (py "fire panther") (py "Sentence")
                (py "Shadow") (py "Fang") (py "Slash")) as Hspec.
  split; [exact Hmode|]. split; [exact Hsep|]. split.
  - exact (proj1 (proj2 (proj2 (proj2 Hspec))) Hmode).
  - exact (proj2 (proj2 (proj2 (proj2 (proj2 (proj2 (proj2 (proj2 Hspec)))))))
             Hsep).
Defined.

(** The concrete cases of the specification. *)
Example join_hyphen :
  join_name (py "Shadow") (py "Fang") (py "Hyphen") = py "Shadow-Fang".
Proof. reflexivity. Qed.

Example join_of_title :
  join_name (apply_case (py "shadow") (py "Title Case"))
            (apply_case (py "fang") (py "Title Case")) (py "of")
  = py "Shadow of Fang".
Proof. reflexivity. Qed.

Example apply_case_upper :
  apply_case (py "fire panther") (py "UPPER") = py "FIRE PANTHER".
Proof. reflexivity. Qed.

(** *** Splitting a name for display *)

Lemma strip_prefix_spec (p s rest : pystr) :
  strip_prefix p s = Some rest ↔ s = p ++ rest.
Proof.
  revert s. induction p as [|a p IH]; intros s; simpl.
  - split; [by intros [= ->]|by intros ->].
  - destruct s as [|b s]; [done|].
    destruct (a =? b) eqn:E.
    + apply N.eqb_eq in E as ->. rewrite IH. split; [by intros ->|by intros [= ->]].
    + apply N.eqb_neq in E. split; [done|]. intros [= ? ?]. congruence.
Qed.

Lemma strip_prefix_none (p s : pystr) :
  strip_prefix p s = None ↔ ∀ rest, s ≠ p ++ rest.
Proof.
  split.
  - intros Hnone rest Heq%strip_prefix_spec. congruence.
  - intros Hno. destruct (strip_prefix p s) as [rest|] eqn:E; [|done].
    apply strip_prefix_spec in E. by apply Hno in E.
Qed.

Lemma str_partition_some (sep s a b : pystr) :
  str_partition sep s = Some (a, b) → first_split sep s a b.
Proof.
  revert a b. induction s as [|c s IH]; intros a b; simpl.
  - destruct (strip_prefix sep []) as [rest|] eqn:E; [|done].
    intros [= <- <-]. apply strip_prefix_spec in E.
    split; [done|]. intros; simpl; lia.
  - destruct (strip_prefix sep (c :: s)) as [rest|] eqn:E.
    + intros [= <- <-]. apply strip_prefix_spec in E.
      split; [done|]. intros; simpl; lia.
    + destruct (str_partition sep s) as [[a0 b0]|]; [|done].
      simpl. intros [= <- <-]. destruct (IH a0 b0 eq_refl) as [Heq Hmin].
      split; [by rewrite Heq|].
      intros a' b' Heq'. destruct a' as [|c' a'].
      * exfalso. by eapply strip_prefix_none in E.
      * simpl in Heq'. injection Heq' as -> Heq'. simpl.
        specialize (Hmin a' b' Heq'). lia.
Qed.

Lemma str_partition_none (sep s : pystr) :
  str_partition sep s = None → ¬ occurs sep s.
Proof.
  induction s as [|c s IH]; simpl.
  - destruct (strip_prefix sep []) as [rest|] eqn:E; [done|].
    intros _ (a & b & Heq). destruct a; [|done].
    by eapply strip_prefix_none in E.
  - destruct (strip_prefix sep (c :: s)) as [rest|] eqn:E; [done|].
    destruct (str_partition sep s) as [[a0 b0]|]; [done|].
    intros _ (a & b & Heq). destruct a as [|c' a].
    + by eapply strip_prefix_none in E.
    + simpl in Heq. injection Heq as -> Heq. apply IH; [done|]. by exists a, b.
Qed.

Lemma str_contains_true (sep s : pystr) :
  str_contains sep s = true →
  ∃ a b, str_split1 sep s = [a; b] ∧ first_split sep s a b.
Proof.
  unfold str_contains, str_split1. intros [[a b] E]%bool_decide_eq_true.
  rewrite E. exists a, b. split; [done|]. by apply str_partition_some.
Qed.

Lemma str_contains_false (sep s : pystr) :
  str_contains sep s = false → str_split1 sep s = [s] ∧ ¬ occurs sep s.
Proof.
  unfold str_contains, str_split1. intros E%bool_decide_eq_false.
  destruct (str_partition sep s) as [p|] eqn:Ep; [by destruct E|].
  split; [done|]. by apply str_partition_none.
Qed.

Lemma first_split_occurs (sep s a b : pystr) :
  first_split sep s a b → occurs sep s.
Proof. intros [Heq _]. by exists a, b. Qed.

(** C8. [split_for_display] always returns a pair.  It splits once at the
    leftmost [" of "] when there is one; otherwise at the leftmost hyphen;
    otherwise at the leftmost underscore; otherwise at the leftmost space;
    and when the name has none of them the left part is the whole name and
    the right part is empty. *)
Theorem split_for_display_spec (final_name : pystr) :
  ∃ left right,
    split_for_display final_name = Returns (left, right)
    ∧ (occurs (py " of ") final_name →
       first_split (py " of ") final_name left right)
    ∧ (¬ occurs (py " of ") final_name → occurs (py "-") final_name →
       first_split (py "-") final_name left right)
    ∧ (¬ occurs (py " of ") final_name → ¬ occurs (py "-") final_name →
       occurs (py "_") final_name →
       first_split (py "_") final_name left right)
    ∧ (¬ occurs (py " of ") final_name → ¬ occurs (py "-") final_name →
       ¬ occurs (py "_") final_name → occurs (py " ") final_name →
       first_split (py " ") final_name left right)
    ∧ (¬ occurs (py " of ") final_name → ¬ occurs (py "-") final_name →
       ¬ occurs (py "_") final_name → ¬ occurs (py " ") final_name →
       left = final_name ∧ right = []).
Proof.
  unfold split_for_display.
  destruct (str_contains (py " of ") final_name) eqn:E1.
  { apply str_contains_true in E1 as (a & b & -> & Hsplit).
    pose proof (first_split_occurs _ _ _ _ Hsplit). exists a, b.
    split; [done|]. repeat (split; [intros; tauto|]). intros; tauto. }
  apply str_contains_false in E1 as [_ Hno1].
  destruct (str_contains (py "-") final_name) eqn:E2.
  { apply str_contains_true in E2 as (a & b & -> & Hsplit).
    pose proof (first_split_occurs _ _ _ _ Hsplit). exists a, b.
    split; [done|]. repeat (split; [intros; tauto|]). intros; tauto. }
  apply str_contains_false in E2 as [_ Hno2].
  destruct (str_contains (py "_") final_name) eqn:E3.
  { apply str_contains_true in E3 as (a & b & -> & Hsplit).
    pose proof (first_split_occurs _ _ _ _ Hsplit). exists a, b.
    split; [done|]. repeat (split; [intros; tauto|]). intros; tauto. }
  apply str_contains_false in E3 as [_ Hno3].
  destruct (str_contains (py " ") final_name) eqn:E4.
  { apply str_contains_true in E4 as (a & b & -> & Hsplit).
    pose proof (first_split_occurs _ _ _ _ Hsplit). exists a, b.
    split; [done|]. repeat (split; [intros; tauto|]). intros; tauto. }
  apply str_contains_false in E4 as [-> Hno4].
  exists final_name, []. split; [done|]. repeat (split; [intros; tauto|]). intros; tauto.
Qed.

Lemma split_for_display_spec_witness :
  ¬ occurs (py " of ") (py "Shadow-Fang of_x")
  ∧ occurs (py "-") (py "Shadow-Fang of_x")
  ∧ ∃ left right,
      split_for_display (py "Shadow-Fang of_x") = Returns (left, right)
      ∧ first_split (py "-") (py "Shadow-Fang of_x") left right.
Proof.
  assert (Hno : ¬ occurs (py " of ") (py "Shadow-Fang of_x")).
  { apply str_partition_none. reflexivity. }
  assert (Hyes : occurs (py "-") (py "Shadow-Fang of_x")).
  { by exists (py "Shadow"), (py "Fang of_x"). }
  split; [exact Hno|]. split; [exact Hyes|].
  destruct (split_for_display_spec (py "Shadow-Fang of_x"))
    as (left & right & Heq & _ & Hhyphen & _).
  exists left, right. split; [exact Heq|]. exact (Hhyphen Hno Hyes).
Defined.

Example split_for_display_of :
  split_for_display (py "King-Fu of the_Hill")
  = Returns (py "King-Fu", py "the_Hill").
Proof. reflexivity. Qed.

Example split_for_display_plain :
  split_for_display (py "Fang") = Returns (py "Fang", []).
Proof. reflexivity. Qed.

(** ** WeightedPicker *)

Lemma dict_wf_functional (d : weights_dict) (k : pystr) (v v' : Z) :
  dict_wf d → (k, v) ∈ d → (k, v') ∈ d → v = v'.
Proof.
  intros Hwf Hv Hv'.
  pose proof (dict_getitem_elem d k v Hwf Hv) as E.
  rewrite (dict_getitem_elem d k v' Hwf Hv') in E. congruence.
Qed.

(** C1. Whatever the word lists, the weights and the random draws are,
    [pick_word_from_tiers] returns [None] exactly when no tier has both a
    positive weight and a non-empty word list; a pair it returns is a tier
    of positive weight and a word of that tier's list, so a tier of weight 0
    is never the tier returned.  The call returns when the weights of the
    tiers it draws from sum to a value within the range of a float, and
    raises [OverflowError] (in [rng.choices]) when they do not. *)
Theorem pick_word_from_tiers_spec
    (lists : Heap → gmap pystr (list pystr)) (h : Heap) :
  dict_wf (tier_weights h) →
  ((pick_word_from_tiers lists h).1 = Returns None
   ↔ ¬ ∃ t w, (t, w) ∈ tier_weights h ∧ (0 < w)%Z
              ∧ get_or_empty (lists h) t ≠ [])
  ∧ (∀ t word,
       (pick_word_from_tiers lists h).1 = Returns (Some (t, word)) →
       (∃ w, (t, w) ∈ tier_weights h ∧ (0 < w)%Z)
       ∧ word ∈ get_or_empty (lists h) t)
  ∧ (∀ T word,
       (T, 0%Z) ∈ tier_weights h →
       (pick_word_from_tiers lists h).1 ≠ Returns (Some (T, word)))
  ∧ (within_float_range (lists h) (tier_weights h) →
     ∃ r, (pick_word_from_tiers lists h).1 = Returns r)
  ∧ (¬ within_float_range (lists h) (tier_weights h) →
     (pick_word_from_tiers lists h).1 = Raises OverflowError).
Proof.
  intros Hwf.
  destruct (within_cases (lists h) (tier_weights h)) as [Hin|Hout].
  2:{ rewrite (pick_overflow lists h Hwf Hout). simpl.
      split; [|split; [done|split; [done|split; done]]].
      split; [done|]. intros Hno. exfalso. apply Hout, within_no_eligible.
      intros (t & w & ?). apply Hno. by exists t, w. }
  destruct (eligible_cases (lists h) (tier_weights h)) as [Hex|Hno].
  - destruct (pick_some lists h Hwf Hin Hex)
      as (t & word & g' & Heq & Hel & Hword).
    rewrite Heq. simpl. split; [|split; [|split; [|split]]].
    + split; [done|]. intros Hnone. exfalso. apply Hnone.
      destruct Hex as (t' & w' & ?). by exists t', w'.
    + intros t' word' [= <- <-]. split; [|done].
      destruct Hel as (w & ? & ? & _). by exists w.
    + intros T word' HT [= <- <-]. destruct Hel as (w & Hin' & Hw & _).
      pose proof (dict_wf_functional _ _ _ _ Hwf HT Hin'). lia.
    + by eexists.
    + done.
  - rewrite (pick_none lists h Hno). simpl.
    split; [|split; [done|split; [done|split; [by eexists|done]]]].
    split; [|done]. intros _ (t & w & ?). apply Hno. by exists t, w.
Qed.

Lemma pick_word_from_tiers_spec_witness :
  dict_wf (tier_weights sample_heap)
  ∧ (pick_word_from_tiers adjectives sample_heap).1
    = Returns (Some (py "Common", py "brave"))
  ∧ ∀ word, (pick_word_from_tiers adjectives sample_heap).1
            ≠ Returns (Some (py "Rare", word)).
Proof.
  assert (Hwf : dict_wf (tier_weights sample_heap)).
  { apply (bool_decide_unpack _). vm_compute. exact I. }
  split; [exact Hwf|]. split; [vm_compute; reflexivity|].
  intros word.
  apply (proj1 (proj2 (proj2
           (pick_word_from_tiers_spec adjectives sample_heap Hwf)))).
  apply list_elem_of_In. vm_compute. tauto.
Defined.

(** Beyond the range of a float the pick raises. *)
Example pick_overflows :
  (pick_word_from_tiers adjectives huge_weight_heap).1 = Raises OverflowError.
Proof. vm_compute. reflexivity. Qed.

(** ** NameGenerator *)

Section GeneratorClaims.
Context `{PyCase}.

(** C2. When [generate_one_name] is called with alliteration set and returns
    a name, the name is made of an adjective and a noun of the tiers
    returned, both non-empty, whose first characters have the same
    lower-casing (taken on the words as stored, before [apply_case]), and
    the noun's tier has a positive weight. *)
Theorem alliteration_invariant (separator case_mode : pystr)
    (avoid_duplicates : bool) (h : Heap) (name adj_tier noun_tier : pystr) :
  dict_wf (tier_weights h) →
  (generate_one_name separator case_mode true avoid_duplicates h).1
  = Returns (Some (name, adj_tier, noun_tier)) →
  ∃ a adj_rest n noun_rest,
    a :: adj_rest ∈ get_or_empty (adjectives h) adj_tier
    ∧ n :: noun_rest ∈ get_or_empty (nouns h) noun_tier
    ∧ name = join_name (apply_case (a :: adj_rest) case_mode)
                       (apply_case (n :: noun_rest) case_mode) separator
    ∧ str_lower [a] = str_lower [n]
    ∧ ∃ w, (noun_tier, w) ∈ tier_weights h ∧ (0 < w)%Z.
Proof.
  intros Hwf. rewrite generate_one_name_counting.
  destruct (generate_counting_spec separator case_mode true avoid_duplicates
              h Hwf) as (o & g' & -> & Hpost).
  destruct Hpost as [| | |k adj_tier' adj_raw noun_tier' noun_raw _ Hpair _|];
    try done.
  simpl. intros [= <- <- <-].
  destruct Hpair as ((wa & _ & _ & Hadj) & (wn & Hin & Hwn & Hnoun) & Hlet).
  destruct (Hlet eq_refl) as (letter & Ha & Hn).
  destruct adj_raw as [|a adj_rest]; [done|].
  destruct noun_raw as [|n noun_rest]; [done|].
  simpl in Ha, Hn. exists a, adj_rest, n, noun_rest.
  repeat split; try done; [congruence|by exists wn].
Qed.

(** The bound of the retry loop.  For every input the loop of [generate_one_name] ends
    within [max_tries] passes: it does not run out of the [max_tries] passes
    it is given, and the count of passes it returns is at most [max_tries]. *)
Lemma generate_terminates (separator case_mode : pystr)
    (alliteration avoid_duplicates : bool) (h : Heap) :
  match (generate_counting max_tries separator case_mode
                           alliteration avoid_duplicates h).1 with
  | Returns (_, k) => (k ≤ max_tries)%nat
  | Raises _ => True
  | OutOfFuel => False
  end.
Proof.
  unfold generate_counting, mbind, M_bind, load.
  pose proof (retry_loop_bound max_tries
    (nouns_by_letter_of (enabled_nouns_of (tier_weights h) (nouns h)))
    separator case_mode alliteration avoid_duplicates 0 h
    ltac:(lia) ltac:(lia)) as Hb.
  destruct (retry_loop _ _ _ _ _ _ _ h) as [[[r k]|e|] h']; simpl in *;
    [lia|done|done].
Qed.

(** More passes than the loop needs change nothing. *)
Lemma retry_loop_more_fuel (fuel extra : nat)
    (nouns_by_letter : gmap pystr (list (pystr * pystr)))
    (separator case_mode : pystr) (alliteration avoid_duplicates : bool)
    (tries : nat) (h : Heap) :
  (max_tries ≤ tries + fuel)%nat →
  retry_loop (fuel + extra) nouns_by_letter separator case_mode
             alliteration avoid_duplicates tries h
  = retry_loop fuel nouns_by_letter separator case_mode
               alliteration avoid_duplicates tries h.
Proof.
  revert tries h. induction fuel as [|fuel IH]; intros tries h Hfuel.
  - destruct extra; cbn [retry_loop Nat.add];
      by rewrite bool_decide_eq_false_2 by lia.
  - cbn [retry_loop Nat.add]. destruct (bool_decide _); [|done].
    unfold mbind, M_bind.
    destruct (attempt _ _ _ _ _ h) as [[[r|]|e|] h1]; try done.
    apply IH. lia.
Qed.

Lemma retry_loop_all_discarded (fuel tries : nat)
    (nouns_by_letter : gmap pystr (list (pystr * pystr)))
    (separator case_mode : pystr) (alliteration avoid_duplicates : bool)
    (h : Heap) :
  (tries + fuel = max_tries)%nat →
  all_discarded fuel nouns_by_letter separator case_mode
                alliteration avoid_duplicates h = true →
  ∃ h', retry_loop fuel nouns_by_letter separator case_mode
                   alliteration avoid_duplicates tries h
        = (Returns (None, max_tries), h').
Proof.
  revert tries h. induction fuel as [|fuel IH]; intros tries h Hsum Hall.
  - exists h. cbn. rewrite bool_decide_eq_false_2 by lia.
    assert (tries = max_tries) as -> by lia. done.
  - cbn [retry_loop]. rewrite bool_decide_eq_true_2 by lia.
    cbn [all_discarded] in Hall. unfold mbind, M_bind.
    destruct (attempt _ _ _ _ _ h) as [[[r|]|e|] h1]; try done.
    apply IH; [lia|done].
Qed.

(** Exhaustion.  When every one of the [max_tries] passes is discarded,
    [generate_one_name] returns [None] after the last of them. *)
Lemma generate_all_discarded (separator case_mode : pystr)
    (alliteration avoid_duplicates : bool) (h : Heap) :
  all_discarded max_tries
    (nouns_by_letter_of (enabled_nouns_of (tier_weights h) (nouns h)))
    separator case_mode alliteration avoid_duplicates h = true →
  ∃ h', generate_counting max_tries separator case_mode
                          alliteration avoid_duplicates h
        = (Returns (None, max_tries), h').
Proof.
  intros Hall. unfold generate_counting, mbind, M_bind, load.
  by apply retry_loop_all_discarded.
Qed.

(** Duplicates.  With [avoid_duplicates] set and the name of every pair
    of an enabled adjective and an enabled noun in [used_names],
    [generate_one_name] returns [None] within the bound, provided that in
    alliteration mode no enabled adjective is the empty string, and that
    the weights are within the range of a float. *)
Lemma generate_names_used_up (separator case_mode : pystr)
    (alliteration : bool) (h : Heap) :
  dict_wf (tier_weights h) →
  ¬ weights_overflow h alliteration →
  (∀ adj_tier adj_raw noun_tier noun_raw,
     enabled_word (adjectives h) (tier_weights h) adj_tier adj_raw →
     enabled_word (nouns h) (tier_weights h) noun_tier noun_raw →
     str_lower (formatted separator case_mode adj_raw noun_raw)
       ∈ used_names h) →
  (alliteration = true →
   ∀ t, ¬ enabled_word (adjectives h) (tier_weights h) t []) →
  ∃ k g',
    generate_counting max_tries separator case_mode alliteration true h
    = (Returns (None, k), set_rng g' h)
    ∧ (k ≤ max_tries)%nat.
Proof.
  intros Hwf Hrange Hused Hblank.
  destruct (generate_counting_spec separator case_mode alliteration true
              h Hwf) as (o & g' & -> & Hpost).
  destruct Hpost as [Hlt _| |t Hal Hen|k ? ? ? ? _ (Ha & Hn & _) Hdup|Hover].
  - exists 1%nat, g'. split; [done|unfold max_tries; lia].
  - by exists max_tries, g'.
  - by apply (Hblank Hal) in Hen.
  - exfalso. apply Hdup. split; [done|]. eapply Hused; eassumption.
  - done.
Qed.

End GeneratorClaims.

Lemma alliteration_invariant_witness :
  dict_wf (tier_weights sample_heap)
  ∧ (generate_one_name (py "Hyphen") (py "UPPER") true true sample_heap).1
    = Returns (Some (py "BRAVE-BEAR", py "Common", py "Common"))
  ∧ ∃ a adj_rest n noun_rest,
      a :: adj_rest ∈ get_or_empty (adjectives sample_heap) (py "Common")
      ∧ n :: noun_rest ∈ get_or_empty (nouns sample_heap) (py "Common")
      ∧ py "BRAVE-BEAR"
        = join_name (apply_case (a :: adj_rest) (py "UPPER"))
                    (apply_case (n :: noun_rest) (py "UPPER")) (py "Hyphen")
      ∧ str_lower [a] = str_lower [n]
      ∧ ∃ w, (py "Common", w) ∈ tier_weights sample_heap ∧ (0 < w)%Z.
Proof.
  assert (Hwf : dict_wf (tier_weights sample_heap)).
  { apply (bool_decide_unpack _). vm_compute. exact I. }
  assert (Hrun :
    (generate_one_name (py "Hyphen") (py "UPPER") true true sample_heap).1
    = Returns (Some (py "BRAVE-BEAR", py "Common", py "Common"))).
  { vm_compute. reflexivity. }
  split; [exact Hwf|]. split; [exact Hrun|].
  exact (alliteration_invariant (py "Hyphen") (py "UPPER") true sample_heap
           (py "BRAVE-BEAR") (py "Common") (py "Common") Hwf Hrun).
Defined.

Example mismatch_all_discarded :
  all_discarded max_tries
    (nouns_by_letter_of (enabled_nouns_of (tier_weights mismatch_heap)
                                          (nouns mismatch_heap)))
    (py "Space") (py "Title Case") true false mismatch_heap = true.
Proof. vm_compute. reflexivity. Qed.

Example mismatch_exhausts :
  (generate_counting max_tries (py "Space") (py "Title Case") true false
                     mismatch_heap).1
  = Returns (None, max_tries).
Proof. vm_compute. reflexivity. Qed.

(** The end-to-end scenario of the specification. *)
Example single_pair_generated :
  (generate_one_name (py "Space") (py "Title Case") false false
                     mismatch_heap).1
  = Returns (Some (py "Swift Fang", py "Common", py "Common")).
Proof. vm_compute. reflexivity. Qed.

Example used_up_exhausts :
  (generate_counting max_tries (py "Space") (py "Title Case") false true
                     used_up_heap).1
  = Returns (None, max_tries).
Proof. vm_compute. reflexivity. Qed.

Lemma enabled_word_singleton (lists : gmap pystr (list pystr))
    (tier word : pystr) (weight : Z) (t w : pystr) :
  lists !! tier = Some [word] →
  enabled_word lists [(tier, weight)] t w → t = tier ∧ w = word.
Proof.
  intros Hl (wt & Hin & _ & Hw).
  apply list_elem_of_singleton in Hin as [= -> ->].
  unfold get_or_empty in Hw. rewrite Hl in Hw. simpl in Hw.
  by apply list_elem_of_singleton in Hw as ->.
Qed.

(** C3, where the code departs from it.  [used_names] holds the name of
    every pair of an enabled adjective and an enabled noun and
    [avoid_duplicates] is set, yet the call does not return [None]: the one
    enabled adjective is the empty string, and in alliteration mode taking its
    first character raises [IndexError]. *)
Theorem generate_raises_on_blank_adjective :
  dict_wf (tier_weights blank_adjective_heap)
  ∧ (∀ adj_tier adj_raw noun_tier noun_raw,
       enabled_word (adjectives blank_adjective_heap)
                    (tier_weights blank_adjective_heap) adj_tier adj_raw →
       enabled_word (nouns blank_adjective_heap)
                    (tier_weights blank_adjective_heap) noun_tier noun_raw →
       str_lower (formatted (py "Space") (py "lower") adj_raw noun_raw)
         ∈ used_names blank_adjective_heap)
  ∧ (generate_one_name (py "Space") (py "lower") true true
                       blank_adjective_heap).1
    = Raises IndexError.
Proof.
  split; [|split].
  - apply (bool_decide_unpack _). vm_compute. exact I.
  - intros adj_tier adj_raw noun_tier noun_raw Ha Hn.
    apply (enabled_word_singleton _ (py "Common") (py "")) in Ha as [-> ->];
      [|reflexivity].
    apply (enabled_word_singleton _ (py "Common") (py "Fang")) in Hn as [-> ->];
      [|reflexivity].
    apply (bool_decide_unpack _). vm_compute. exact I.
  - vm_compute. reflexivity.
Qed.

Section GeneratorClaimsTwo.
Context `{PyCase}.

Lemma no_eligible_iff (lists : gmap pystr (list pystr)) (d : weights_dict) :
  (∀ t w, (t, w) ∈ d → (0 < w)%Z → get_or_empty lists t = [])
  ↔ ¬ ∃ t, eligible lists d t.
Proof.
  split.
  - intros Hall (t & w & Hin & Hw & Hne). by apply Hne, (Hall t w).
  - intros Hno t w Hin Hw.
    destruct (get_or_empty lists t) as [|x l] eqn:E; [done|].
    exfalso. apply Hno. exists t, w. by rewrite E.
Qed.

Lemma retry_loop_first (fuel tries : nat)
    (nouns_by_letter : gmap pystr (list (pystr * pystr)))
    (separator case_mode : pystr) (alliteration avoid_duplicates : bool)
    (h h1 : Heap) (r : option name_result) :
  (tries < max_tries)%nat →
  attempt nouns_by_letter separator case_mode alliteration avoid_duplicates h
  = (Returns (Return r), h1) →
  retry_loop (S fuel) nouns_by_letter separator case_mode
             alliteration avoid_duplicates tries h
  = (Returns (r, S tries), h1).
Proof.
  intros Hlt Heq. cbn [retry_loop]. rewrite bool_decide_eq_true_2 by done.
  unfold mbind, M_bind. by rewrite Heq.
Qed.

Lemma attempt_no_adjective
    (nouns_by_letter : gmap pystr (list (pystr * pystr)))
    (separator case_mode : pystr) (alliteration avoid_duplicates : bool)
    (h : Heap) :
  (¬ ∃ t, eligible (adjectives h) (tier_weights h) t) →
  attempt nouns_by_letter separator case_mode alliteration avoid_duplicates h
  = (Returns (Return None), h).
Proof.
  intros Hno. unfold attempt, mbind, M_bind.
  by rewrite (pick_none adjectives h Hno).
Qed.

Lemma attempt_no_noun
    (nouns_by_letter : gmap pystr (list (pystr * pystr)))
    (separator case_mode : pystr) (avoid_duplicates : bool) (h : Heap) :
  dict_wf (tier_weights h) →
  within_float_range (adjectives h) (tier_weights h) →
  (¬ ∃ t, eligible (nouns h) (tier_weights h) t) →
  ∃ g', attempt nouns_by_letter separator case_mode false avoid_duplicates h
        = (Returns (Return None), set_rng g' h).
Proof.
  intros Hwf Hrange Hno.
  destruct (eligible_cases (adjectives h) (tier_weights h)) as [Hadj|Hadj].
  - destruct (pick_some adjectives h Hwf Hrange Hadj)
      as (adj_tier & adj_raw & g1 & Heq & _).
    exists g1. unfold attempt. unfold mbind at 1, M_bind at 1. rewrite Heq.
    unfold mbind, M_bind. by rewrite (pick_none nouns (set_rng g1 h) Hno).
  - exists (rng h). rewrite attempt_no_adjective by done.
    f_equal. apply set_rng_self.
Qed.

(** C4, as amended.  When every tier of positive weight has an empty
    adjective list, [generate_one_name] returns [None] on its first pass,
    without touching the random source.  When nouns are picked by weight (no
    alliteration), every tier of positive weight has an empty noun list,
    and the weights of the tiers that have adjectives sum to a value within
    the range of a float, it returns [None] on its first pass as well.  In
    neither case does it raise. *)
Theorem empty_pool_fails_at_once (separator case_mode : pystr)
    (alliteration avoid_duplicates : bool) (h : Heap) :
  ((∀ t w, (t, w) ∈ tier_weights h → (0 < w)%Z →
           get_or_empty (adjectives h) t = []) →
   generate_counting max_tries separator case_mode
                     alliteration avoid_duplicates h
   = (Returns (None, 1%nat), h)
   ∧ generate_one_name separator case_mode alliteration avoid_duplicates h
     = (Returns None, h))
  ∧ (dict_wf (tier_weights h) →
     within_float_range (adjectives h) (tier_weights h) →
     (∀ t w, (t, w) ∈ tier_weights h → (0 < w)%Z →
             get_or_empty (nouns h) t = []) →
     ∃ g',
       generate_counting max_tries separator case_mode false
                         avoid_duplicates h
       = (Returns (None, 1%nat), set_rng g' h)
       ∧ generate_one_name separator case_mode false avoid_duplicates h
         = (Returns None, set_rng g' h)).
Proof.
  split.
  - intros Hno%no_eligible_iff.
    assert (Hcount : generate_counting max_tries separator case_mode
                       alliteration avoid_duplicates h
                     = (Returns (None, 1%nat), h)).
    { unfold generate_counting, mbind, M_bind, load.
      apply retry_loop_first; [unfold max_tries; lia|].
      by apply attempt_no_adjective. }
    split; [exact Hcount|]. by rewrite generate_one_name_counting, Hcount.
  - intros Hwf Hrange Hno%no_eligible_iff.
    destruct (attempt_no_noun
                (nouns_by_letter_of
                   (enabled_nouns_of (tier_weights h) (nouns h)))
                separator case_mode avoid_duplicates h Hwf Hrange Hno)
      as [g' Heq].
    exists g'.
    assert (Hcount : generate_counting max_tries separator case_mode false
                       avoid_duplicates h
                     = (Returns (None, 1%nat), set_rng g' h)).
    { unfold generate_counting, mbind, M_bind, load.
      apply retry_loop_first; [unfold max_tries; lia|done]. }
    split; [exact Hcount|]. by rewrite generate_one_name_counting, Hcount.
Qed.

(** C9. Whatever [generate_one_name] does (return a name, return [None] or
    raise), the adjective lists, the noun lists, the weights and
    [used_names] are when it ends what they were when it was called; only
    the random source has advanced. *)
Theorem generate_read_only (separator case_mode : pystr)
    (alliteration avoid_duplicates : bool) (h : Heap) :
  adjectives (generate_one_name separator case_mode alliteration
                                avoid_duplicates h).2 = adjectives h
  ∧ nouns (generate_one_name separator case_mode alliteration
                             avoid_duplicates h).2 = nouns h
  ∧ tier_weights (generate_one_name separator case_mode alliteration
                                    avoid_duplicates h).2 = tier_weights h
  ∧ used_names (generate_one_name separator case_mode alliteration
                                  avoid_duplicates h).2 = used_names h.
Proof.
  destruct (rng_only_generate separator case_mode alliteration
              avoid_duplicates h) as [g' ->]. done.
Qed.

(** It is the caller that records a name it was given. *)
Lemma pull_records (separator case_mode : pystr) (alliteration : bool)
    (h : Heap) (final adj_tier noun_tier : pystr) :
  (generate_one_name separator case_mode alliteration true h).1
  = Returns (Some (final, adj_tier, noun_tier)) →
  (pull separator case_mode alliteration true h).1
  = Returns (Some (final, adj_tier, noun_tier))
  ∧ used_names (pull separator case_mode alliteration true h).2
    = {[str_lower final]} ∪ used_names h.
Proof.
  intros Hgen. unfold pull, mbind, M_bind.
  destruct (rng_only_generate separator case_mode alliteration true h)
    as [g' Hframe].
  destruct (generate_one_name separator case_mode alliteration true h)
    as [o h1]. simpl in Hgen, Hframe. by subst o h1.
Qed.

(** C10, as amended.  In alliteration mode [generate_one_name] takes the
    first character of the adjective it picked.  When no adjective of a tier
    of positive weight is the empty string, and the weights of the tiers it
    draws from sum to a value within the range of a float, the call does
    not raise: it returns a name or [None].  Nothing is asked of the nouns:
    an empty noun is never entered in the first-letter index, so every
    candidate has a first character. *)
Theorem generate_never_raises (separator case_mode : pystr)
    (alliteration avoid_duplicates : bool) (h : Heap) :
  dict_wf (tier_weights h) →
  within_float_range (adjectives h) (tier_weights h) →
  (alliteration = false → within_float_range (nouns h) (tier_weights h)) →
  (alliteration = true →
   ∀ t w, (t, w) ∈ tier_weights h → (0 < w)%Z →
          [] ∉ get_or_empty (adjectives h) t) →
  (∃ r, (generate_one_name separator case_mode alliteration
                           avoid_duplicates h).1 = Returns r)
  ∧ ∀ letter noun_tier noun_raw,
      (noun_tier, noun_raw)
        ∈ default [] (nouns_by_letter_of
                        (enabled_nouns_of (tier_weights h) (nouns h))
                      !! letter) →
      noun_raw ≠ [].
Proof.
  intros Hwf Hra Hrn Hblank. split.
  - rewrite generate_one_name_counting.
    destruct (generate_counting_spec separator case_mode alliteration
                avoid_duplicates h Hwf) as (o & g' & -> & Hpost).
    destruct Hpost as [| |t Hal (w & Hin & Hw & Hel)| |Hover]; simpl.
    + by eexists.
    + by eexists.
    + by destruct (Hblank Hal t w Hin Hw).
    + by eexists.
    + exfalso. destruct Hover as [Hover|[Hal Hover]]; [done|].
      by apply Hover, Hrn.
  - intros letter noun_tier noun_raw [_ Hl]%candidates_elem ->. done.
Qed.

End GeneratorClaimsTwo.

Lemma empty_pool_fails_at_once_witness :
  (∀ t w, (t, w) ∈ tier_weights no_adjective_heap → (0 < w)%Z →
          get_or_empty (adjectives no_adjective_heap) t = [])
  ∧ dict_wf (tier_weights no_noun_heap)
  ∧ within_float_range (adjectives no_noun_heap) (tier_weights no_noun_heap)
  ∧ (∀ t w, (t, w) ∈ tier_weights no_noun_heap → (0 < w)%Z →
            get_or_empty (nouns no_noun_heap) t = [])
  ∧ generate_one_name (py "Space") (py "Title Case") true true
                      no_adjective_heap
    = (Returns None, no_adjective_heap)
  ∧ ∃ g', generate_one_name (py "Space") (py "Title Case") false true
                            no_noun_heap
          = (Returns None, set_rng g' no_noun_heap).
Proof.
  assert (Hadj : ∀ t w, (t, w) ∈ tier_weights no_adjective_heap → (0 < w)%Z →
                        get_or_empty (adjectives no_adjective_heap) t = []).
  { intros t w Hin Hw. simpl in Hin.
    apply elem_of_cons in Hin as [[= -> ->]|Hin]; [reflexivity|].
    apply list_elem_of_singleton in Hin as [= -> ->]. lia. }
  assert (Hwf : dict_wf (tier_weights no_noun_heap)).
  { apply (bool_decide_unpack _). vm_compute. exact I. }
  assert (Hrange : within_float_range (adjectives no_noun_heap)
                                      (tier_weights no_noun_heap)).
  { vm_compute. reflexivity. }
  assert (Hnoun : ∀ t w, (t, w) ∈ tier_weights no_noun_heap → (0 < w)%Z →
                         get_or_empty (nouns no_noun_heap) t = []).
  { intros t w Hin Hw. simpl in Hin.
    apply elem_of_cons in Hin as [[= -> ->]|Hin]; [reflexivity|].
    apply list_elem_of_singleton in Hin as [= -> ->]. lia. }
  split; [exact Hadj|]. split; [exact Hwf|]. split; [exact Hrange|].
  split; [exact Hnoun|]. split.
  - exact (proj2 (proj1 (empty_pool_fails_at_once (py "Space")
             (py "Title Case") true true no_adjective_heap) Hadj)).
  - destruct (proj2 (empty_pool_fails_at_once (py "Space") (py "Title Case")
                       true true no_noun_heap) Hwf Hrange Hnoun)
      as (g' & _ & Hgen).
    exists g'. exact Hgen.
Defined.

(** C4, where it fails.  No tier of positive weight has a noun and nouns
    are picked by weight, yet the call does not return [None]: the weight of
    the adjective tier is beyond the range of a float, and the pick of the
    adjective, which comes first, raises [OverflowError]. *)
Lemma empty_noun_pool_overflow :
  dict_wf (tier_weights huge_weight_no_noun_heap)
  ∧ (∀ t w, (t, w) ∈ tier_weights huge_weight_no_noun_heap → (0 < w)%Z →
            get_or_empty (nouns huge_weight_no_noun_heap) t = [])
  ∧ (generate_one_name (py "Space") (py "Title Case") false true
                       huge_weight_no_noun_heap).1
    = Raises OverflowError.
Proof.
  split; [|split].
  - apply (bool_decide_unpack _). vm_compute. exact I.
  - intros t w Hin Hw. simpl in Hin.
    by apply list_elem_of_singleton in Hin as [= -> ->].
  - vm_compute. reflexivity.
Qed.

Lemma generate_never_raises_witness :
  dict_wf (tier_weights sample_heap)
  ∧ within_float_range (adjectives sample_heap) (tier_weights sample_heap)
  ∧ (∀ t w, (t, w) ∈ tier_weights sample_heap → (0 < w)%Z →
            [] ∉ get_or_empty (adjectives sample_heap) t)
  ∧ [] ∈ get_or_empty (nouns sample_heap) (py "Common")
  ∧ ∃ r, (generate_one_name (py "Space") (py "Title Case") true true
                            sample_heap).1 = Returns r.
Proof.
  assert (Hwf : dict_wf (tier_weights sample_heap)).
  { apply (bool_decide_unpack _). vm_compute. exact I. }
  assert (Hrange : within_float_range (adjectives sample_heap)
                                      (tier_weights sample_heap)).
  { vm_compute. reflexivity. }
  assert (Hadj : ∀ t w, (t, w) ∈ tier_weights sample_heap → (0 < w)%Z →
                        [] ∉ get_or_empty (adjectives sample_heap) t).
  { intros t w Hin Hw. simpl in Hin.
    apply elem_of_cons in Hin as [[= -> ->]|Hin].
    - apply (bool_decide_unpack _). vm_compute. exact I.
    - apply list_elem_of_singleton in Hin as [= -> ->]. lia. }
  split; [exact Hwf|]. split; [exact Hrange|]. split; [exact Hadj|]. split.
  - apply (bool_decide_unpack _). vm_compute. exact I.
  - exact (proj1 (generate_never_raises (py "Space") (py "Title Case")
                    true true sample_heap Hwf Hrange
                    (λ Hal, False_ind _ (Bool.diff_true_false Hal))
                    (λ _, Hadj))).
Defined.

(** C10, where it fails.  No adjective is the empty string, yet the call
    raises: the weight of the tier is beyond the range of a float, and
    [rng.choices] raises [OverflowError]. *)
Lemma generate_overflow_raises :
  dict_wf (tier_weights huge_weight_heap)
  ∧ (∀ t w, (t, w) ∈ tier_weights huge_weight_heap → (0 < w)%Z →
            [] ∉ get_or_empty (adjectives huge_weight_heap) t)
  ∧ (generate_one_name (py "Space") (py "Title Case") true true
                       huge_weight_heap).1
    = Raises OverflowError.
Proof.
  split; [|split].
  - apply (bool_decide_unpack _). vm_compute. exact I.
  - intros t w Hin Hw. simpl in Hin.
    apply list_elem_of_singleton in Hin as [= -> ->].
    apply (bool_decide_unpack _). vm_compute. exact I.
  - vm_compute. reflexivity.
Qed.

(** * Further properties of the generator and the normalizer *)

Section MoreGenerator.
Context `{PyCase}.

(** X1. A list of cleaned words, no two the same up to case, comes back
    unchanged from showing it one word per line and normalising the text:
    saving a tier of the editor without touching it changes nothing. *)
Theorem editor_round_trip (words : list pystr) :
  Forall clean_word words → NoDup (str_lower <$> words) →
  normalize_words (str_join newline words) = words.
Proof.
  intros Hclean Hnd. rewrite normalize_words_unfold.
  rewrite cleaned_pieces_join by done.
  apply dedupe_list_fixed; [done|set_solver].
Qed.

(** X2. Whichever mode is used, a name [generate_one_name] returns is made
    of an adjective of the adjective tier returned and a noun of the noun
    tier returned, both tiers have a positive weight, and with
    [avoid_duplicates] set the lower-cased name is not in [used_names]. *)
Theorem generated_name_provenance (separator case_mode : pystr)
    (alliteration avoid_duplicates : bool) (h : Heap)
    (name adj_tier noun_tier : pystr) :
  dict_wf (tier_weights h) →
  (generate_one_name separator case_mode alliteration avoid_duplicates h).1
  = Returns (Some (name, adj_tier, noun_tier)) →
  (∃ adj_raw noun_raw,
     adj_raw ∈ get_or_empty (adjectives h) adj_tier
     ∧ noun_raw ∈ get_or_empty (nouns h) noun_tier
     ∧ name = join_name (apply_case adj_raw case_mode)
                        (apply_case noun_raw case_mode) separator)
  ∧ (∃ w, (adj_tier, w) ∈ tier_weights h ∧ (0 < w)%Z)
  ∧ (∃ w, (noun_tier, w) ∈ tier_weights h ∧ (0 < w)%Z)
  ∧ (avoid_duplicates = true → str_lower name ∉ used_names h).
Proof.
  intros Hwf. rewrite generate_one_name_counting.
  destruct (generate_counting_spec separator case_mode alliteration
              avoid_duplicates h Hwf) as (o & g' & -> & Hpost).
  destruct Hpost as [| | |k adj_tier' adj_raw noun_tier' noun_raw _ Hpair Hdup|];
    try done.
  simpl. intros [= <- <- <-].
  destruct Hpair as ((wa & Hina & Hwa & Hadj) & (wn & Hinn & Hwn & Hnoun) & _).
  split; [by exists adj_raw, noun_raw|].
  split; [by exists wa|]. split; [by exists wn|].
  intros Hav Hin. apply Hdup. by split.
Qed.

(** X3. [generate_one_name] returns [None] in two situations only, told
    apart by the number of passes made: after one pass when no pair can be
    picked at all (no eligible adjective, or no eligible noun when nouns are
    picked by weight), and after all [max_tries] passes otherwise. *)
Theorem none_is_empty_or_exhausted (separator case_mode : pystr)
    (alliteration avoid_duplicates : bool) (h : Heap) (k : nat) :
  dict_wf (tier_weights h) →
  (generate_counting max_tries separator case_mode
                     alliteration avoid_duplicates h).1
  = Returns (None, k) →
  (k = 1%nat ∧ no_eligible_pair h alliteration)
  ∨ (k = max_tries ∧ ¬ no_eligible_pair h alliteration).
Proof.
  intros Hwf.
  destruct (generate_counting_spec separator case_mode alliteration
              avoid_duplicates h Hwf) as (o & g' & -> & Hpost).
  destruct Hpost as [_ Hno|Hex| | |]; simpl; try done.
  - intros [= <-]. by left.
  - intros [= <-]. right. split; [done|]. apply Hex. unfold max_tries. lia.
Qed.

Lemma first_pass_name (separator case_mode : pystr) (h : Heap) :
  dict_wf (tier_weights h) →
  within_float_range (adjectives h) (tier_weights h) →
  within_float_range (nouns h) (tier_weights h) →
  (∃ t, eligible (adjectives h) (tier_weights h) t) →
  (∃ t, eligible (nouns h) (tier_weights h) t) →
  ∃ name adj_tier noun_tier g',
    generate_counting max_tries separator case_mode false false h
    = (Returns (Some (name, adj_tier, noun_tier), 1%nat), set_rng g' h).
Proof.
  intros Hwf Hra Hrn Hadj Hnoun.
  destruct (attempt_spec separator case_mode false false h Hwf)
    as (o & g' & Heq & Hpost).
  assert (Hname : ∃ name adj_tier noun_tier,
            o = Returns (Return (Some (name, adj_tier, noun_tier)))).
  { destruct Hpost as [[Hno|[_ Hno]]| | |? ? ? ? _ [Hav _]| |[Hover|[_ Hover]]];
      try done.
    by eexists _, _, _. }
  destruct Hname as (name & adj_tier & noun_tier & ->).
  exists name, adj_tier, noun_tier, g'.
  unfold generate_counting, mbind, M_bind, load.
  apply retry_loop_first; [unfold max_tries; lia|done].
Qed.

(** X4. Without alliteration and without duplicate avoidance, one eligible
    adjective tier and one eligible noun tier are enough when the weights
    of the eligible tiers sum to values within the range of a float: for
    every sequence of random draws the first pass returns a name. *)
Theorem generate_succeeds_first_pass (separator case_mode : pystr) (h : Heap) :
  dict_wf (tier_weights h) →
  within_float_range (adjectives h) (tier_weights h) →
  within_float_range (nouns h) (tier_weights h) →
  (∃ t, eligible (adjectives h) (tier_weights h) t) →
  (∃ t, eligible (nouns h) (tier_weights h) t) →
  ∃ name adj_tier noun_tier g',
    generate_counting max_tries separator case_mode false false h
    = (Returns (Some (name, adj_tier, noun_tier), 1%nat), set_rng g' h).
Proof. apply first_pass_name. Qed.

(** What a call of [generate_one_name] can come to. *)
Lemma generate_outcomes (separator case_mode : pystr)
    (alliteration avoid_duplicates : bool) (h : Heap) :
  dict_wf (tier_weights h) →
  ∃ o g',
    generate_one_name separator case_mode alliteration avoid_duplicates h
    = (o, set_rng g' h)
    ∧ (o = Returns None
       ∨ (o = Raises IndexError ∧ alliteration = true
          ∧ ∃ t, enabled_word (adjectives h) (tier_weights h) t [])
       ∨ (o = Raises OverflowError ∧ weights_overflow h alliteration)
       ∨ ∃ adj_tier adj_raw noun_tier noun_raw,
           o = Returns (Some (formatted separator case_mode adj_raw noun_raw,
                              adj_tier, noun_tier))
           ∧ chosen_pair h alliteration adj_tier adj_raw noun_tier noun_raw
           ∧ ¬ is_duplicate h avoid_duplicates
                 (formatted separator case_mode adj_raw noun_raw)).
Proof.
  intros Hwf. rewrite generate_one_name_counting.
  destruct (generate_counting_spec separator case_mode alliteration
              avoid_duplicates h Hwf) as (o & g' & -> & Hpost).
  destruct Hpost
    as [| |t Hal Hen|k adj_tier adj_raw noun_tier noun_raw _ Hp Hd|Hover].
  - eexists _, g'. split; [done|]. by left.
  - eexists _, g'. split; [done|]. by left.
  - eexists _, g'. split; [done|]. right. left. eauto.
  - eexists _, g'. split; [done|]. right. right. right.
    by exists adj_tier, adj_raw, noun_tier, noun_raw.
  - eexists _, g'. split; [done|]. right. right. left. done.
Qed.

End MoreGenerator.

Lemma editor_round_trip_witness :
  Forall clean_word sample_words
  ∧ NoDup (str_lower <$> sample_words)
  ∧ normalize_words (str_join newline sample_words) = sample_words.
Proof.
  assert (Hclean : Forall clean_word sample_words).
  { apply (bool_decide_unpack _). vm_compute. exact I. }
  assert (Hnd : NoDup (str_lower <$> sample_words)).
  { apply (bool_decide_unpack _). vm_compute. exact I. }
  split; [exact Hclean|]. split; [exact Hnd|].
  exact (editor_round_trip sample_words Hclean Hnd).
Defined.

Lemma generated_name_provenance_witness :
  dict_wf (tier_weights sample_heap)
  ∧ (generate_one_name (py "of") (py "Title Case") false true sample_heap).1
    = Returns (Some (py "Brave of Salmon", py "Common", py "Common"))
  ∧ str_lower (py "Brave of Salmon") ∉ used_names sample_heap.
Proof.
  assert (Hwf : dict_wf (tier_weights sample_heap)).
  { apply (bool_decide_unpack _). vm_compute. exact I. }
  assert (Hrun :
    (generate_one_name (py "of") (py "Title Case") false true sample_heap).1
    = Returns (Some (py "Brave of Salmon", py "Common", py "Common"))).
  { vm_compute. reflexivity. }
  split; [exact Hwf|]. split; [exact Hrun|].
  exact (proj2 (proj2 (proj2
           (generated_name_provenance (py "of") (py "Title Case") false true
              sample_heap _ _ _ Hwf Hrun))) eq_refl).
Defined.

Lemma none_is_empty_or_exhausted_witness :
  dict_wf (tier_weights mismatch_heap)
  ∧ (generate_counting max_tries (py "Space") (py "lower") true false
                       mismatch_heap).1 = Returns (None, max_tries)
  ∧ ((max_tries = 1%nat ∧ no_eligible_pair mismatch_heap true)
     ∨ (max_tries = max_tries ∧ ¬ no_eligible_pair mismatch_heap true)).
Proof.
  assert (Hwf : dict_wf (tier_weights mismatch_heap)).
  { apply (bool_decide_unpack _). vm_compute. exact I. }
  assert (Hrun :
    (generate_counting max_tries (py "Space") (py "lower") true false
                       mismatch_heap).1 = Returns (None, max_tries)).
  { vm_compute. reflexivity. }
  split; [exact Hwf|]. split; [exact Hrun|].
  exact (none_is_empty_or_exhausted (py "Space") (py "lower") true false
           mismatch_heap max_tries Hwf Hrun).
Defined.

Lemma generate_succeeds_first_pass_witness :
  dict_wf (tier_weights sample_heap)
  ∧ within_float_range (adjectives sample_heap) (tier_weights sample_heap)
  ∧ within_float_range (nouns sample_heap) (tier_weights sample_heap)
  ∧ (∃ t, eligible (adjectives sample_heap) (tier_weights sample_heap) t)
  ∧ (∃ t, eligible (nouns sample_heap) (tier_weights sample_heap) t)
  ∧ ∃ name adj_tier noun_tier g',
      generate_counting max_tries (py "Hyphen") (py "UPPER") false false
                        sample_heap
      = (Returns (Some (name, adj_tier, noun_tier), 1%nat),
         set_rng g' sample_heap).
Proof.
  assert (Hwf : dict_wf (tier_weights sample_heap)).
  { apply (bool_decide_unpack _). vm_compute. exact I. }
  assert (Hadj : ∃ t, eligible (adjectives sample_heap)
                              (tier_weights sample_heap) t).
  { exists (py "Common"), 5%Z. split; [by left|]. split; [lia|]. by vm_compute. }
  assert (Hnoun : ∃ t, eligible (nouns sample_heap)
                               (tier_weights sample_heap) t).
  { exists (py "Common"), 5%Z. split; [by left|]. split; [lia|]. by vm_compute. }
  assert (Hra : within_float_range (adjectives sample_heap)
                                   (tier_weights sample_heap)).
  { vm_compute. reflexivity. }
  assert (Hrn : within_float_range (nouns sample_heap)
                                   (tier_weights sample_heap)).
  { vm_compute. reflexivity. }
  split; [exact Hwf|]. split; [exact Hra|]. split; [exact Hrn|].
  split; [exact Hadj|]. split; [exact Hnoun|].
  exact (generate_succeeds_first_pass (py "Hyphen") (py "UPPER") sample_heap
           Hwf Hra Hrn Hadj Hnoun).
Defined.

(** ** Case mapping on ASCII text *)

Ltac cp_cases :=
  unfold ascii_lower_cp, ascii_upper_cp, is_ascii_letter, is_ascii_upper,
    is_ascii_lower, is_ascii, in_range in *;
  repeat match goal with
         | H : context [(?a <=? ?b)] |- _ => destruct (N.leb_spec a b)
         | |- context [(?a <=? ?b)] => destruct (N.leb_spec a b)
         | H : context [(?a <? ?b)] |- _ => destruct (N.ltb_spec a b)
         | |- context [(?a <? ?b)] => destruct (N.ltb_spec a b)
         | H : context [(?a =? ?b)] |- _ => destruct (N.eqb_spec a b)
         | |- context [(?a =? ?b)] => destruct (N.eqb_spec a b)
         end;
  simpl in *; try done; try lia.

Lemma lower_lower_cp (c : codepoint) :
  ascii_lower_cp (ascii_lower_cp c) = ascii_lower_cp c.
Proof. cp_cases. Qed.

Lemma lower_upper_cp (c : codepoint) :
  ascii_lower_cp (ascii_upper_cp c) = ascii_lower_cp c.
Proof. cp_cases. Qed.

Lemma upper_upper_cp (c : codepoint) :
  ascii_upper_cp (ascii_upper_cp c) = ascii_upper_cp c.
Proof. cp_cases. Qed.

Lemma letter_lower_cp (c : codepoint) :
  is_ascii_letter (ascii_lower_cp c) = is_ascii_letter c.
Proof. cp_cases. Qed.

Lemma letter_upper_cp (c : codepoint) :
  is_ascii_letter (ascii_upper_cp c) = is_ascii_letter c.
Proof. cp_cases. Qed.

Lemma ascii_lower_cp_ascii (c : codepoint) :
  is_ascii c = true → is_ascii (ascii_lower_cp c) = true.
Proof. cp_cases. Qed.

Lemma ascii_upper_cp_ascii (c : codepoint) :
  is_ascii c = true → is_ascii (ascii_upper_cp c) = true.
Proof. cp_cases. Qed.

Lemma ascii_lower_all_ascii (s : pystr) : all_ascii s → all_ascii (ascii_lower s).
Proof.
  unfold all_ascii, ascii_lower. intros Hs. apply Forall_fmap.
  eapply Forall_impl; [exact Hs|]. intros c. apply ascii_lower_cp_ascii.
Qed.

Lemma ascii_upper_all_ascii (s : pystr) : all_ascii s → all_ascii (ascii_upper s).
Proof.
  unfold all_ascii, ascii_upper. intros Hs. apply Forall_fmap.
  eapply Forall_impl; [exact Hs|]. intros c. apply ascii_upper_cp_ascii.
Qed.

Lemma ascii_title_all_ascii (b : bool) (s : pystr) :
  all_ascii s → all_ascii (ascii_title_from b s).
Proof.
  unfold all_ascii. intros Hs. revert b.
  induction Hs as [|c s Hc Hs IH]; intros b; simpl; constructor; [|apply IH].
  destruct b; [by apply ascii_lower_cp_ascii|by apply ascii_upper_cp_ascii].
Qed.

Lemma ascii_lower_idemp (s : pystr) : ascii_lower (ascii_lower s) = ascii_lower s.
Proof.
  unfold ascii_lower. rewrite <- list_fmap_compose. apply list_fmap_ext.
  intros i c _. apply lower_lower_cp.
Qed.

Lemma ascii_upper_idemp (s : pystr) : ascii_upper (ascii_upper s) = ascii_upper s.
Proof.
  unfold ascii_upper. rewrite <- list_fmap_compose. apply list_fmap_ext.
  intros i c _. apply upper_upper_cp.
Qed.

Lemma ascii_lower_upper (s : pystr) : ascii_lower (ascii_upper s) = ascii_lower s.
Proof.
  unfold ascii_lower, ascii_upper. rewrite <- list_fmap_compose.
  apply list_fmap_ext. intros i c _. apply lower_upper_cp.
Qed.

Lemma ascii_title_idemp (b : bool) (s : pystr) :
  ascii_title_from b (ascii_title_from b s) = ascii_title_from b s.
Proof.
  revert b. induction s as [|c s IH]; intros b; simpl; [done|].
  destruct b.
  - by rewrite lower_lower_cp, letter_lower_cp, IH.
  - by rewrite upper_upper_cp, letter_upper_cp, IH.
Qed.

Lemma ascii_lower_title (b : bool) (s : pystr) :
  ascii_lower (ascii_title_from b s) = ascii_lower s.
Proof.
  revert b. induction s as [|c s IH]; intros b; simpl; [done|].
  unfold ascii_lower in IH. rewrite IH. f_equal.
  destruct b; [apply lower_lower_cp|apply lower_upper_cp].
Qed.

Section CaseProofs.
Context `{PyCase}.

Lemma apply_case_ascii (s mode : pystr) :
  all_ascii s →
  all_ascii (apply_case s mode)
  ∧ ascii_lower (apply_case s mode) = ascii_lower s
  ∧ apply_case (apply_case s mode) mode = apply_case s mode.
Proof.
  intros Hs. unfold apply_case.
  destruct (bool_decide (mode = py "Title Case")).
  { rewrite (str_title_ascii s Hs).
    pose proof (ascii_title_all_ascii false s Hs) as Ht.
    split; [done|]. split; [apply ascii_lower_title|].
    rewrite (str_title_ascii _ Ht). apply ascii_title_idemp. }
  destruct (bool_decide (mode = py "UPPER")).
  { rewrite (str_upper_ascii s Hs).
    pose proof (ascii_upper_all_ascii s Hs) as Hu.
    split; [done|]. split; [apply ascii_lower_upper|].
    rewrite (str_upper_ascii _ Hu). apply ascii_upper_idemp. }
  destruct (bool_decide (mode = py "lower")).
  { rewrite (str_lower_ascii s Hs).
    pose proof (ascii_lower_all_ascii s Hs) as Hl.
    split; [done|]. split; [apply ascii_lower_idemp|].
    rewrite (str_lower_ascii _ Hl). apply ascii_lower_idemp. }
  done.
Qed.

(** X5. On ASCII text [apply_case] is idempotent in every mode: a name that
    is already in the chosen case is left as it is. *)
Theorem apply_case_idempotent (s mode : pystr) :
  all_ascii s → apply_case (apply_case s mode) mode = apply_case s mode.
Proof. intros Hs. by apply apply_case_ascii. Qed.

Lemma all_ascii_app (a b : pystr) : all_ascii a → all_ascii b → all_ascii (a ++ b).
Proof. unfold all_ascii. intros. by apply Forall_app. Qed.

Lemma lower_join_name (adj noun separator : pystr) :
  all_ascii adj → all_ascii noun →
  str_lower (join_name adj noun separator)
  = join_name (ascii_lower adj) (ascii_lower noun) separator.
Proof.
  intros Ha Hn. unfold join_name.
  repeat case_bool_decide;
    (rewrite str_lower_ascii;
     [unfold ascii_lower; by rewrite !fmap_app
     |repeat apply all_ascii_app; try done;
      apply Forall_forall; intros c Hc; apply list_elem_of_In in Hc;
      simpl in Hc; intuition (subst; done)]).
Qed.

(** X6. For ASCII words the key under which a name is remembered in
    [used_names], its lower-casing, does not depend on the case mode:
    duplicates are recognised across a change of case mode. *)
Theorem duplicate_key_ignores_case_mode
    (separator mode mode' adj_raw noun_raw : pystr) :
  all_ascii adj_raw → all_ascii noun_raw →
  str_lower (formatted separator mode adj_raw noun_raw)
  = str_lower (formatted separator mode' adj_raw noun_raw).
Proof.
  intros Ha Hn. unfold formatted.
  destruct (apply_case_ascii adj_raw mode Ha) as (Ha1 & Ha2 & _).
  destruct (apply_case_ascii noun_raw mode Hn) as (Hn1 & Hn2 & _).
  destruct (apply_case_ascii adj_raw mode' Ha) as (Ha1' & Ha2' & _).
  destruct (apply_case_ascii noun_raw mode' Hn) as (Hn1' & Hn2' & _).
  rewrite !lower_join_name by done. by rewrite Ha2, Hn2, Ha2', Hn2'.
Qed.

End CaseProofs.

Lemma apply_case_idempotent_witness :
  all_ascii (py "fire pANTHER o'neil")
  ∧ apply_case (apply_case (py "fire pANTHER o'neil") (py "Title Case"))
               (py "Title Case")
    = apply_case (py "fire pANTHER o'neil") (py "Title Case").
Proof.
  assert (Hs : all_ascii (py "fire pANTHER o'neil")).
  { apply (bool_decide_unpack _). vm_compute. exact I. }
  split; [exact Hs|].
  exact (apply_case_idempotent (py "fire pANTHER o'neil") (py "Title Case") Hs).
Defined.

Lemma duplicate_key_ignores_case_mode_witness :
  all_ascii (py "Swift") ∧ all_ascii (py "Fang")
  ∧ str_lower (formatted (py "of") (py "UPPER") (py "Swift") (py "Fang"))
    = str_lower (formatted (py "of") (py "Title Case") (py "Swift") (py "Fang")).
Proof.
  assert (Ha : all_ascii (py "Swift")).
  { apply (bool_decide_unpack _). vm_compute. exact I. }
  assert (Hn : all_ascii (py "Fang")).
  { apply (bool_decide_unpack _). vm_compute. exact I. }
  split; [exact Ha|]. split; [exact Hn|].
  exact (duplicate_key_ignores_case_mode (py "of") (py "UPPER")
           (py "Title Case") (py "Swift") (py "Fang") Ha Hn).
Defined.

(** ** Joining and splitting *)

Lemma str_partition_step (sep : pystr) (c : codepoint) (s : pystr) :
  strip_prefix sep (c :: s) = None →
  str_partition sep (c :: s) = prod_map (cons c) id <$> str_partition sep s.
Proof. intros E. cbn [str_partition]. by rewrite E. Qed.

Lemma strip_prefix_head_ne (d c : codepoint) (p s : pystr) :
  d ≠ c → strip_prefix (d :: p) (c :: s) = None.
Proof. intros Hne. cbn [strip_prefix]. by rewrite (proj2 (N.eqb_neq d c)). Qed.

Lemma str_partition_absent (d : codepoint) (p s : pystr) :
  d ∉ s → str_partition (d :: p) s = None.
Proof.
  induction s as [|c s IH]; intros Hd; [done|].
  apply not_elem_of_cons in Hd as [Hne Hd].
  rewrite str_partition_step by by apply strip_prefix_head_ne.
  by rewrite IH.
Qed.

Lemma str_partition_here (sep rest : pystr) :
  str_partition sep (sep ++ rest) = Some ([], rest).
Proof.
  pose proof (proj2 (strip_prefix_spec sep (sep ++ rest) rest) eq_refl) as E.
  destruct (sep ++ rest); cbn [str_partition]; by rewrite E.
Qed.

Lemma str_partition_at (d : codepoint) (p a b : pystr) :
  d ∉ a → str_partition (d :: p) (a ++ d :: p ++ b) = Some (a, b).
Proof.
  induction a as [|c a IH]; intros Hd.
  - apply (str_partition_here (d :: p) b).
  - apply not_elem_of_cons in Hd as [Hne Hd]. cbn [app].
    rewrite str_partition_step by by apply strip_prefix_head_ne.
    by rewrite IH.
Qed.

(** [" of "] does not occur in two space-free words joined by one space. *)
Lemma str_partition_of_single_space (a b : pystr) :
  32 ∉ a → 32 ∉ b →
  str_partition [32; 111; 102; 32] (a ++ 32 :: b) = None.
Proof.
  intros Ha Hb. induction a as [|c a IH].
  - cbn [app]. rewrite str_partition_step.
    + by rewrite str_partition_absent.
    + apply strip_prefix_none. intros rest [= ->]. apply Hb. set_solver.
  - apply not_elem_of_cons in Ha as [Hne Ha]. cbn [app].
    rewrite str_partition_step by by apply strip_prefix_head_ne.
    by rewrite IH.
Qed.

Lemma not_elem_of_joined (d e : codepoint) (a b : pystr) :
  d ≠ e → d ∉ a → d ∉ b → d ∉ a ++ e :: b.
Proof. intros. rewrite not_elem_of_app, not_elem_of_cons. tauto. Qed.

(** X7. For words free of spaces, hyphens and underscores,
    [split_for_display] undoes [join_name], whichever separator was used. *)
Theorem split_join_round_trip (adj noun separator : pystr) :
  delimiter_free adj → delimiter_free noun →
  split_for_display (join_name adj noun separator) = Returns (adj, noun).
Proof.
  intros (Ha32 & Ha45 & Ha95) (Hn32 & Hn45 & Hn95).
  assert (Hspace : split_for_display (adj ++ py " " ++ noun)
                   = Returns (adj, noun)).
  { assert (E1 : str_partition (py " of ") (adj ++ py " " ++ noun) = None)
      by by apply str_partition_of_single_space.
    assert (E2 : str_partition (py "-") (adj ++ py " " ++ noun) = None)
      by by apply (str_partition_absent 45 []), not_elem_of_joined.
    assert (E3 : str_partition (py "_") (adj ++ py " " ++ noun) = None)
      by by apply (str_partition_absent 95 []), not_elem_of_joined.
    assert (E4 : str_partition (py " ") (adj ++ py " " ++ noun)
                 = Some (adj, noun))
      by by apply (str_partition_at 32 []).
    unfold split_for_display, str_contains, str_split1.
    by rewrite E1, E2, E3, E4. }
  unfold join_name. repeat case_bool_decide; try exact Hspace.
  - assert (E1 : str_partition (py " of ") (adj ++ py "-" ++ noun) = None)
      by by apply (str_partition_absent 32 [111; 102; 32]), not_elem_of_joined.
    assert (E2 : str_partition (py "-") (adj ++ py "-" ++ noun)
                 = Some (adj, noun))
      by by apply (str_partition_at 45 []).
    unfold split_for_display, str_contains, str_split1.
    by rewrite E1, E2.
  - assert (E1 : str_partition (py " of ") (adj ++ py "_" ++ noun) = None)
      by by apply (str_partition_absent 32 [111; 102; 32]), not_elem_of_joined.
    assert (E2 : str_partition (py "-") (adj ++ py "_" ++ noun) = None)
      by by apply (str_partition_absent 45 []), not_elem_of_joined.
    assert (E3 : str_partition (py "_") (adj ++ py "_" ++ noun)
                 = Some (adj, noun))
      by by apply (str_partition_at 95 []).
    unfold split_for_display, str_contains, str_split1.
    by rewrite E1, E2, E3.
  - assert (E1 : str_partition (py " of ") (adj ++ py " of " ++ noun)
                 = Some (adj, noun))
      by by apply (str_partition_at 32 [111; 102; 32]).
    unfold split_for_display, str_contains, str_split1.
    by rewrite E1.
Qed.

Lemma split_join_round_trip_witness :
  delimiter_free (py "Shadow") ∧ delimiter_free (py "Fang")
  ∧ split_for_display (join_name (py "Shadow") (py "Fang") (py "of"))
    = Returns (py "Shadow", py "Fang").
Proof.
  assert (Ha : delimiter_free (py "Shadow")).
  { repeat split; apply (bool_decide_unpack _); vm_compute; exact I. }
  assert (Hn : delimiter_free (py "Fang")).
  { repeat split; apply (bool_decide_unpack _); vm_compute; exact I. }
  split; [exact Ha|]. split; [exact Hn|].
  exact (split_join_round_trip (py "Shadow") (py "Fang") (py "of") Ha Hn).
Defined.

(** A hyphenated adjective is what the round trip breaks on. *)
Example split_join_hyphenated :
  split_for_display (join_name (py "Sea-Born") (py "Fang") (py "Space"))
  = Returns (py "Sea", py "Born Fang").
Proof. reflexivity. Qed.

(** ** Texts the normalizer keeps nothing of *)

Ltac cp_lia :=
  unfold is_mark, is_word_char, is_delim, py_isspace, is_ascii_letter,
    is_ascii_upper, is_ascii_lower, in_range in *;
  rewrite ?orb_true_iff, ?orb_false_iff, ?andb_true_iff, ?andb_false_iff,
    ?N.leb_le, ?N.leb_gt, ?N.eqb_eq, ?N.eqb_neq in *;
  lia.

Lemma mark_not_space (c : codepoint) : is_mark c = true → py_isspace c = false.
Proof. intros Hc. cp_lia. Qed.

Lemma mark_word_char (c : codepoint) : is_mark c = true → is_word_char c = true.
Proof. intros Hc. cp_lia. Qed.

Lemma mark_not_delim (c : codepoint) : is_mark c = true → is_delim c = false.
Proof. intros Hc. cp_lia. Qed.

Lemma word_char_space (c : codepoint) :
  is_word_char c = true → is_mark c = false → py_isspace c = true.
Proof. intros Hw Hm. cp_lia. Qed.

Lemma elem_of_rev (c : codepoint) (s : pystr) : c ∈ rev s ↔ c ∈ s.
Proof. rewrite !list_elem_of_In. symmetry. apply in_rev. Qed.

Lemma lstrip_keeps (c : codepoint) (s : pystr) :
  c ∈ s → py_isspace c = false → c ∈ lstrip s.
Proof.
  intros Hc Hsp. induction s as [|d s IH]; [done|]. simpl.
  destruct (py_isspace d) eqn:E; [|done].
  apply elem_of_cons in Hc as [->|Hc]; [congruence|by apply IH].
Qed.

Lemma lstrip_subset (c : codepoint) (s : pystr) : c ∈ lstrip s → c ∈ s.
Proof.
  induction s as [|d s IH]; [done|]. simpl.
  destruct (py_isspace d); [|done]. intros ?%IH. by right.
Qed.

Lemma strip_keeps (c : codepoint) (s : pystr) :
  c ∈ s → py_isspace c = false → c ∈ strip s.
Proof.
  intros Hc Hsp. unfold strip, rstrip.
  apply elem_of_rev, lstrip_keeps; [|done]. apply elem_of_rev.
  by apply lstrip_keeps.
Qed.

Lemma strip_subset (c : codepoint) (s : pystr) : c ∈ strip s → c ∈ s.
Proof.
  unfold strip, rstrip. intros Hc.
  apply (proj1 (elem_of_rev _ _)) in Hc. apply lstrip_subset in Hc.
  apply (proj1 (elem_of_rev _ _)) in Hc. by apply lstrip_subset.
Qed.

Lemma lstrip_all_space (s : pystr) :
  Forall (λ c, py_isspace c = true) s → lstrip s = [].
Proof. induction 1 as [|c s Hc Hs IH]; simpl; [done|]. by rewrite Hc. Qed.

Lemma clean_piece_none (p : pystr) :
  clean_piece p = None ↔ Forall (λ c, is_mark c = false) p.
Proof.
  split.
  - intros Hnone. apply Forall_forall. intros c Hc.
    destruct (is_mark c) eqn:Em; [exfalso|done].
    pose proof (strip_keeps c p Hc (mark_not_space c Em)) as H1.
    assert (H2 : c ∈ re_sub_nonword (strip p)).
    { unfold re_sub_nonword. apply list_elem_of_In, filter_In.
      split; [by apply list_elem_of_In|by apply mark_word_char]. }
    pose proof (strip_keeps c _ H2 (mark_not_space c Em)) as H3.
    unfold clean_piece in Hnone.
    destruct (strip p) as [|c0 l] eqn:E1; [by apply elem_of_nil in H1|].
    cbn [nonempty] in Hnone.
    destruct (strip (re_sub_nonword (c0 :: l))) as [|c1 l1] eqn:E2;
      [by apply elem_of_nil in H3|done].
  - intros Hall. unfold clean_piece.
    destruct (nonempty (strip p)); [|done].
    assert (Hnil : strip (re_sub_nonword (strip p)) = []).
    { unfold strip at 1. rewrite lstrip_all_space; [done|].
      apply Forall_forall. intros c Hc.
      unfold re_sub_nonword in Hc. apply list_elem_of_In, filter_In in Hc
        as [Hc Hw]. apply word_char_space; [done|].
      eapply Forall_forall in Hall; [exact Hall|].
      by apply strip_subset, list_elem_of_In. }
    by rewrite Hnil.
Qed.

Lemma re_split_covers (b : bool) (text : pystr) (c : codepoint) :
  c ∈ text → is_delim c = false → ∃ p, p ∈ re_split_from b text ∧ c ∈ p.
Proof.
  intros Hc Hd. revert b.
  induction text as [|d t IH]; intros b; [by apply elem_of_nil in Hc|].
  cbn [re_split_from]. apply elem_of_cons in Hc as [->|Hc].
  - rewrite Hd. destruct (re_split_from false t) as [|piece pieces].
    + exists [d]. split; by left.
    + exists (d :: piece). split; by left.
  - destruct (is_delim d).
    + destruct (IH Hc true) as (p & Hp & Hcp).
      exists p. split; [|exact Hcp]. destruct b; [exact Hp|right; exact Hp].
    + destruct (IH Hc false) as (p & Hp & Hcp).
      destruct (re_split_from false t) as [|piece pieces];
        [by apply elem_of_nil in Hp|].
      apply elem_of_cons in Hp as [->|Hp].
      * exists (d :: piece). split; [by left|by right].
      * exists p. split; [by right|done].
Qed.

Lemma re_split_within (b : bool) (text p : pystr) (c : codepoint) :
  p ∈ re_split_from b text → c ∈ p → c ∈ text.
Proof.
  revert b p. induction text as [|d t IH]; intros b p; cbn [re_split_from].
  - intros ->%list_elem_of_singleton. done.
  - destruct (is_delim d).
    + destruct b.
      * intros Hp Hc. right. by eapply IH.
      * intros [->|Hp]%elem_of_cons Hc; [by apply elem_of_nil in Hc|].
        right. by eapply IH.
    + destruct (re_split_from false t) as [|piece pieces] eqn:E.
      * intros ->%list_elem_of_singleton Hc.
        apply list_elem_of_singleton in Hc as ->. by left.
      * intros [->|Hp]%elem_of_cons Hc.
        -- apply elem_of_cons in Hc as [->|Hc]; [by left|].
           right. eapply (IH false piece); [rewrite E; by left|exact Hc].
        -- right. eapply (IH false p); [rewrite E; by right|exact Hc].
Qed.

Lemma omap_nil {A B} (f : A → option B) (l : list A) :
  omap f l = [] ↔ Forall (λ x, f x = None) l.
Proof.
  induction l as [|x l IH]; [done|]. cbn [omap list_omap].
  destruct (f x) eqn:E.
  - split; [done|]. intros [Hx _]%Forall_cons. congruence.
  - rewrite IH. split; [by constructor|]. by intros [_ ?]%Forall_cons.
Qed.

Section EmptyNormalizer.
Context `{PyCase}.

(** X8. [normalize_words] returns the empty list exactly for the texts that
    hold no letter, no hyphen and no apostrophe; any such character makes a
    word, so a piece like ["--"] is kept. *)
Theorem normalize_words_nil (text : pystr) :
  normalize_words text = [] ↔ Forall (λ c, is_mark c = false) text.
Proof.
  rewrite normalize_words_unfold, <- collected_cleaned, collect_foldl.
  cbn [app].
  assert (Hdedupe : ∀ l, dedupe_list ∅ l = [] ↔ l = []).
  { intros [|w l]; [done|]. simpl. by rewrite decide_False by set_solver. }
  rewrite Hdedupe, omap_nil. split.
  - intros Hall. apply Forall_forall. intros c Hc.
    destruct (is_mark c) eqn:Em; [|done].
    destruct (re_split_covers false text c Hc (mark_not_delim c Em))
      as (p & Hp & Hcp).
    eapply Forall_forall in Hall; [|exact Hp].
    apply clean_piece_none in Hall.
    eapply Forall_forall in Hall; [|exact Hcp]. congruence.
  - intros Hall. apply Forall_forall. intros p Hp.
    apply clean_piece_none, Forall_forall. intros c Hc.
    eapply Forall_forall in Hall; [exact Hall|].
    by eapply re_split_within.
Qed.

End EmptyNormalizer.

Lemma normalize_words_nil_witness :
  Forall (λ c, is_mark c = false) (py " 12, ?? ,;") 
  ∧ normalize_words (py " 12, ?? ,;") = [].
Proof.
  assert (Hall : Forall (λ c, is_mark c = false) (py " 12, ?? ,;")).
  { apply (bool_decide_unpack _). vm_compute. exact I. }
  split; [exact Hall|].
  exact (proj2 (normalize_words_nil (py " 12, ?? ,;")) Hall).
Defined.

Example normalize_words_hyphens :
  normalize_words (py "--, 42") = [py "--"].
Proof. vm_compute. reflexivity. Qed.

(** * The callers: sidebar, animation and pull button *)

(** ** The weights the sidebar builds *)

Lemma dict_get_elem (d : weights_dict) (k : pystr) (v default : Z) :
  dict_wf d → (k, v) ∈ d → dict_get d k default = v.
Proof.
  unfold dict_wf. induction d as [|[k' v'] d IH]; intros Hwf Hin.
  - by apply elem_of_nil in Hin.
  - rewrite fmap_cons in Hwf. apply NoDup_cons in Hwf as [Hk Hwf]. simpl.
    apply elem_of_cons in Hin as [[= -> ->]|Hin].
    + by rewrite bool_decide_eq_true_2.
    + rewrite bool_decide_eq_false_2; [by apply IH|].
      intros ->. apply Hk. by apply (list_elem_of_fmap_2 fst) in Hin.
Qed.

Lemma dict_setitem_new (d : weights_dict) (k : pystr) (v : Z) :
  k ∉ d.*1 → dict_setitem d k v = d ++ [(k, v)].
Proof.
  induction d as [|[k' v'] d IH]; intros Hk; [done|].
  rewrite fmap_cons in Hk. apply not_elem_of_cons in Hk as [Hne Hk].
  cbn [dict_setitem app]. rewrite bool_decide_eq_false_2 by done.
  by rewrite IH.
Qed.

Lemma slider_label_inj (t t' : pystr) :
  slider_label t = slider_label t' → t = t'.
Proof. apply app_inv_tail. Qed.

Lemma slider_weights_keys (slider : pystr → Z → Z) (tiers : list pystr) :
  (slider_weights slider tiers).*1 = tiers.
Proof.
  induction tiers as [|t tiers IH]; [done|].
  unfold slider_weights in *. rewrite !fmap_cons. cbn [fst]. by rewrite IH.
Qed.

Lemma slider_weights_wf (slider : pystr → Z → Z) (tiers : list pystr) :
  NoDup tiers → dict_wf (slider_weights slider tiers).
Proof. unfold dict_wf. by rewrite slider_weights_keys. Qed.

Lemma slider_weights_elem (slider : pystr → Z → Z) (tiers : list pystr)
    (t : pystr) (w : Z) :
  (t, w) ∈ slider_weights slider tiers
  ↔ t ∈ tiers ∧ w = st_slider (slider t) 0 10 (default_weight t).
Proof.
  unfold slider_weights. rewrite list_elem_of_fmap. split.
  - intros (t' & [= -> ->] & Hin). done.
  - intros [Hin ->]. by exists t.
Qed.

Lemma st_slider_bounds (position : Z → Z) (value : Z) :
  (0 ≤ st_slider position 0 10 value ≤ 10)%Z.
Proof. unfold st_slider. lia. Qed.

Lemma st_slider_positive (position : Z → Z) (value : Z) :
  (0 < st_slider position 0 10 value)%Z ↔ (0 < position value)%Z.
Proof. unfold st_slider. lia. Qed.

Lemma sidebar_sliders_returns (slider : pystr → Z → Z) (labels : list pystr)
    (acc : weights_dict) (tiers : list pystr) :
  NoDup tiers →
  (∀ t, t ∈ tiers → slider_label t ∉ labels) →
  (∀ t, t ∈ tiers → t ∉ acc.*1) →
  sidebar_sliders slider labels acc tiers
  = Returns (acc ++ slider_weights slider tiers).
Proof.
  revert labels acc.
  induction tiers as [|t tiers IH]; intros labels acc Hnd Hl Ha.
  - cbn. by rewrite app_nil_r.
  - apply NoDup_cons in Hnd as [Ht Hnd]. cbn [sidebar_sliders].
    rewrite bool_decide_eq_false_2 by (apply Hl; by left).
    rewrite dict_setitem_new by (apply Ha; by left).
    rewrite IH.
    + unfold slider_weights. by rewrite fmap_cons, <- app_assoc.
    + done.
    + intros t' Ht' [Heq%slider_label_inj|Hin]%elem_of_cons; [by subst|].
      by apply (Hl t'); [right|].
    + intros t' Ht'. rewrite fmap_app, elem_of_app. intros [Hin|Hin].
      * by apply (Ha t'); [right|].
      * apply list_elem_of_singleton in Hin. by subst.
Qed.

Lemma sidebar_sliders_duplicate (slider : pystr → Z → Z)
    (labels : list pystr) (acc : weights_dict) (tiers : list pystr) :
  ¬ NoDup tiers ∨ (∃ t, t ∈ tiers ∧ slider_label t ∈ labels) →
  sidebar_sliders slider labels acc tiers = Raises StreamlitDuplicateElementId.
Proof.
  revert labels acc.
  induction tiers as [|t tiers IH]; intros labels acc Hdup.
  - destruct Hdup as [Hnd|(t & Hin & _)].
    + destruct Hnd. constructor.
    + by apply elem_of_nil in Hin.
  - cbn [sidebar_sliders]. case_bool_decide as Hl; [done|].
    apply IH. destruct Hdup as [Hnd|(t' & Hin & Hl')].
    + destruct (decide (t ∈ tiers)) as [Ht|Ht].
      * right. exists t. split; [done|by left].
      * left. intros Hnd'. apply Hnd. by apply NoDup_cons.
    + apply elem_of_cons in Hin as [->|Hin]; [done|].
      right. exists t'. split; [done|by right].
Qed.

Lemma sidebar_weights_returns (slider : pystr → Z → Z) (tiers : list pystr) :
  NoDup tiers →
  sidebar_weights slider tiers = Returns (slider_weights slider tiers).
Proof.
  intros Hnd. unfold sidebar_weights.
  rewrite sidebar_sliders_returns; [done|done|..];
    intros t _ Hin; by apply elem_of_nil in Hin.
Qed.

Lemma sidebar_weights_duplicate (slider : pystr → Z → Z)
    (tiers : list pystr) :
  ¬ NoDup tiers →
  sidebar_weights slider tiers = Raises StreamlitDuplicateElementId.
Proof. intros Hnd. apply sidebar_sliders_duplicate. by left. Qed.

(** X9. When no tier is listed twice, the sidebar builds a dict with one
    entry per tier, in the order of the list, each holding the position of
    the tier's own slider, which lies between 0 and 10.  When a tier is
    listed twice, the run ends at its second slider with
    [StreamlitDuplicateElementId]. *)
Theorem sidebar_weights_spec (slider : pystr → Z → Z) (tiers : list pystr) :
  (NoDup tiers →
   ∃ tier_weights,
     sidebar_weights slider tiers = Returns tier_weights
     ∧ dict_wf tier_weights
     ∧ tier_weights.*1 = tiers
     ∧ ∀ t w, (t, w) ∈ tier_weights
              ↔ t ∈ tiers
                ∧ w = Z.max 0 (Z.min 10 (slider t (default_weight t))))
  ∧ (¬ NoDup tiers →
     sidebar_weights slider tiers = Raises StreamlitDuplicateElementId).
Proof.
  split; [|apply sidebar_weights_duplicate].
  intros Hnd. exists (slider_weights slider tiers).
  split; [by apply sidebar_weights_returns|].
  split; [by apply slider_weights_wf|].
  split; [apply slider_weights_keys|]. apply slider_weights_elem.
Qed.

Lemma slider_weights_get (slider : pystr → Z → Z) (tiers : list pystr)
    (t : pystr) :
  NoDup tiers → t ∈ tiers →
  dict_get (slider_weights slider tiers) t 0
  = st_slider (slider t) 0 10 (default_weight t).
Proof.
  intros Hnd Ht. apply dict_get_elem; [by apply slider_weights_wf|].
  by apply slider_weights_elem.
Qed.

(** The total of the slider weights of a list of tiers is within the range
    of a float. *)
Lemma available_total_le (lists : gmap pystr (list pystr)) (d : weights_dict) :
  Forall (λ tw, (tw.2 ≤ 10)%Z) d →
  (available_total lists d ≤ 10 * Z.of_nat (length d))%Z.
Proof.
  unfold available_total. induction 1 as [|[t w] d Hw _ IH]; [done|].
  cbn [List.filter]. cbn [snd] in Hw.
  destruct (is_available lists (t, w)); rewrite ?fmap_cons;
    cbn [foldr snd length]; lia.
Qed.

Lemma slider_weights_in_range (slider : pystr → Z → Z) (tiers : list pystr)
    (lists : gmap pystr (list pystr)) :
  list_wf tiers →
  within_float_range lists (slider_weights slider tiers).
Proof.
  unfold list_wf, within_float_range. intros Hr.
  assert (Hcap : (10 * (2 ^ 63 - 1) < float_overflow)%Z)
    by (vm_compute; reflexivity).
  set (cap := (2 ^ 63 - 1)%Z) in *.
  pose proof (available_total_le lists (slider_weights slider tiers)) as Hle.
  assert (Hlen : length (slider_weights slider tiers) = length tiers)
    by apply length_fmap.
  rewrite Hlen in Hle.
  assert (Hall : Forall (λ tw : pystr * Z, (tw.2 ≤ 10)%Z)
                        (slider_weights slider tiers)).
  { apply Forall_forall. intros [t w] [_ ->]%slider_weights_elem.
    apply st_slider_bounds. }
  specialize (Hle Hall). lia.
Qed.

(** ** The animation and the pull button *)

Lemma dict_get_positive (d : weights_dict) (t : pystr) :
  (0 < dict_get d t 0)%Z → (t, dict_get d t 0) ∈ d.
Proof.
  induction d as [|[k v] d IH]; simpl; [lia|].
  case_bool_decide as Hk; [subst; by left|]. intros ?%IH. by right.
Qed.

Lemma enabled_pools_fold (tiers : list pystr) (tier_weights : weights_dict)
    (adjs ns : gmap pystr (list pystr)) (acc : list pystr * list pystr) :
  let pools :=
    foldl (λ '(enabled_adjs, enabled_nouns) t,
             if (0 <? dict_get tier_weights t 0)%Z
             then (enabled_adjs ++ get_or_empty adjs t,
                   enabled_nouns ++ get_or_empty ns t)
             else (enabled_adjs, enabled_nouns))
          acc tiers in
  (∀ w, w ∈ pools.1
        ↔ w ∈ acc.1 ∨ ∃ t, t ∈ tiers ∧ (0 < dict_get tier_weights t 0)%Z
                           ∧ w ∈ get_or_empty adjs t)
  ∧ (∀ w, w ∈ pools.2
          ↔ w ∈ acc.2 ∨ ∃ t, t ∈ tiers ∧ (0 < dict_get tier_weights t 0)%Z
                             ∧ w ∈ get_or_empty ns t).
Proof.
  revert acc. induction tiers as [|t0 tiers IH]; intros [ea en]; simpl.
  - split; intros w; (split; [by left|]);
      intros [?|(t & Hin & _)]; done || by apply elem_of_nil in Hin.
  - destruct (0 <? dict_get tier_weights t0 0)%Z eqn:E.
    + apply Z.ltb_lt in E.
      destruct (IH (ea ++ get_or_empty adjs t0, en ++ get_or_empty ns t0))
        as [Ha Hn]. simpl in Ha, Hn.
      split; intros w; [rewrite Ha|rewrite Hn]; rewrite elem_of_app;
        (split;
         [intros [[?|?]|(t & Hin & ? & ?)];
          [by left|right; exists t0; split; [by left|done]
          |right; exists t; split; [by right|done]]
         |intros [?|(t & [->|Hin]%elem_of_cons & ? & ?)];
          [by left; left|by left; right|right; by exists t]]).
    + apply Z.ltb_ge in E.
      destruct (IH (ea, en)) as [Ha Hn]. simpl in Ha, Hn.
      split; intros w; [rewrite Ha|rewrite Hn];
        (split;
         [intros [?|(t & Hin & ? & ?)];
          [by left|right; exists t; split; [by right|done]]
         |intros [?|(t & [->|Hin]%elem_of_cons & ? & ?)];
          [by left|lia|right; by exists t]]).
Qed.

Lemma enabled_pools_elem (tiers : list pystr) (tier_weights : weights_dict)
    (adjs ns : gmap pystr (list pystr)) :
  (∀ w, w ∈ (enabled_pools tiers tier_weights adjs ns).1
        ↔ ∃ t, t ∈ tiers ∧ (0 < dict_get tier_weights t 0)%Z
               ∧ w ∈ get_or_empty adjs t)
  ∧ (∀ w, w ∈ (enabled_pools tiers tier_weights adjs ns).2
          ↔ ∃ t, t ∈ tiers ∧ (0 < dict_get tier_weights t 0)%Z
                 ∧ w ∈ get_or_empty ns t).
Proof.
  destruct (enabled_pools_fold tiers tier_weights adjs ns ([], []))
    as [Ha Hn]. unfold enabled_pools.
  split; intros w; [rewrite Ha|rewrite Hn];
    (split; [|by right]); intros [Hin|?]; done || by apply elem_of_nil in Hin.
Qed.

Lemma nonempty_elem {A} (l : list A) : l ≠ [] ↔ ∃ x, x ∈ l.
Proof.
  destruct l as [|x l]; split; try done.
  - intros [x Hx]. by apply elem_of_nil in Hx.
  - intros _. exists x. by left.
Qed.

(** With the weights of the sidebar, the pools of the animation are empty
    exactly when [pick_word_from_tiers] has no eligible tier. *)
Lemma sidebar_pool_eligible (slider : pystr → Z → Z) (tiers : list pystr)
    (lists : gmap pystr (list pystr)) :
  NoDup tiers →
  (∃ t, t ∈ tiers ∧ (0 < dict_get (slider_weights slider tiers) t 0)%Z
        ∧ get_or_empty lists t ≠ [])
  ↔ ∃ t, eligible lists (slider_weights slider tiers) t.
Proof.
  intros Hnd. split.
  - intros (t & Hin & Hw & Hne).
    exists t, (dict_get (slider_weights slider tiers) t 0).
    split; [by apply dict_get_positive|done].
  - intros (t & w & Hin & Hw & Hne). exists t.
    pose proof (dict_get_elem _ t w 0 (slider_weights_wf slider tiers Hnd) Hin)
      as Hget.
    apply slider_weights_elem in Hin as [Hin _].
    split; [done|]. split; [lia|done].
Qed.

Lemma split_for_display_returns (final_name : pystr) :
  ∃ left right, split_for_display final_name = Returns (left, right).
Proof.
  unfold split_for_display.
  destruct (str_contains (py " of ") final_name) eqn:E1.
  { apply str_contains_true in E1 as (a & b & -> & _). by exists a, b. }
  destruct (str_contains (py "-") final_name) eqn:E2.
  { apply str_contains_true in E2 as (a & b & -> & _). by exists a, b. }
  destruct (str_contains (py "_") final_name) eqn:E3.
  { apply str_contains_true in E3 as (a & b & -> & _). by exists a, b. }
  destruct (str_contains (py " ") final_name) eqn:E4.
  { apply str_contains_true in E4 as (a & b & -> & _). by exists a, b. }
  apply str_contains_false in E4 as [-> _]. by exists final_name, [].
Qed.

Section CallerProofs.
Context `{PyCase}.

Lemma spin_frame_runs (enabled_adjs enabled_nouns : list pystr)
    (case_mode : pystr) (i : nat) (h : Heap) :
  enabled_adjs ≠ [] → enabled_nouns ≠ [] →
  ∃ g', spin_frame enabled_adjs enabled_nouns case_mode i h
        = (Returns (), set_rng g' h).
Proof.
  intros Ha Hn. unfold spin_frame.
  destruct (rng_choice_elem enabled_adjs (rng h) Ha) as (a & g1 & Ea & _).
  destruct (rng_choice_elem enabled_nouns g1 Hn) as (n & g2 & En & _).
  unfold mbind at 1, M_bind at 1, with_rng at 1. rewrite Ea.
  unfold mbind at 1, M_bind at 1, with_rng at 1. cbn [rng set_rng].
  rewrite En. cbv zeta.
  destruct (bool_decide (i ∈ [8; 22; 34]%nat)).
  - destruct (rng_choice_elem spin_messages g2) as (m & g3 & Em & _); [done|].
    unfold mbind, M_bind, with_rng. cbn [rng set_rng]. rewrite Em.
    by exists g3.
  - by exists g2.
Qed.

Lemma animation_runs (enabled_adjs enabled_nouns : list pystr)
    (case_mode : pystr) (frames : list nat) (h : Heap) :
  enabled_adjs ≠ [] → enabled_nouns ≠ [] →
  ∃ g', for_each frames (spin_frame enabled_adjs enabled_nouns case_mode) h
        = (Returns (), set_rng g' h).
Proof.
  intros Ha Hn. revert h. induction frames as [|i frames IH]; intros h.
  - exists (rng h). cbn. f_equal. apply set_rng_self.
  - cbn [for_each]. unfold mbind, M_bind.
    destruct (spin_frame_runs enabled_adjs enabled_nouns case_mode i h Ha Hn)
      as [g1 ->].
    destruct (IH (set_rng g1 h)) as [g2 ->]. by exists g2.
Qed.

Lemma reveal_spec (picked : option name_result) (h : Heap) :
  reveal picked h
  = (Returns (match picked with
              | None => None
              | Some (final_name, adj_tier, noun_tier) =>
                  Some (final_name,
                        if nonempty adj_tier then adj_tier else noun_tier)
              end), h).
Proof.
  destruct picked as [[[final_name adj_tier] noun_tier]|]; [|done].
  unfold reveal, mbind, M_bind, lift.
  by destruct (split_for_display_returns final_name) as (a & b & ->).
Qed.

(** [do_slot_animation] either stops at its check of the pools or, the
    animation over, hands the result of [generate_one_name] to [reveal]. *)
Lemma do_slot_animation_cases (fresh : Rng) (tiers : list pystr)
    (separator case_mode : pystr) (alliteration avoid_duplicates : bool)
    (h : Heap) :
  let pools := enabled_pools tiers (tier_weights h) (adjectives h) (nouns h) in
  ((pools.1 = [] ∨ pools.2 = [])
   ∧ do_slot_animation fresh tiers separator case_mode
                       alliteration avoid_duplicates h
     = (Returns None, set_rng fresh h))
  ∨ (pools.1 ≠ [] ∧ pools.2 ≠ []
     ∧ ∃ g,
         do_slot_animation fresh tiers separator case_mode
                           alliteration avoid_duplicates h
         = (generate_one_name separator case_mode
                              alliteration avoid_duplicates ≫= reveal)
             (set_rng g h)).
Proof.
  intros pools.
  assert (Heq : do_slot_animation fresh tiers separator case_mode
                                  alliteration avoid_duplicates h
                = if is_empty_list pools.1 || is_empty_list pools.2
                  then (Returns None, set_rng fresh h)
                  else (for_each (seq 0 schedule_length)
                                 (spin_frame pools.1 pools.2 case_mode)
                        ≫= λ _, generate_one_name separator case_mode
                                   alliteration avoid_duplicates ≫= reveal)
                         (set_rng fresh h)).
  { unfold do_slot_animation, mbind, M_bind, with_rng, load.
    cbn [rng set_rng adjectives nouns tier_weights]. fold pools.
    destruct pools as [ea en]. cbn [fst snd].
    by destruct (is_empty_list ea || is_empty_list en). }
  rewrite Heq. clear Heq. destruct pools as [ea en]. cbn [fst snd].
  destruct ea as [|a ea]; [left; split; [by left|done]|].
  destruct en as [|n en]; [left; split; [by right|done]|].
  right. split; [done|]. split; [done|]. cbn [is_empty_list orb].
  unfold mbind at 1, M_bind at 1.
  destruct (animation_runs (a :: ea) (n :: en) case_mode
              (seq 0 schedule_length) (set_rng fresh h)) as [g ->]; [done..|].
  by exists g.
Qed.

End CallerProofs.

Section SessionProofs.
Context `{PyCase}.

Lemma session_eta (s : Session) :
  {| last_name := last_name s; session_used_names := session_used_names s;
     history := history s |} = s.
Proof. by destruct s. Qed.

Lemma script_pull_duplicate (r : Request) (s : Session) :
  ¬ NoDup (req_tiers r) →
  script_pull r s = Raises StreamlitDuplicateElementId.
Proof. intros Hnd. unfold script_pull. by rewrite sidebar_weights_duplicate. Qed.

Lemma script_pull_unfold (r : Request) (s : Session) :
  NoDup (req_tiers r) →
  script_pull r s
  = match on_pull (req_fresh r) (req_now r) (req_tiers r) (req_separator r)
                  (req_case_mode r) (req_alliteration r)
                  (req_avoid_duplicates r) (last_name s) (history s)
                  (request_heap r
                     (slider_weights (req_slider r) (req_tiers r)) s) with
    | (Returns (shown, last, hist), h') =>
        Returns ({| last_name := last; session_used_names := used_names h';
                    history := hist |}, shown)
    | (Raises e, _) => Raises e
    | (OutOfFuel, _) => OutOfFuel
    end.
Proof. intros Hnd. unfold script_pull. by rewrite sidebar_weights_returns. Qed.

(** What one press of the button comes to when no tier is listed twice. *)
Lemma script_pull_cases (r : Request) (s : Session) :
  NoDup (req_tiers r) →
  let h := request_heap r (slider_weights (req_slider r) (req_tiers r)) s in
  (script_pull r s = Raises IndexError ∧ req_alliteration r = true
   ∧ ∃ t, enabled_word (req_adjectives r)
                       (slider_weights (req_slider r) (req_tiers r)) t [])
  ∨ (script_pull r s = Raises OverflowError
     ∧ weights_overflow h (req_alliteration r))
  ∨ script_pull r s = Returns (s, None)
  ∨ ∃ adj_tier adj_raw noun_tier noun_raw,
      chosen_pair h (req_alliteration r) adj_tier adj_raw noun_tier noun_raw
      ∧ ¬ is_duplicate h (req_avoid_duplicates r)
            (formatted (req_separator r) (req_case_mode r) adj_raw noun_raw)
      ∧ script_pull r s
        = Returns
            ({| last_name :=
                  Some (formatted (req_separator r) (req_case_mode r)
                                  adj_raw noun_raw);
                session_used_names :=
                  if req_avoid_duplicates r
                  then {[str_lower (formatted (req_separator r)
                                              (req_case_mode r)
                                              adj_raw noun_raw)]}
                       ∪ session_used_names s
                  else session_used_names s;
                history :=
                  take history_size
                    ((req_now r,
                      formatted (req_separator r) (req_case_mode r)
                                adj_raw noun_raw,
                      if nonempty adj_tier then adj_tier else noun_tier)
                     :: history s) |},
             Some (formatted (req_separator r) (req_case_mode r)
                             adj_raw noun_raw)).
Proof.
  intros Hnd h. rewrite (script_pull_unfold r s Hnd). fold h.
  destruct (do_slot_animation_cases (req_fresh r) (req_tiers r)
              (req_separator r) (req_case_mode r) (req_alliteration r)
              (req_avoid_duplicates r) h) as [[_ Hd]|(_ & _ & g & Hd)].
  { right. right. left. unfold on_pull, mbind, M_bind.
    rewrite Hd. cbn. by rewrite session_eta. }
  destruct (generate_outcomes (req_separator r) (req_case_mode r)
              (req_alliteration r) (req_avoid_duplicates r) (set_rng g h))
    as (o & g' & Hgen & Hcases).
  { by apply slider_weights_wf. }
  assert (Hd' : do_slot_animation (req_fresh r) (req_tiers r)
                  (req_separator r) (req_case_mode r) (req_alliteration r)
                  (req_avoid_duplicates r) h
                = match o with
                  | Returns picked => reveal picked (set_rng g' h)
                  | Raises e => (Raises e, set_rng g' h)
                  | OutOfFuel => (OutOfFuel, set_rng g' h)
                  end).
  { rewrite Hd. unfold mbind, M_bind. rewrite Hgen. by destruct o. }
  clear Hd Hgen.
  destruct Hcases as [->|[(-> & Hal & Hblank)
                         |[(-> & Hover)
                          |(adj_tier & adj_raw & noun_tier & noun_raw
                            & -> & Hpair & Hdup)]]].
  - right. right. left. unfold on_pull, mbind, M_bind.
    rewrite Hd', reveal_spec. cbn. by rewrite session_eta.
  - left. split; [|done]. unfold on_pull, mbind, M_bind. by rewrite Hd'.
  - right. left. split; [|done]. unfold on_pull, mbind, M_bind. by rewrite Hd'.
  - right. right. right. exists adj_tier, adj_raw, noun_tier, noun_raw.
    split; [exact Hpair|]. split; [exact Hdup|].
    unfold on_pull, mbind, M_bind.
    rewrite Hd', reveal_spec.
    destruct (req_avoid_duplicates r); reflexivity.
Qed.

(** The sliders keep the weights within the range of a float. *)
Lemma sidebar_no_overflow (r : Request) (s : Session) :
  list_wf (req_tiers r) →
  ¬ weights_overflow
      (request_heap r (slider_weights (req_slider r) (req_tiers r)) s)
      (req_alliteration r).
Proof.
  intros Hr [Hover|[_ Hover]]; apply Hover;
    by apply slider_weights_in_range.
Qed.

(** X10. Pressing the button never raises when no tier is listed twice
    and, for alliteration, no adjective list holds the empty string: with
    the weights the sidebar builds, the run ends with the session updated
    and a name or none shown.  ([list_wf]: the list of tiers is one Python
    can hold.) *)
Theorem script_pull_never_raises (r : Request) (s : Session) :
  NoDup (req_tiers r) →
  list_wf (req_tiers r) →
  (req_alliteration r = true →
   ∀ t l, req_adjectives r !! t = Some l → [] ∉ l) →
  ∃ s' shown, script_pull r s = Returns (s', shown).
Proof.
  intros Hnd Hrange Hblank.
  destruct (script_pull_cases r s Hnd)
    as [(_ & Hal & t & w & _ & _ & Hin)
       |[[_ Hover]|[->|(? & ? & ? & ? & _ & _ & ->)]]].
  - exfalso. unfold get_or_empty in Hin.
    destruct (req_adjectives r !! t) as [l|] eqn:El; simpl in Hin.
    + by apply (Hblank Hal t l El).
    + by apply elem_of_nil in Hin.
  - by apply sidebar_no_overflow in Hover.
  - by eexists _, _.
  - by eexists _, _.
Qed.

(** What a run that returns has done to the session. *)
Lemma script_pull_returns (r : Request) (s s' : Session)
    (shown : option pystr) :
  script_pull r s = Returns (s', shown) →
  (s' = s ∧ shown = None)
  ∨ ∃ name tier,
      shown = Some name
      ∧ (req_avoid_duplicates r = true →
         str_lower name ∉ session_used_names s)
      ∧ s' = {| last_name := Some name;
                session_used_names :=
                  if req_avoid_duplicates r
                  then {[str_lower name]} ∪ session_used_names s
                  else session_used_names s;
                history :=
                  take history_size ((req_now r, name, tier) :: history s) |}.
Proof.
  intros Hrun. destruct (decide (NoDup (req_tiers r))) as [Hnd|Hnd].
  2:{ by rewrite script_pull_duplicate in Hrun. }
  destruct (script_pull_cases r s Hnd)
    as [(Hr & _)|[(Hr & _)|[Hr|(adj_tier & adj_raw & noun_tier & noun_raw
                                & _ & Hdup & Hr)]]];
    rewrite Hr in Hrun; [done|done|injection Hrun as <- <-; by left|].
  injection Hrun as <- <-. right. eexists _, _. split; [done|].
  split; [|done]. intros Hav Hin. apply Hdup. by split.
Qed.

Lemma script_pull_ends (r : Request) (s : Session) :
  script_pull r s ≠ OutOfFuel.
Proof.
  destruct (decide (NoDup (req_tiers r))) as [Hnd|Hnd].
  2:{ by rewrite script_pull_duplicate. }
  destruct (script_pull_cases r s Hnd)
    as [(Hr & _)|[(Hr & _)|[Hr|(? & ? & ? & ? & _ & _ & Hr)]]];
    by rewrite Hr.
Qed.

(** A session goes on whatever its runs come to. *)
Lemma run_session_returns (requests : list Request) (s : Session) :
  ∃ s' names, run_session requests s = Returns (s', names).
Proof.
  revert s. induction requests as [|r requests IH]; intros s.
  - by eexists _, _.
  - cbn [run_session]. pose proof (script_pull_ends r s) as Hend.
    destruct (script_pull r s) as [[s1 shown]|e|]; [|apply IH|done].
    destruct (IH s1) as (s2 & names & ->). by eexists _, _.
Qed.

Lemma script_pull_used (r : Request) (s s' : Session) (shown : option pystr) :
  script_pull r s = Returns (s', shown) →
  req_avoid_duplicates r = true →
  session_used_names s ⊆ session_used_names s'
  ∧ ∀ name, shown = Some name →
      (str_lower name ∉ session_used_names s)
      ∧ (str_lower name ∈ session_used_names s').
Proof.
  intros [[-> ->]|(name & tier & -> & Hfresh & ->)]%script_pull_returns Hav.
  - split; [done|]. by intros name.
  - rewrite Hav. cbn [session_used_names]. split; [set_solver|].
    intros ? [= <-]. split; [by apply Hfresh|set_solver].
Qed.

(** X11. In a session where every pull avoids duplicates, no name is shown
    twice, not even in another case, whatever the runs come to (a run that
    raises shows no name and leaves the session to the next): the session
    goes on to its end, the names shown are pairwise different after
    lower-casing, none was among the used names at the start, and all are
    among them at the end. *)
Theorem session_names_distinct (requests : list Request) (s : Session) :
  Forall (λ r, req_avoid_duplicates r = true) requests →
  ∃ s' names,
    run_session requests s = Returns (s', names)
    ∧ NoDup (str_lower <$> names)
    ∧ ∀ name, name ∈ names →
        (str_lower name ∉ session_used_names s)
        ∧ (str_lower name ∈ session_used_names s').
Proof.
  intros Hav.
  assert (Hgen : ∀ s s' names,
    run_session requests s = Returns (s', names) →
    session_used_names s ⊆ session_used_names s'
    ∧ NoDup (str_lower <$> names)
    ∧ ∀ name, name ∈ names →
        (str_lower name ∉ session_used_names s)
        ∧ (str_lower name ∈ session_used_names s')).
  { clear s. induction Hav as [|r requests Hr Hav IH]; intros s s' names.
    - intros [= <- <-]. split; [done|]. split; [constructor|].
      intros name Hin. by apply elem_of_nil in Hin.
    - cbn [run_session].
      destruct (script_pull r s) as [[s1 shown]|e|] eqn:E1;
        [|apply IH|done].
      unfold mbind, outcome_bind.
      destruct (run_session requests s1) as [[s2 rest]|e|] eqn:E2; [|done..].
      intros [= <- <-].
      destruct (script_pull_used r s s1 shown E1 Hr) as [Hsub Hshown].
      destruct (IH s1 s2 rest E2) as (Hsub' & Hnd & Hrest).
      split; [set_solver|].
      destruct shown as [name|];
        [change (option_list (Some name) ++ rest) with (name :: rest)
        |change (option_list None ++ rest) with rest].
      + destruct (Hshown name eq_refl) as [Hfresh Hin1].
        split.
        * rewrite fmap_cons. apply NoDup_cons. split; [|done].
          intros (n & Heq & Hn)%list_elem_of_fmap.
          destruct (Hrest n Hn) as [Hnot _]. rewrite <- Heq in Hnot. done.
        * intros n [->|Hn]%elem_of_cons; [split; [done|set_solver]|].
          destruct (Hrest n Hn) as [Hnot Hin]. split; [set_solver|done].
      + split; [done|]. intros n Hn.
        destruct (Hrest n Hn) as [Hnot Hin]. split; [set_solver|done]. }
  destruct (run_session_returns requests s) as (s' & names & Hrun).
  exists s', names. split; [exact Hrun|].
  by destruct (Hgen s s' names Hrun) as (_ & ? & ?).
Qed.

Lemma take_app_take {A} (n : nat) (l k : list A) :
  take n (l ++ take n k) = take n (l ++ k).
Proof.
  rewrite !take_app, take_take. do 2 f_equal. lia.
Qed.

Lemma script_pull_history (r : Request) (s s' : Session)
    (shown : option pystr) :
  script_pull r s = Returns (s', shown) →
  (λ e, e.1.2) <$> history s'
  = match shown with
    | Some name => take history_size (name :: ((λ e, e.1.2) <$> history s))
    | None => (λ e, e.1.2) <$> history s
    end.
Proof.
  intros [[-> ->]|(name & tier & -> & _ & ->)]%script_pull_returns; [done|].
  cbn [history]. change history_size with 12%nat. cbn [take].
  by rewrite fmap_cons, fmap_take.
Qed.

(** X12. The history holds the names of the most recent pulls, the newest
    first, and never more than [history_size] of them: a sequence of runs,
    whatever they come to, goes on to its end, and the history is then the
    names shown, newest first, followed by what the history held before,
    cut after [history_size] entries. *)
Theorem session_history (requests : list Request) (s : Session) :
  (length (history s) ≤ history_size)%nat →
  ∃ s' names,
    run_session requests s = Returns (s', names)
    ∧ (λ e, e.1.2) <$> history s'
      = take history_size (rev names ++ ((λ e, e.1.2) <$> history s))
    ∧ (length (history s') ≤ history_size)%nat.
Proof.
  intros Hlen.
  destruct (run_session_returns requests s) as (s' & names & Hrun).
  exists s', names. split; [exact Hrun|].
  assert (Hnames : (λ e : pystr * pystr * pystr, e.1.2) <$> history s'
                   = take history_size
                       (rev names ++ ((λ e, e.1.2) <$> history s))).
  { revert s s' names Hlen Hrun.
    induction requests as [|r requests IH]; intros s s' names Hlen.
    - intros [= <- <-]. cbn [rev app].
      rewrite take_ge; [done|]. by rewrite length_fmap.
    - cbn [run_session].
      destruct (script_pull r s) as [[s1 shown]|e|] eqn:E1;
        [|by apply IH|done].
      unfold mbind, outcome_bind.
      destruct (run_session requests s1) as [[s2 rest]|e|] eqn:E2; [|done..].
      intros [= <- <-].
      pose proof (script_pull_history r s s1 shown E1) as Hh.
      assert (Hlen1 : (length (history s1) ≤ history_size)%nat).
      { rewrite <- (length_fmap (λ e : pystr * pystr * pystr, e.1.2)), Hh.
        destruct shown; [rewrite length_take; lia|by rewrite length_fmap]. }
      rewrite (IH s1 s2 rest Hlen1 E2), Hh.
      destruct shown as [name|];
        [change (option_list (Some name) ++ rest) with (name :: rest)
        |change (option_list None ++ rest) with rest]; [|done].
      cbn [rev]. rewrite take_app_take. by rewrite <- app_assoc. }
  split; [exact Hnames|].
  rewrite <- (length_fmap (λ e : pystr * pystr * pystr, e.1.2)), Hnames.
  rewrite length_take. lia.
Qed.

(** X13. When no tier is listed twice, a pull without alliteration and
    without duplicate avoidance shows a name unless it cannot: none is
    shown exactly when no tier with a positive slider has an adjective, or
    none has a noun.  ([list_wf]: the list of tiers is one Python can
    hold.) *)
Theorem pull_shows_name_iff (r : Request) (s : Session) :
  NoDup (req_tiers r) →
  list_wf (req_tiers r) →
  req_alliteration r = false → req_avoid_duplicates r = false →
  ∃ s' shown,
    script_pull r s = Returns (s', shown)
    ∧ (shown = None
       ↔ (¬ ∃ t, t ∈ req_tiers r
                 ∧ (0 < req_slider r t (default_weight t))%Z
                 ∧ get_or_empty (req_adjectives r) t ≠ [])
         ∨ (¬ ∃ t, t ∈ req_tiers r
                   ∧ (0 < req_slider r t (default_weight t))%Z
                   ∧ get_or_empty (req_nouns r) t ≠ [])).
Proof.
  intros Hnd Hrange Hal Hav.
  set (tw := slider_weights (req_slider r) (req_tiers r)).
  set (h := request_heap r tw s).
  assert (Hpool : ∀ lists : gmap pystr (list pystr),
    (∃ t, t ∈ req_tiers r ∧ (0 < req_slider r t (default_weight t))%Z
          ∧ get_or_empty lists t ≠ [])
    ↔ ∃ t, eligible lists tw t).
  { intros lists. unfold tw. rewrite <- sidebar_pool_eligible by done. split.
    - intros (t & Hin & Hw & Hne). exists t.
      rewrite slider_weights_get by done.
      split; [done|]. split; [by apply st_slider_positive|done].
    - intros (t & Hin & Hw & Hne). exists t.
      rewrite slider_weights_get in Hw by done.
      apply (proj1 (st_slider_positive _ _)) in Hw. done. }
  destruct (enabled_pools_elem (req_tiers r) tw (req_adjectives r)
              (req_nouns r)) as [Hea Hen].
  assert (Hadj : (enabled_pools (req_tiers r) tw (req_adjectives r)
                                (req_nouns r)).1 ≠ []
                 ↔ ∃ t, eligible (req_adjectives r) tw t).
  { unfold tw. rewrite nonempty_elem, <- sidebar_pool_eligible by done. split.
    - intros (w & (t & Hin & Hw & Hwt)%Hea). exists t.
      split; [done|]. split; [done|]. intros Hnil. rewrite Hnil in Hwt.
      by apply elem_of_nil in Hwt.
    - intros (t & Hin & Hw & Hne). apply nonempty_elem in Hne as [w Hwt].
      exists w. apply Hea. by exists t. }
  assert (Hnoun : (enabled_pools (req_tiers r) tw (req_adjectives r)
                                 (req_nouns r)).2 ≠ []
                  ↔ ∃ t, eligible (req_nouns r) tw t).
  { unfold tw. rewrite nonempty_elem, <- sidebar_pool_eligible by done. split.
    - intros (w & (t & Hin & Hw & Hwt)%Hen). exists t.
      split; [done|]. split; [done|]. intros Hnil. rewrite Hnil in Hwt.
      by apply elem_of_nil in Hwt.
    - intros (t & Hin & Hw & Hne). apply nonempty_elem in Hne as [w Hwt].
      exists w. apply Hen. by exists t. }
  rewrite (script_pull_unfold r s Hnd). fold tw. fold h.
  unfold on_pull. rewrite Hal, Hav.
  unfold mbind at 1, M_bind at 1.
  destruct (do_slot_animation_cases (req_fresh r) (req_tiers r)
              (req_separator r) (req_case_mode r) false false h)
    as [[Hempty ->]|(Ha & Hn & g & ->)].
  - eexists _, None. split; [reflexivity|]. split; [intros _|done].
    rewrite !Hpool. destruct Hempty as [He|He].
    + left. intros Hex. by apply Hadj in Hex.
    + right. intros Hex. by apply Hnoun in Hex.
  - apply Hadj in Ha. apply Hnoun in Hn.
    destruct (first_pass_name (req_separator r) (req_case_mode r)
                (set_rng g h) (slider_weights_wf _ _ Hnd)
                (slider_weights_in_range _ _ _ Hrange)
                (slider_weights_in_range _ _ _ Hrange) Ha Hn)
      as (name & adj_tier & noun_tier & g' & Hgen).
    unfold mbind at 1, M_bind at 1.
    rewrite generate_one_name_counting, Hgen, reveal_spec. cbn.
    eexists _, (Some name). split; [reflexivity|]. split; [done|].
    rewrite !Hpool. intros [Hno|Hno]; by destruct Hno.
Qed.

End SessionProofs.

Lemma sidebar_weights_spec_witness :
  NoDup [py "Common"; py "Rare"; py "Epic"]
  ∧ (∃ tier_weights,
       sidebar_weights sample_slider [py "Common"; py "Rare"; py "Epic"]
       = Returns tier_weights
       ∧ dict_wf tier_weights
       ∧ tier_weights.*1 = [py "Common"; py "Rare"; py "Epic"])
  ∧ sidebar_weights sample_slider [py "Common"; py "Rare"; py "Epic"]
    = Returns [(py "Common", 5%Z); (py "Rare", 3%Z); (py "Epic", 0%Z)]
  ∧ ¬ NoDup [py "Common"; py "Rare"; py "Common"]
  ∧ sidebar_weights sample_slider [py "Common"; py "Rare"; py "Common"]
    = Raises StreamlitDuplicateElementId.
Proof.
  assert (Hnd : NoDup [py "Common"; py "Rare"; py "Epic"]).
  { apply (bool_decide_unpack _). vm_compute. exact I. }
  assert (Hdup : ¬ NoDup [py "Common"; py "Rare"; py "Common"]).
  { apply (bool_decide_unpack _). vm_compute. exact I. }
  split; [exact Hnd|]. split.
  { destruct (proj1 (sidebar_weights_spec sample_slider
                       [py "Common"; py "Rare"; py "Epic"]) Hnd)
      as (tier_weights & Hrun & Hwf & Hkeys & _).
    by exists tier_weights. }
  split; [vm_compute; reflexivity|]. split; [exact Hdup|].
  exact (proj2 (sidebar_weights_spec sample_slider
                  [py "Common"; py "Rare"; py "Common"]) Hdup).
Defined.

Lemma script_pull_never_raises_witness :
  NoDup (req_tiers (flagged_request true true))
  ∧ list_wf (req_tiers (flagged_request true true))
  ∧ (∀ t l, req_adjectives (flagged_request true true) !! t = Some l →
            [] ∉ l)
  ∧ ∃ s' shown,
      script_pull (flagged_request true true) new_session
      = Returns (s', shown).
Proof.
  assert (Hnd : NoDup (req_tiers (flagged_request true true))).
  { apply (bool_decide_unpack _). vm_compute. exact I. }
  assert (Hrange : list_wf (req_tiers (flagged_request true true))).
  { by vm_compute. }
  assert (Hblank : ∀ t l, req_adjectives (flagged_request true true) !! t
                          = Some l → [] ∉ l).
  { apply (bool_decide_unpack
             (map_Forall (λ _ l, [] ∉ l)
                         (req_adjectives (flagged_request true true)))).
    vm_compute. exact I. }
  split; [exact Hnd|]. split; [exact Hrange|]. split; [exact Hblank|].
  exact (script_pull_never_raises (flagged_request true true) new_session
           Hnd Hrange (λ _, Hblank)).
Defined.

(** A run on a tier list with a repeat raises; the session goes on. *)
Example repeated_tier_raises :
  script_pull (repeated_tier_request 4 "10:00:03") new_session
  = Raises StreamlitDuplicateElementId.
Proof. vm_compute. reflexivity. Qed.

Lemma session_names_distinct_witness :
  Forall (λ r, req_avoid_duplicates r = true) sample_requests
  ∧ ∃ s' names,
      run_session sample_requests new_session = Returns (s', names)
      ∧ names = [py "Brave Bear"; py "Swift Fang"]
      ∧ NoDup (str_lower <$> names).
Proof.
  assert (Hav : Forall (λ r, req_avoid_duplicates r = true) sample_requests).
  { repeat constructor. }
  split; [exact Hav|].
  destruct (session_names_distinct sample_requests new_session Hav)
    as (s' & names & Hrun & Hnd & _).
  exists s', names. split; [exact Hrun|]. split; [|exact Hnd].
  assert (Hval : ∃ s0, run_session sample_requests new_session
                       = Returns (s0, [py "Brave Bear"; py "Swift Fang"])).
  { eexists. vm_compute. reflexivity. }
  destruct Hval as [s0 Hval]. rewrite Hval in Hrun. by injection Hrun.
Defined.

Lemma session_history_witness :
  (length (history new_session) ≤ history_size)%nat
  ∧ ∃ s' names,
      run_session sample_requests new_session = Returns (s', names)
      ∧ (λ e, e.1.2) <$> history s'
        = take history_size
            (rev names ++ ((λ e, e.1.2) <$> history new_session))
      ∧ names = [py "Brave Bear"; py "Swift Fang"].
Proof.
  assert (Hlen : (length (history new_session) ≤ history_size)%nat).
  { vm_compute. lia. }
  split; [exact Hlen|].
  destruct (session_history sample_requests new_session Hlen)
    as (s' & names & Hrun & Hhist & _).
  exists s', names. split; [exact Hrun|]. split; [exact Hhist|].
  assert (Hval : ∃ s0, run_session sample_requests new_session
                       = Returns (s0, [py "Brave Bear"; py "Swift Fang"])).
  { eexists. vm_compute. reflexivity. }
  destruct Hval as [s0 Hval]. rewrite Hval in Hrun. by injection Hrun.
Defined.

Lemma pull_shows_name_iff_witness :
  NoDup (req_tiers (flagged_request false false))
  ∧ list_wf (req_tiers (flagged_request false false))
  ∧ req_alliteration (flagged_request false false) = false
  ∧ req_avoid_duplicates (flagged_request false false) = false
  ∧ ∃ s' shown,
      script_pull (flagged_request false false) new_session
      = Returns (s', shown)
      ∧ shown = Some (py "Brave Bear").
Proof.
  assert (Hnd : NoDup (req_tiers (flagged_request false false))).
  { apply (bool_decide_unpack _). vm_compute. exact I. }
  assert (Hrange : list_wf (req_tiers (flagged_request false false))).
  { by vm_compute. }
  split; [exact Hnd|]. split; [exact Hrange|].
  split; [reflexivity|]. split; [reflexivity|].
  destruct (pull_shows_name_iff (flagged_request false false) new_session
              Hnd Hrange eq_refl eq_refl) as (s' & shown & Hrun & _).
  exists s', shown. split; [exact Hrun|].
  assert (Hval : ∃ s0, script_pull (flagged_request false false) new_session
                       = Returns (s0, Some (py "Brave Bear"))).
  { eexists. vm_compute. reflexivity. }
  destruct Hval as [s0 Hval]. rewrite Hval in Hrun. by injection Hrun.
Defined.

(** * The word-list editor *)

Lemma list_remove_elem (x : pystr) (l : list pystr) :
  x ∈ l →
  ∃ l', list_remove x l = Returns l'
        ∧ (∀ y, y ∈ l' → y ∈ l)
        ∧ (∀ y, y ∈ l → y ≠ x → y ∈ l')
        ∧ (NoDup l → NoDup l' ∧ x ∉ l').
Proof.
  induction l as [|y l IH]; intros Hx; [by apply elem_of_nil in Hx|].
  cbn [list_remove]. case_bool_decide as Hy.
  - subst y. exists l. split; [done|]. split; [by right|]. split.
    + intros y [->|?]%elem_of_cons ?; done.
    + by intros [? ?]%NoDup_cons.
  - apply elem_of_cons in Hx as [->|Hx]; [done|].
    destruct (IH Hx) as (l' & -> & Hsub & Hkeep & Hnd).
    exists (y :: l'). split; [done|]. split; [|split].
    + intros z [->|Hz]%elem_of_cons; [by left|]. right. by apply Hsub.
    + intros z [->|Hz]%elem_of_cons Hne; [by left|]. right. by apply Hkeep.
    + intros [Hyl Hl]%NoDup_cons. destruct (Hnd Hl) as [Hl' Hxl'].
      split.
      * apply NoDup_cons. split; [|done]. intros Hin. by apply Hyl, Hsub.
      * intros [->|?]%elem_of_cons; done.
Qed.


Lemma setdefault_empty_lookup (d : gmap pystr (list pystr)) (k k' : pystr) :
  setdefault_empty d k !! k'
  = match d !! k' with
    | Some l => Some l
    | None => if decide (k = k') then Some [] else None
    end.
Proof.
  unfold setdefault_empty. destruct (d !! k) as [l|] eqn:E.
  - destruct (d !! k') as [l'|] eqn:E'; [done|].
    rewrite decide_False; [done|]. intros ->. congruence.
  - destruct (decide (k = k')) as [<-|Hne].
    + by rewrite lookup_insert_eq, E.
    + rewrite lookup_insert_ne by done. by destruct (d !! k').
Qed.





Section EditorProofs.
Context `{PyCase}.

Lemma clean_list_nil : clean_list [].
Proof. split; constructor. Qed.

Lemma clean_list_normalize (text : pystr) : clean_list (normalize_words text).
Proof.
  split; [apply normalize_words_clean|].
  rewrite normalize_words_unfold. apply dedupe_list_NoDup.
Qed.

Lemma default_data_ok : data_ok default_data.
Proof.
  split.
  - apply (bool_decide_unpack _). vm_compute. exact I.
  - apply (bool_decide_unpack _). vm_compute. exact I.
  - intros t Ht. apply (bool_decide_unpack _).
    apply elem_of_cons in Ht as [->|Ht]; [by vm_compute|].
    apply elem_of_cons in Ht as [->|Ht]; [by vm_compute|].
    apply list_elem_of_singleton in Ht as ->. by vm_compute.
  - intros t Ht. apply (bool_decide_unpack _).
    apply elem_of_cons in Ht as [->|Ht]; [by vm_compute|].
    apply elem_of_cons in Ht as [->|Ht]; [by vm_compute|].
    apply list_elem_of_singleton in Ht as ->. by vm_compute.
  - unfold default_data. cbn [data_adjectives].
    repeat apply map_Forall_insert_2; try apply clean_list_nil.
    apply map_Forall_empty.
  - unfold default_data. cbn [data_nouns].
    repeat apply map_Forall_insert_2; try apply clean_list_nil.
    apply map_Forall_empty.
Qed.

Lemma setdefault_empty_clean (m : gmap pystr (list pystr)) (k : pystr) :
  map_Forall (λ _ l, clean_list l) m →
  map_Forall (λ _ l, clean_list l) (setdefault_empty m k).
Proof.
  intros Hm t l. rewrite setdefault_empty_lookup.
  destruct (m !! t) as [l'|] eqn:E.
  - intros [= <-]. by eapply Hm.
  - destruct (decide (k = t)); [|done]. intros [= <-]. apply clean_list_nil.
Qed.

Lemma add_tier_ok (new_tier : pystr) (d : WordData) :
  data_ok d → data_ok (add_tier new_tier d).
Proof.
  intros [Hnd Hnames Ha Hn Hca Hcn]. unfold add_tier.
  destruct (nonempty (strip new_tier)) eqn:Ene; [|by split].
  case_bool_decide as Hin; [by split|]. cbn [negb andb].
  split; cbn [data_tiers data_adjectives data_nouns].
  - apply NoDup_app. split; [done|]. split; [|apply NoDup_singleton].
    intros x Hx ->%list_elem_of_singleton. done.
  - apply Forall_app. split; [done|]. constructor; [|constructor].
    split; [by apply nonempty_true|apply strip_trimmed].
  - intros t Ht. rewrite setdefault_empty_lookup.
    apply elem_of_app in Ht as [Ht|Ht].
    + destruct (Ha t Ht) as [l ->]. by eexists.
    + apply list_elem_of_singleton in Ht as ->.
      destruct (data_adjectives d !! strip new_tier); [by eexists|].
      rewrite decide_True by done. by eexists.
  - intros t Ht. rewrite setdefault_empty_lookup.
    apply elem_of_app in Ht as [Ht|Ht].
    + destruct (Hn t Ht) as [l ->]. by eexists.
    + apply list_elem_of_singleton in Ht as ->.
      destruct (data_nouns d !! strip new_tier); [by eexists|].
      rewrite decide_True by done. by eexists.
  - by apply setdefault_empty_clean.
  - by apply setdefault_empty_clean.
Qed.

Lemma remove_tier_ok (t : pystr) (d d' : WordData) :
  data_ok d → remove_tier t d = Returns d' → data_ok d'.
Proof.
  intros [Hnd Hnames Ha Hn Hca Hcn]. unfold remove_tier.
  destruct (negb _); [|intros [= <-]; by split].
  case_bool_decide as Hin; [|intros [= <-]; by split].
  destruct (list_remove_elem t (data_tiers d) Hin)
    as (l' & -> & Hsub & Hkeep & Hnd').
  destruct (Hnd' Hnd) as [Hl' Hgone].
  cbn [mbind outcome_bind]. intros [= <-].
  split; cbn [data_tiers data_adjectives data_nouns].
  - done.
  - apply Forall_forall. intros x Hx.
    eapply Forall_forall in Hnames; [exact Hnames|]. by apply Hsub.
  - intros x Hx. rewrite lookup_delete_ne; [by apply Ha, Hsub|].
    intros ->. done.
  - intros x Hx. rewrite lookup_delete_ne; [by apply Hn, Hsub|].
    intros ->. done.
  - by apply map_Forall_delete.
  - by apply map_Forall_delete.
Qed.

Lemma save_tier_lists_ok (edit_tier adj_text noun_text : pystr)
    (d : WordData) :
  data_ok d → data_ok (save_tier_lists edit_tier adj_text noun_text d).
Proof.
  intros [Hnd Hnames Ha Hn Hca Hcn].
  split; cbn [save_tier_lists data_tiers data_adjectives data_nouns]; try done.
  - intros t Ht. destruct (decide (edit_tier = t)) as [->|Hne].
    + rewrite lookup_insert_eq. by eexists.
    + rewrite lookup_insert_ne by done. by apply Ha.
  - intros t Ht. destruct (decide (edit_tier = t)) as [->|Hne].
    + rewrite lookup_insert_eq. by eexists.
    + rewrite lookup_insert_ne by done. by apply Hn.
  - apply map_Forall_insert_2; [apply clean_list_normalize|done].
  - apply map_Forall_insert_2; [apply clean_list_normalize|done].
Qed.

Lemma editor_reachable_ok (d : WordData) : editor_reachable d → data_ok d.
Proof.
  induction 1 as [|new_tier d _ IH|t d d' _ IH Hrem
                 |edit_tier adj_text noun_text d _ IH _].
  - apply default_data_ok.
  - by apply add_tier_ok.
  - by eapply remove_tier_ok.
  - by apply save_tier_lists_ok.
Qed.

(** X17. Whatever is done with the three buttons of the editor, starting
    from the default file, the data stay in order: no tier is listed twice,
    tier names are non-empty and trimmed, every tier has an adjective list
    and a noun list, and every list is as the normalizer leaves it (cleaned
    words, no two the same up to case). *)
Theorem editor_keeps_data_ok (d : WordData) :
  editor_reachable d → data_ok d.
Proof. apply editor_reachable_ok. Qed.

(** X18. Saving a tier of such data without editing the two texts changes
    nothing. *)
Theorem save_unedited_tier (edit_tier : pystr) (d : WordData) :
  data_ok d → edit_tier ∈ data_tiers d →
  save_tier_lists edit_tier (editor_text (data_adjectives d) edit_tier)
                  (editor_text (data_nouns d) edit_tier) d
  = d.
Proof.
  intros [_ _ Ha Hn Hca Hcn] Ht.
  destruct (Ha edit_tier Ht) as [la Hla]. destruct (Hn edit_tier Ht) as [ln Hln].
  destruct (Hca edit_tier la Hla) as [Hca1 Hca2].
  destruct (Hcn edit_tier ln Hln) as [Hcn1 Hcn2].
  unfold save_tier_lists, editor_text, get_or_empty. rewrite Hla, Hln.
  cbn [default].
  rewrite !normalize_words_unfold, !cleaned_pieces_join by done.
  rewrite !dedupe_list_fixed by (done || set_solver).
  rewrite !insert_id by done. by destruct d.
Qed.

(** X19. On data the editor has led to, pressing the pull button never
    raises, whatever the sliders, the settings and the random draws are
    ([list_wf]: the list of tiers is one Python can hold). *)
Theorem edited_data_pull_never_raises (d : WordData)
    (slider : pystr → Z → Z) (separator case_mode : pystr)
    (alliteration avoid_duplicates : bool) (fresh : Rng) (now : pystr)
    (s : Session) :
  editor_reachable d →
  list_wf (data_tiers d) →
  ∃ s' shown,
    script_pull (request_of d slider separator case_mode alliteration
                            avoid_duplicates fresh now) s
    = Returns (s', shown).
Proof.
  intros Hreach Hrange.
  apply editor_reachable_ok in Hreach as [Hnd _ _ _ Hca _].
  destruct (script_pull_cases
              (request_of d slider separator case_mode alliteration
                          avoid_duplicates fresh now) s Hnd)
    as [(_ & _ & t & w & _ & _ & Hin)
       |[[_ Hover]|[->|(? & ? & ? & ? & _ & _ & ->)]]].
  - exfalso. cbn [request_of req_adjectives] in Hin.
    unfold get_or_empty in Hin.
    destruct (data_adjectives d !! t) as [l|] eqn:El; simpl in Hin.
    + destruct (Hca t l El) as [Hclean _].
      eapply Forall_forall in Hclean; [|exact Hin]. by destruct Hclean.
    + by apply elem_of_nil in Hin.
  - by apply sidebar_no_overflow in Hover.
  - by eexists _, _.
  - by eexists _, _.
Qed.

End EditorProofs.

(** ** The sample data of the editor *)

Lemma edited_data_reachable : editor_reachable edited_data.
Proof.
  unfold edited_data.
  apply reach_save; [apply reach_add, reach_save; [apply reach_default|]|];
    apply (bool_decide_unpack _); vm_compute; exact I.
Qed.




Lemma editor_keeps_data_ok_witness :
  editor_reachable edited_data ∧ data_ok edited_data.
Proof.
  split; [exact edited_data_reachable|].
  exact (editor_keeps_data_ok edited_data edited_data_reachable).
Defined.

Lemma save_unedited_tier_witness :
  data_ok edited_data
  ∧ py "Common" ∈ data_tiers edited_data
  ∧ save_tier_lists (py "Common")
      (editor_text (data_adjectives edited_data) (py "Common"))
      (editor_text (data_nouns edited_data) (py "Common")) edited_data
    = edited_data.
Proof.
  assert (Hok : data_ok edited_data).
  { apply editor_reachable_ok, edited_data_reachable. }
  assert (Hin : py "Common" ∈ data_tiers edited_data).
  { apply (bool_decide_unpack _). vm_compute. exact I. }
  split; [exact Hok|]. split; [exact Hin|].
  exact (save_unedited_tier (py "Common") edited_data Hok Hin).
Defined.

Lemma edited_data_pull_never_raises_witness :
  editor_reachable edited_data
  ∧ list_wf (data_tiers edited_data)
  ∧ ∃ s' shown,
      script_pull (request_of edited_data sample_slider (py "Hyphen")
                              (py "UPPER") true true counting_tape
                              (py "10:00:01")) new_session
      = Returns (s', shown).
Proof.
  assert (Hrange : list_wf (data_tiers edited_data)).
  { by vm_compute. }
  split; [exact edited_data_reachable|]. split; [exact Hrange|].
  exact (edited_data_pull_never_raises edited_data sample_slider (py "Hyphen")
           (py "UPPER") true true counting_tape (py "10:00:01") new_session
           edited_data_reachable Hrange).
Defined.

Example edited_data_pull :
  match script_pull (request_of edited_data sample_slider (py "Hyphen")
                       (py "UPPER") true true counting_tape (py "10:00:01"))
                    new_session with
  | Returns (_, shown) => shown
  | _ => None
  end = Some (py "SWIFT-STORM").
Proof. vm_compute. reflexivity. Qed.
